(** * recon-simu: the turbulence generator, the Shack-Hartmann sensor and the
    centroider of [hardware_simulator.py], embedded as Rocq functions.

    The Python code is NumPy array code.  An [ndarray] is modelled the way
    NumPy stores it: a shape and a flat buffer in C (row-major) order.  Every
    operation that can raise in Python returns a [result]; the exception
    names are Python's.  Scalars are kept abstract behind the [Scalar] class:
    the instance [float64] is IEEE-754 binary64 (the Standard Library's
    [SpecFloat]).  What the code computes is stated for every instance,
    float64 included; what holds only without rounding is stated for the
    instances that obey the laws of exact arithmetic ([exact_arith]), and
    shown to fail in float64 by evaluation. *)

From Stdlib Require Import List ZArith Lia Bool Arith PeanoNat.
From Stdlib Require Import Floats.SpecFloat.
From Stdlib Require Import Sorting.Sorted Sorting.Permutation.
Import ListNotations.

Set Implicit Arguments.

(* ===================================================================== *)
(** ** Exceptions and the error monad *)
(* ===================================================================== *)

Inductive exn : Type :=
| ValueError | IndexError | TypeError | NameError | ZeroDivisionError
| AxisError | LinAlgError | AttributeError.

Inductive result (A : Type) : Type :=
| Ok (a : A)
| Raise (e : exn).

Arguments Ok {A} a.
Arguments Raise {A} e.

Definition bind {A B : Type} (c : result A) (k : A -> result B) : result B :=
  match c with
  | Ok a => k a
  | Raise e => Raise e
  end.

Notation "x <- c ;; k" := (bind c (fun x => k))
  (at level 61, c at next level, right associativity).
Notation "' p <- c ;; k" := (bind c (fun x => let 'p := x in k))
  (at level 61, p pattern, c at next level, right associativity).

(** Reading an attribute that may still be [None] and using it as an object. *)
Definition require {A : Type} (o : option A) (e : exn) : result A :=
  match o with Some a => Ok a | None => Raise e end.

Definition is_ok {A : Type} (c : result A) : bool :=
  match c with Ok _ => true | Raise _ => false end.

(* ===================================================================== *)
(** ** Scalars *)
(* ===================================================================== *)

(** The arithmetic the simulator performs on array elements. *)
Class Scalar (T : Type) : Type := {
  s_zero : T;
  s_one : T;
  s_add : T -> T -> T;
  s_sub : T -> T -> T;
  s_mul : T -> T -> T;
  s_div : T -> T -> T;
  s_sqrt : T -> T;
  s_ltb : T -> T -> bool;
  s_leb : T -> T -> bool;
  s_of_Z : Z -> T;
  s_pi : T
}.

(** The laws of exact (real or rational) arithmetic used by the algebraic
    theorems: a commutative semiring. *)
Record exact_arith (T : Type) `{Scalar T} : Prop := {
  ea_add_0_l : forall x : T, s_add s_zero x = x;
  ea_add_comm : forall x y : T, s_add x y = s_add y x;
  ea_add_assoc : forall x y z : T, s_add x (s_add y z) = s_add (s_add x y) z;
  ea_mul_0_l : forall x : T, s_mul s_zero x = s_zero;
  ea_mul_comm : forall x y : T, s_mul x y = s_mul y x;
  ea_mul_assoc : forall x y z : T, s_mul x (s_mul y z) = s_mul (s_mul x y) z;
  ea_distr_l : forall x y z : T,
      s_mul (s_add x y) z = s_add (s_mul x z) (s_mul y z)
}.

Arguments exact_arith T {H}.

(* ===================================================================== *)
(** ** ndarray: a shape and a C-ordered buffer *)
(* ===================================================================== *)

Record ndarray (T : Type) : Type := mk_nd {
  shape : list nat;
  data : list T
}.

Arguments mk_nd {T} shape data.

(** Number of elements of a shape. *)
Definition prod (sh : list nat) : nat := fold_right Nat.mul 1 sh.

(** A NumPy array always holds as many elements as its shape says. *)
Definition well_shaped {T} (a : ndarray T) : Prop :=
  length (data a) = prod (shape a).

Definition ndim {T} (a : ndarray T) : nat := length (shape a).

(** [tabulate n f] is the buffer [f 0; f 1; ...; f (n-1)]. *)
Definition tabulate {T} (n : nat) (f : nat -> T) : list T := map f (seq 0 n).

(** A 2-D array [r x c] whose entry [(i, j)] is [f i j]. *)
Definition tab2 {T} (r c : nat) (f : nat -> nat -> T) : list T :=
  tabulate (r * c) (fun k => f (k / c) (k mod c)).

(** C-order multi-index of a flat offset, and back. *)
Fixpoint unravel (sh : list nat) (k : nat) : list nat :=
  match sh with
  | [] => []
  | _ :: rest => (k / prod rest) :: unravel rest (k mod prod rest)
  end.

Fixpoint shape_eqb (s1 s2 : list nat) : bool :=
  match s1, s2 with
  | [], [] => true
  | d1 :: r1, d2 :: r2 => (d1 =? d2) && shape_eqb r1 r2
  | _, _ => false
  end.

Fixpoint ravel (sh idx : list nat) : nat :=
  match sh, idx with
  | _ :: rest, i :: idx' => i * prod rest + ravel rest idx'
  | _, _ => 0
  end.

Section Arrays.
Context {T : Type} `{Scalar T}.

(** Entry [(i, j)] of a buffer read as rows of length [c]. *)
Definition get_rc (c : nat) (a : ndarray T) (i j : nat) : T :=
  nth (i * c + j) (data a) s_zero.

Definition get_flat (a : ndarray T) (k : nat) : T := nth k (data a) s_zero.

(** [sum_upto n f] accumulates [f 0 + f 1 + ... + f (n-1)] from zero. *)
Fixpoint sum_upto (n : nat) (f : nat -> T) : T :=
  match n with
  | 0 => s_zero
  | S m => s_add (sum_upto m f) (f m)
  end.

Definition sum_list (l : list T) : T := fold_left s_add l s_zero.

(** *** Broadcasting *)

(** Common extent of one einsum label or of one broadcast axis: equal
    extents, or one of them is 1. *)
Definition blabel (d1 d2 : nat) : result nat :=
  if d1 =? d2 then Ok d1
  else if d1 =? 1 then Ok d2
  else if d2 =? 1 then Ok d1
  else Raise ValueError.

(** Index into an axis of extent [d] that may be broadcast. *)
Definition bidx (d i : nat) : nat := if d =? 1 then 0 else i.

(** Shapes are aligned from the last axis ([broadcast_rev] works on the
    reversed shapes). *)
Fixpoint broadcast_rev (s1 s2 : list nat) : result (list nat) :=
  match s1, s2 with
  | [], _ => Ok s2
  | _, [] => Ok s1
  | d1 :: r1, d2 :: r2 =>
      d <- blabel d1 d2 ;;
      r <- broadcast_rev r1 r2 ;;
      Ok (d :: r)
  end.

Definition broadcast_shapes (s1 s2 : list nat) : result (list nat) :=
  r <- broadcast_rev (rev s1) (rev s2) ;; Ok (rev r).

(** Offset in an operand of shape [sh] of the element that takes part in
    position [idx] of the broadcast result. *)
Definition bcast_offset (sh idx : list nat) : nat :=
  let idx' := skipn (length idx - length sh) idx in
  ravel sh (map (fun p => bidx (fst p) (snd p)) (combine sh idx')).

(** Elementwise binary operation with NumPy broadcasting. *)
Definition zip_with (op : T -> T -> T) (a b : ndarray T)
  : result (ndarray T) :=
  sh <- broadcast_shapes (shape a) (shape b) ;;
  Ok (mk_nd sh
        (tabulate (prod sh) (fun k =>
           let idx := unravel sh k in
           op (get_flat a (bcast_offset (shape a) idx))
              (get_flat b (bcast_offset (shape b) idx))))).

Definition nd_add := zip_with s_add.
Definition nd_sub := zip_with s_sub.
Definition nd_mul := zip_with s_mul.
Definition nd_div := zip_with s_div.

(** [c * a] and [a + c] for a Python scalar [c]. *)
Definition nd_map (f : T -> T) (a : ndarray T) : ndarray T :=
  mk_nd (shape a) (map f (data a)).

Definition scale (c : T) (a : ndarray T) : ndarray T := nd_map (s_mul c) a.

(** [a.T]: the axes reversed. *)
Definition transpose (a : ndarray T) : ndarray T :=
  match shape a with
  | [r; c] => mk_nd [c; r] (tab2 c r (fun j i => get_rc c a i j))
  | sh =>
      mk_nd (rev sh)
        (tabulate (prod sh) (fun k =>
           get_flat a (ravel sh (rev (unravel (rev sh) k)))))
  end.

(** *** The einsum contractions of the source

    One contraction is modelled by its meaning: the output entry is the
    sum, over the labels that do not appear in the output and in index
    order, of the product of the operand entries.  A label shared by two
    operands must have the same extent in both, or extent 1 in one of
    them (which is then broadcast).  Where the source passes an
    [optimize=] path of several steps, NumPy contracts the operands pair
    by pair in the order of the path; the path is modelled by
    [contraction_order] and computed by [einsum_path_optimal] below.
    Every product and every addition is rounded on its own; a build of
    NumPy that hands a contraction to a fused or blocked kernel can round
    a long sum differently. *)

(** ["ij,jk->ik"] *)
Definition einsum_ij_jk_ik (a b : ndarray T) : result (ndarray T) :=
  match shape a, shape b with
  | [ni; j1], [j2; nk] =>
      nj <- blabel j1 j2 ;;
      Ok (mk_nd [ni; nk]
            (tab2 ni nk (fun i k =>
               sum_upto nj (fun j =>
                 s_mul (get_rc j1 a i (bidx j1 j))
                       (get_rc nk b (bidx j2 j) k)))))
  | _, _ => Raise ValueError
  end.

(** ["ij,j...->i..."]: the axes of [x] after the first are carried over;
    [nl] is their combined extent. *)
Definition einsum_ij_jE_iE (a x : ndarray T) : result (ndarray T) :=
  match shape a, shape x with
  | [ni; j1], j2 :: rest =>
      nj <- blabel j1 j2 ;;
      let nl := prod rest in
      Ok (mk_nd (ni :: rest)
            (tab2 ni nl (fun i l =>
               sum_upto nj (fun j =>
                 s_mul (get_rc j1 a i (bidx j1 j))
                       (get_rc nl x (bidx j2 j) l)))))
  | _, _ => Raise ValueError
  end.

(** The contraction orders [np.einsum_path] can return for the three
    operands [a], [b], [x] of ["ij,jk,k...->i..."]: the paths
    [[(0, 1), (0, 1)]] ([a] with [b], then the result with [x]),
    [[(0, 2), (0, 1)]] ([a] with [x], then the result with [b]),
    [[(1, 2), (0, 1)]] ([b] with [x], then [a] with the result), and the
    single contraction [[(0, 1, 2)]]. *)
Inductive contraction_order : Type :=
| ab_first
| ax_first
| bx_first
| all_at_once.

(** The first of the cheapest candidates, as Python's [min] returns
    it. *)
Fixpoint cheapest (l : list (nat * contraction_order))
  : option (nat * contraction_order) :=
  match l with
  | [] => None
  | c :: rest =>
      match cheapest rest with
      | Some d => if fst d <? fst c then Some d else Some c
      | None => Some c
      end
  end.

(** [np.einsum_path("ij,jk,k->i", a, b, x, optimize="optimal")[0]] for
    operands of extents [ni x nj], [nj x nk] and [nk]: the exhaustive
    search over the three first pairs, in the order [(0, 1)], [(0, 2)],
    [(1, 2)].  A pair is kept when its intermediate result is not larger
    than the largest operand or the output; a contraction costs the
    product of the extents it touches, times two when it sums a label
    away.  The second step always contracts the two operands that are
    left into the output [i]. *)
Definition einsum_path_optimal (ni nj nk : nat) : contraction_order :=
  let memory_limit :=
    Nat.max (Nat.max (ni * nj) (nj * nk)) (Nat.max nk ni) in
  let all := ni * nj * nk in
  let candidates :=
    [ (ni * nk, (2 * all + 2 * (ni * nk), ab_first));
      (all, (1 * all + 2 * all, ax_first));
      (nj, (2 * (nj * nk) + 2 * (ni * nj), bx_first)) ] in
  match cheapest
          (map snd (filter (fun c => fst c <=? memory_limit) candidates))
  with
  | Some c => snd c
  | None => all_at_once
  end.

(** ["ij,k...->ijk..."] followed by ["ijk...,jk->i..."]: the outer
    product of [a] and [x], contracted with [b].  [einsum_path_optimal]
    returns this order only when [nj <= 1]. *)
Definition einsum_outer_then_jk (a b x : ndarray T)
  : result (ndarray T) :=
  match shape a, shape b, shape x with
  | [ni; j1], [j2; k1], k2 :: rest =>
      nj <- blabel j1 j2 ;;
      nk <- blabel k1 k2 ;;
      let nl := prod rest in
      Ok (mk_nd (ni :: rest)
            (tab2 ni nl (fun i l =>
               sum_upto nj (fun j =>
                 sum_upto nk (fun k =>
                   s_mul (s_mul (get_rc j1 a i (bidx j1 j))
                                (get_rc nl x (bidx k2 k) l))
                         (get_rc k1 b (bidx j2 j) (bidx k1 k)))))))
  | _, _, _ => Raise ValueError
  end.

(** ["ij,jk,k...->i..."] as one contraction of the three operands. *)
Definition einsum_all_at_once (a b x : ndarray T) : result (ndarray T) :=
  match shape a, shape b, shape x with
  | [ni; j1], [j2; k1], k2 :: rest =>
      nj <- blabel j1 j2 ;;
      nk <- blabel k1 k2 ;;
      let nl := prod rest in
      Ok (mk_nd (ni :: rest)
            (tab2 ni nl (fun i l =>
               sum_upto nj (fun j =>
                 sum_upto nk (fun k =>
                   s_mul (s_mul (get_rc j1 a i (bidx j1 j))
                                (get_rc k1 b (bidx j2 j) (bidx k1 k)))
                         (get_rc nl x (bidx k2 k) l))))))
  | _, _, _ => Raise ValueError
  end.

(** [np.einsum("ij,jk,k...->i...", a, b, x, optimize=path)]: the
    operands are contracted pair by pair in the order of [path], each
    intermediate result rounded as an array of its own. *)
Definition einsum_ij_jk_kE_iE (path : contraction_order)
    (a b x : ndarray T) : result (ndarray T) :=
  match path with
  | ab_first => ab <- einsum_ij_jk_ik a b ;; einsum_ij_jE_iE ab x
  | ax_first => einsum_outer_then_jk a b x
  | bx_first => bx <- einsum_ij_jE_iE b x ;; einsum_ij_jE_iE a bx
  | all_at_once => einsum_all_at_once a b x
  end.

(** ["jk,ik,jk->ij"]: the products are taken in the order of the
    operands. *)
Definition einsum_jk_ik_jk_ij (r a xy : ndarray T) : result (ndarray T) :=
  match shape r, shape a, shape xy with
  | [j1; k1], [ni; k2], [j2; k3] =>
      nj <- blabel j1 j2 ;;
      k12 <- blabel k1 k2 ;;
      nk <- blabel k12 k3 ;;
      Ok (mk_nd [ni; nj]
            (tab2 ni nj (fun i j =>
               sum_upto nk (fun k =>
                 s_mul (s_mul (get_rc k1 r (bidx j1 j) (bidx k1 k))
                              (get_rc k2 a i (bidx k2 k)))
                       (get_rc k3 xy (bidx j2 j) (bidx k3 k))))))
  | _, _, _ => Raise ValueError
  end.

(** [a.reshape(newshape)] *)
Definition reshape {U : Type} (a : ndarray U) (newshape : list nat)
  : result (ndarray U) :=
  if prod newshape =? prod (shape a) then Ok (mk_nd newshape (data a))
  else Raise ValueError.

(** [a @ v] for a 2-D [a] and a 1-D [v]: the core dimensions must agree
    exactly (matmul does not broadcast them). *)
Definition matvec (a v : ndarray T) : result (ndarray T) :=
  match shape a, shape v with
  | [ni; j1], [j2] =>
      if j1 =? j2 then
        Ok (mk_nd [ni]
              (tabulate ni (fun i =>
                 sum_upto j1 (fun j =>
                   s_mul (get_rc j1 a i j) (get_flat v j)))))
      else Raise ValueError
  | _, _ => Raise ValueError
  end.

End Arrays.

(* ===================================================================== *)
(** ** What the simulator takes from outside *)
(* ===================================================================== *)

(** Library calls whose code is not part of the repository.  Each is taken
    as a parameter with the shape contract of its library:
    - [default_rng seed] and one draw of [Generator.normal] (an array draw
      of [n] values is [n] successive draws);
    - [eigh_sym n buf]: [np.linalg.eigh] on an [n x n] buffer, giving the
      [n] eigenvalues in ascending order and the [n x n] buffer whose
      columns are the eigenvectors;
    - [phase_covariance]: the kernel of [aocov.phase_covariance_xyxy] for
      one output point and one input point, with [r0] and [L0]. *)
Class Externals (T : Type) : Type := {
  Gen : Type;
  default_rng : Z -> Gen;
  standard_normal : Gen -> T * Gen;
  eigh_sym : nat -> list T -> list T * list T;
  phase_covariance : T -> T -> T -> T -> T -> T -> T
}.

(** Module-level names that the classes read without [self.]: they exist
    only when the file runs as a script ([None] is an unbound name). *)
Record globals : Type := {
  g_pup_width : option nat;
  g_pupil : option (ndarray bool)
}.

(** Three successive readings of [time.time()]. *)
Record clock (T : Type) : Type := { t1 : T; t2 : T; t3 : T }.

Section Library.
Context {T : Type} `{Scalar T} `{Externals T}.

(** [rng.normal(size=n)] on a flat count. *)
Fixpoint normal_list (n : nat) (g : Gen) : list T * Gen :=
  match n with
  | 0 => ([], g)
  | S m =>
      let (v, g1) := standard_normal g in
      let (vs, g2) := normal_list m g1 in
      (v :: vs, g2)
  end.

(** [rng.normal(size=size)] *)
Definition normal (g : Gen) (size : list nat) : ndarray T * Gen :=
  let (vs, g') := normal_list (prod size) g in (mk_nd size vs, g').

(** [np.linalg.eigh(m)] *)
Definition eigh (m : ndarray T) : result (ndarray T * ndarray T) :=
  match shape m with
  | [r; c] =>
      if r =? c then
        let (w, v) := eigh_sym r (data m) in
        Ok (mk_nd [r] w, mk_nd [r; r] v)
      else Raise LinAlgError
  | _ => Raise LinAlgError
  end.

(** [aocov.phase_covariance_xyxy(x_out, y_out, x_in, y_in, r0, L0)] on
    1-D coordinate arrays: one row per output point, one column per input
    point. *)
Definition phase_covariance_xyxy (x_out y_out x_in y_in : ndarray T)
    (r0 L0 : T) : ndarray T :=
  let n_out := prod (shape x_out) in
  let n_in := prod (shape x_in) in
  mk_nd [n_out; n_in]
    (tab2 n_out n_in (fun i j =>
       phase_covariance (get_flat x_out i) (get_flat y_out i)
                        (get_flat x_in j) (get_flat y_in j) r0 L0)).

(** Python indexing [a[i]] of a sequence of length [n] with a possibly
    negative integer. *)
Definition py_index (n : nat) (i : Z) : result nat :=
  if (0 <=? i)%Z && (i <? Z.of_nat n)%Z then Ok (Z.to_nat i)
  else if (i <? 0)%Z && (- Z.of_nat n <=? i)%Z then Ok (Z.to_nat (Z.of_nat n + i))
  else Raise IndexError.

(** [a[mask]] for a boolean [mask] covering the leading axes of [a]. *)
Definition mask_select {U : Type} (a : ndarray U) (mask : ndarray bool)
  : result (ndarray U) :=
  let k := length (shape mask) in
  if (k <=? length (shape a))
     && shape_eqb (firstn k (shape a)) (shape mask)
  then
    let rest := skipn k (shape a) in
    let nl := prod rest in
    let sel := filter (fun i => nth i (data mask) false)
                      (seq 0 (prod (shape mask))) in
    Ok (mk_nd (length sel :: rest)
          (flat_map (fun i => firstn nl (skipn (i * nl) (data a))) sel))
  else Raise IndexError.

End Library.

(* ===================================================================== *)
(** ** class PhaseScreen *)
(* ===================================================================== *)

Module PhaseScreen.
Section Model.
Context {T : Type} `{Scalar T} `{Externals T}.

(** *** class StateMatrix *)

(** Which bound method [self.dot] holds. *)
Inductive strategy : Type := Classic | Factored.

Record StateMatrix : Type := {
  ML : ndarray T;
  LT : ndarray T;
  A : ndarray T;
  es_path_factored : contraction_order;
  selected : strategy
}.

Definition with_selected (s : strategy) (sm : StateMatrix) : StateMatrix :=
  {| ML := ML sm; LT := LT sm; A := A sm;
     es_path_factored := es_path_factored sm; selected := s |}.

Definition dot_classic (self : StateMatrix) (x : ndarray T)
  : result (ndarray T) :=
  einsum_ij_jE_iE (A self) x.

Definition dot_factored (self : StateMatrix) (x : ndarray T)
  : result (ndarray T) :=
  einsum_ij_jk_kE_iE (es_path_factored self) (ML self) (LT self) x.

(** [self.dot(x)] *)
Definition dot (self : StateMatrix) (x : ndarray T) : result (ndarray T) :=
  match selected self with
  | Classic => dot_classic self x
  | Factored => dot_factored self x
  end.

(** [a.shape[i]] *)
Definition shape_at {U} (a : ndarray U) (i : nat) : result nat :=
  match nth_error (shape a) i with
  | Some d => Ok d
  | None => Raise IndexError
  end.

Record timings : Type := { classic : T; factored : T }.

(** [test_speed]: the benchmark draws from a generator of its own, runs
    both products and returns the two mean times.  The printing is not
    modelled. *)
Definition test_speed (self : StateMatrix) (ntests : nat) (seed : Z)
    (clk : clock T) : result timings :=
  let rng := default_rng seed in
  n <- shape_at (A self) 1 ;;
  let x := fst (normal rng [n; ntests]) in
  _ <- dot_factored self x ;;
  _ <- dot_classic self x ;;
  if ntests =? 0 then Raise ZeroDivisionError
  else
    Ok {| classic := s_div (s_sub (t3 clk) (t2 clk)) (s_of_Z (Z.of_nat ntests));
          factored := s_div (s_sub (t2 clk) (t1 clk)) (s_of_Z (Z.of_nat ntests)) |}.

(** [np.einsum_path("ij,jk,k...->i...", ml, lt, x, optimize="optimal")]
    for a 1-D [x]: the extents of the labels are checked, then the order
    is searched. *)
Definition einsum_path_factored (ml lt x : ndarray T)
  : result contraction_order :=
  match shape ml, shape lt, shape x with
  | [ni; j1], [j2; k1], [k2] =>
      nj <- blabel j1 j2 ;;
      nk <- blabel k1 k2 ;;
      Ok (einsum_path_optimal ni nj nk)
  | _, _, _ => Raise ValueError
  end.

(** [StateMatrix.__init__(cov_yx, inv_factor_xx)].  The path of the
    factored product is planned once, on [x = np.ones(A.shape[1])], and
    kept; [dot_factored] follows it on every operand.  The path of the
    classic product has one step, whatever the extents (two operands),
    and is not kept here. *)
Definition StateMatrix_init (cov_yx inv_factor_xx : ndarray T)
    (clk : clock T) : result StateMatrix :=
  ml <- einsum_ij_jk_ik cov_yx inv_factor_xx ;;
  let lt := transpose inv_factor_xx in
  a <- einsum_ij_jk_ik ml lt ;;
  n <- shape_at a 1 ;;
  let x := mk_nd [n] (tabulate n (fun _ => s_one)) in
  path <- einsum_path_factored ml lt x ;;
  let self := {| ML := ml; LT := lt; A := a;
                 es_path_factored := path; selected := Classic |} in
  res <- test_speed self 10 1 clk ;;
  if s_ltb (factored res) (classic res)
  then Ok (with_selected Factored self)   (* classic was slower *)
  else Ok (with_selected Classic self).   (* factored was slower *)

(** *** The fields of a PhaseScreen *)

Record obj : Type := {
  pupil : ndarray bool;
  r0 : T;
  L0 : T;
  diam : T;
  laminar : T;
  wind : ndarray T;
  ittime : T;
  pixsize : option T;
  thresh : T;
  xx_max : option Z;
  vv_max : option Z;
  factor_xx : option (ndarray T);
  factor_vv : option (ndarray T);
  x : option (ndarray T);
  seed : Z;
  rng : option Gen;
  state_matrix : option StateMatrix
}.

(** [_covariance(x_in, y_in, x_out, y_out)] *)
Definition _covariance (self : obj) (x_in y_in x_out y_out : ndarray T)
  : ndarray T :=
  let c := s_div (s_div s_one (s_of_Z 2)) (s_mul s_pi (s_of_Z 2)) in
  scale (s_mul c c)
    (phase_covariance_xyxy x_out y_out x_in y_in (r0 self) (L0 self)).

(** The order NumPy sorts by: [a < b], with NaN (a value that is not
    [<=] itself) after every other value. *)
Definition sort_lt (a b : T) : bool :=
  s_ltb a b || (negb (s_leb b b) && s_leb a a).

(** Insertion of index [i] into a list of indices sorted by value. *)
Fixpoint insert_by (vals : ndarray T) (i : nat) (l : list nat) : list nat :=
  match l with
  | [] => [i]
  | j :: l' =>
      if sort_lt (get_flat vals i) (get_flat vals j) then i :: j :: l'
      else j :: insert_by vals i l'
  end.

(** [vals.argsort()]: the indices of a 1-D array in ascending order of
    value, NaN last. *)
Definition argsort (vals : ndarray T) : list nat :=
  fold_left (fun acc i => insert_by vals i acc)
            (seq 0 (prod (shape vals))) [].

(** [vecs[:, valid]] for a 2-D [vecs] and a 1-D boolean [valid]. *)
Definition select_cols (vecs : ndarray T) (valid : ndarray bool)
  : result (ndarray T) :=
  match shape vecs, shape valid with
  | [r; c], [c'] =>
      if c =? c' then
        let sel := filter (fun j => nth j (data valid) false) (seq 0 c) in
        Ok (mk_nd [r; length sel]
              (flat_map (fun i => map (fun j => get_rc c vecs i j) sel)
                        (seq 0 r)))
      else Raise IndexError
  | _, _ => Raise IndexError
  end.

(** [a[None, :]] for a 1-D [a]. *)
Definition row_vector (a : ndarray T) : ndarray T :=
  mk_nd (1 :: shape a) (data a).

(** The mask [valid] of [_factorh]: [vals > self.thresh] when [n_modes]
    is [None], else [vals >= vals[vals.argsort()[-n_modes]]]. *)
Definition valid_modes (self : obj) (vals : ndarray T)
    (n_modes : option Z) : result (ndarray bool) :=
  match n_modes with
  | None =>
      Ok (mk_nd (shape vals)
            (map (fun v => s_ltb (thresh self) v) (data vals)))
  | Some n =>
      let order := argsort vals in
      k <- py_index (length order) (- n) ;;
      let pivot := get_flat vals (nth k order 0) in
      Ok (mk_nd (shape vals)
            (map (fun v => s_leb pivot v) (data vals)))
  end.

(** [_factorh(symmetric_matrix, n_modes)] *)
Definition _factorh (self : obj) (symmetric_matrix : ndarray T)
    (n_modes : option Z) : result (ndarray T * ndarray T) :=
  '(vals, vecs) <- eigh symmetric_matrix ;;
  valid <- valid_modes self vals n_modes ;;
  vecs' <- select_cols vecs valid ;;
  vals' <- mask_select vals valid ;;
  factor <- nd_mul vecs' (row_vector (nd_map s_sqrt vals')) ;;
  inv_factor <-
    nd_mul vecs'
      (row_vector (nd_map s_sqrt (nd_map (s_div s_one) vals'))) ;;
  Ok (factor, inv_factor).

(** [np.mgrid[:w, :w] * pixsize]: the row and the column coordinate of
    every grid point. *)
Definition mgrid_scaled (w : nat) (pixsize : T) : ndarray T * ndarray T :=
  (mk_nd [w; w] (tab2 w w (fun i _ => s_mul (s_of_Z (Z.of_nat i)) pixsize)),
   mk_nd [w; w] (tab2 w w (fun _ j => s_mul (s_of_Z (Z.of_nat j)) pixsize))).

(** [sigma_xx - state_matrix.dot(state_matrix.dot(sigma_xx).T).T], the
    right-hand side of the assignment to [sigma_vv] in [__init__]. *)
Definition innovation_covariance (sm : StateMatrix) (sigma_xx : ndarray T)
  : result (ndarray T) :=
  d1 <- dot sm sigma_xx ;;
  d2 <- dot sm (transpose d1) ;;
  nd_sub sigma_xx (transpose d2).

(** [PhaseScreen.__init__]: [self] holds the fields as given by the
    caller; every derived field is overwritten. *)
Definition __init__ (g : globals) (clk : clock T) (self : obj)
  : result obj :=
  let rng0 := default_rng (seed self) in
  d0 <- shape_at (pupil self) 0 ;;
  pix <- (if d0 =? 0 then Raise ZeroDivisionError
          else Ok (s_div (diam self) (s_of_Z (Z.of_nat d0)))) ;;
  pup_width <- require (g_pup_width g) NameError ;;
  let '(yy, xx) := mgrid_scaled pup_width pix in
  yy <- mask_select yy (pupil self) ;;
  xx <- mask_select xx (pupil self) ;;
  let sigma_xx := _covariance self xx yy xx yy in
  '(fxx, inv_factor_xx) <- _factorh self sigma_xx (xx_max self) ;;
  w0 <- (if 0 <? prod (shape (wind self)) then Ok (get_flat (wind self) 0)
         else Raise IndexError) ;;
  w1 <- (if 1 <? prod (shape (wind self)) then Ok (get_flat (wind self) 1)
         else Raise IndexError) ;;
  let sigma_yx :=
    scale (laminar self)
      (_covariance self
         (nd_map (fun v => s_add v (s_mul w0 (ittime self))) xx)
         (nd_map (fun v => s_add v (s_mul w1 (ittime self))) yy)
         xx yy) in
  sm <- StateMatrix_init sigma_yx inv_factor_xx clk ;;
  sigma_vv <- innovation_covariance sm sigma_xx ;;
  '(fvv, _) <- _factorh self sigma_vv (vv_max self) ;;
  k <- shape_at fxx 1 ;;
  let '(z, rng1) := normal rng0 [k] in
  x0 <- matvec fxx z ;;
  Ok {| pupil := pupil self; r0 := r0 self; L0 := L0 self;
        diam := diam self; laminar := laminar self; wind := wind self;
        ittime := ittime self; pixsize := Some pix; thresh := thresh self;
        xx_max := xx_max self; vv_max := vv_max self;
        factor_xx := Some fxx; factor_vv := Some fvv; x := Some x0;
        seed := seed self; rng := Some rng1; state_matrix := Some sm |}.

(** [step()] *)
Definition step (self : obj) : result obj :=
  fvv <- require (factor_vv self) AttributeError ;;
  m <- shape_at fvv 1 ;;
  g0 <- require (rng self) AttributeError ;;
  let '(v, g1) := normal g0 [m] in
  sm <- require (state_matrix self) AttributeError ;;
  x0 <- require (x self) AttributeError ;;
  ax <- dot sm x0 ;;
  fv <- matvec fvv v ;;
  x1 <- nd_add ax fv ;;
  Ok {| pupil := pupil self; r0 := r0 self; L0 := L0 self;
        diam := diam self; laminar := laminar self; wind := wind self;
        ittime := ittime self; pixsize := pixsize self;
        thresh := thresh self; xx_max := xx_max self;
        vv_max := vv_max self; factor_xx := factor_xx self;
        factor_vv := factor_vv self; x := Some x1; seed := seed self;
        rng := Some g1; state_matrix := state_matrix self |}.

(** [n] successive calls of [step()]. *)
Fixpoint steps (n : nat) (self : obj) : result obj :=
  match n with
  | 0 => Ok self
  | S m => s <- step self ;; steps m s
  end.

End Model.

Arguments StateMatrix T : clear implicits.
Arguments obj T {H0}.

End PhaseScreen.

(* ===================================================================== *)
(** ** Scalar instances *)
(* ===================================================================== *)

(** *** np.float64: IEEE-754 binary64 with round-to-nearest-even *)

Module Float64.

Definition prec : Z := 53.
Definition emax : Z := 1024.

Definition of_Z (z : Z) : spec_float := binary_normalize prec emax z 0 false.

(** The double nearest to pi, 0x400921FB54442D18. *)
Definition pi : spec_float := S754_finite false 7074237752028440 (-51).

Definition zero : spec_float := S754_zero false.
Definition one : spec_float := of_Z 1.
Definition nan : spec_float := S754_nan.
Definition inf : spec_float := S754_infinity false.

Definition is_nan (v : spec_float) : bool :=
  match v with S754_nan => true | _ => false end.

Definition is_zero (v : spec_float) : bool :=
  match v with S754_zero _ => true | _ => false end.

Definition zero_or_nan (v : spec_float) : bool :=
  is_zero v || is_nan v.

(** [np.isfinite] *)
Definition is_finite (v : spec_float) : bool :=
  match v with
  | S754_zero _ | S754_finite _ _ _ => true
  | S754_infinity _ | S754_nan => false
  end.

(** [x.astype(np.float32)] on one element: rounding to binary32. *)
Definition to_float32 (v : spec_float) : spec_float :=
  match v with
  | S754_finite s m e => binary_normalize 24 128 (cond_Zopp s (Zpos m)) e s
  | _ => v
  end.

End Float64.

(** The array power [a ** 0.5] is NumPy's square root ufunc. *)
#[export] Instance float64 : Scalar spec_float := {|
  s_zero := Float64.zero;
  s_one := Float64.one;
  s_add := SFadd Float64.prec Float64.emax;
  s_sub := SFsub Float64.prec Float64.emax;
  s_mul := SFmul Float64.prec Float64.emax;
  s_div := SFdiv Float64.prec Float64.emax;
  s_sqrt := SFsqrt Float64.prec Float64.emax;
  s_ltb := SFltb;
  s_leb := SFleb;
  s_of_Z := Float64.of_Z;
  s_pi := Float64.pi
|}.

(** *** Exact integers

    An instance that obeys [exact_arith], on which the algebraic theorems
    can be run.  Division and square root round down and [s_pi] is 3. *)
Definition exactZ : Scalar Z := {|
  s_zero := 0%Z;
  s_one := 1%Z;
  s_add := Z.add;
  s_sub := Z.sub;
  s_mul := Z.mul;
  s_div := Z.div;
  s_sqrt := Z.sqrt;
  s_ltb := Z.ltb;
  s_leb := Z.leb;
  s_of_Z := fun z => z;
  s_pi := 3%Z
|}.

(** *** Stand-ins for the library calls, to run the model on small inputs

    The generator is a counter whose successive draws are [seed],
    [seed + 1], ...; [eigh_sym] is the eigen-decomposition of a diagonal
    matrix whose diagonal is already ascending (eigenvalues: the diagonal,
    eigenvectors: the identity), which is exact for every 1x1 matrix; the
    kernel is 1 for two points less than one unit apart in each coordinate
    and 0 otherwise, so that on a grid of spacing above 1 the covariance of
    the grid with itself, or with a slightly shifted copy, is the identity. *)
Definition toy_externals {T : Type} `{Scalar T} : Externals T := {|
  Gen := Z;
  default_rng := fun seed => seed;
  standard_normal := fun g => (s_of_Z g, (g + 1)%Z);
  eigh_sym := fun n buf =>
    (tabulate n (fun i => nth (i * n + i) buf s_zero),
     tab2 n n (fun i j => if i =? j then s_one else s_zero));
  phase_covariance := fun xo yo xi yi _ _ =>
    if s_ltb (s_sub xo xi) s_one && s_ltb (s_sub xi xo) s_one
       && s_ltb (s_sub yo yi) s_one && s_ltb (s_sub yi yo) s_one
    then s_one else s_zero
|}.

(* ===================================================================== *)
(** ** class ClassicCog (on float64 images) *)
(* ===================================================================== *)

Module ClassicCog.

(** The element type a result array is tagged with. *)
Inductive dtype : Type := dt_float64 | dt_float32.

Record typed_array : Type := {
  dt : dtype;
  arr : ndarray spec_float
}.

(** [a.astype(np.float32)] *)
Definition astype_float32 (a : ndarray spec_float) : typed_array :=
  {| dt := dt_float32; arr := nd_map Float64.to_float32 a |}.

(** What [np.einsum_path] returns for the three operands when no
    optimisation is requested: one contraction of all of them. *)
Inductive einsum_plan : Type := contract_all.

Record obj : Type := {
  npix : Z;
  r_mat : option (ndarray spec_float);
  xy_mat : option (ndarray spec_float);
  thresh : option spec_float;
  es_path : option einsum_plan
}.

(** The declared default of the field [thresh]: [0.0]. *)
Definition default_thresh : option spec_float := Some Float64.zero.

(** [ClassicCog(npix=n)] when [thresh_kw] is [None] (the keyword is not
    given), [ClassicCog(npix=n, thresh=t)] when it is [Some t]; the value
    [t] may itself be Python's [None]. *)
Definition new (n : Z) (thresh_kw : option (option spec_float)) : obj :=
  {| npix := n;
     r_mat := None;
     xy_mat := None;
     thresh := match thresh_kw with
               | Some t => t
               | None => default_thresh
               end;
     es_path := None |}.

(** [optimize_einsum(batch_size)]: [np.einsum_path] refuses an
    [optimize=] argument that is a previous result, then checks the
    extents of the operands. *)
Definition optimize_einsum (self : obj) (batch_size : nat) : result obj :=
  let n := Z.to_nat (npix self * npix self) in
  let intsty := mk_nd [batch_size; n]
                  (tabulate (batch_size * n) (fun _ => Float64.zero)) in
  match es_path self with
  | Some _ => Raise TypeError
  | None =>
      r <- require (r_mat self) ValueError ;;
      xy <- require (xy_mat self) ValueError ;;
      _ <- einsum_jk_ik_jk_ij r intsty xy ;;
      Ok {| npix := npix self; r_mat := r_mat self;
            xy_mat := xy_mat self; thresh := thresh self;
            es_path := Some contract_all |}
  end.

(** Entry [i] of [np.arange(npix) - npix/2 + 0.5]. *)
Definition x_span (n : Z) (i : nat) : spec_float :=
  s_add (s_sub (Float64.of_Z (Z.of_nat i))
               (s_div (Float64.of_Z n) (Float64.of_Z 2)))
        (s_div Float64.one (Float64.of_Z 2)).

(** [calibrate()]: row 0 of [xy_mat] is [xx.flatten()] (the column
    coordinate of each pixel), row 1 is [yy.flatten()] (its row
    coordinate); [r_mat] is all ones. *)
Definition calibrate (self : obj) : result obj :=
  let n := Z.to_nat (npix self) in
  let xy := mk_nd [2; n * n]
              (tab2 2 (n * n) (fun j k =>
                 if j =? 0 then x_span (npix self) (k mod n)
                 else x_span (npix self) (k / n))) in
  let r := mk_nd [2; n * n] (tab2 2 (n * n) (fun _ _ => Float64.one)) in
  optimize_einsum
    {| npix := npix self; r_mat := Some r; xy_mat := Some xy;
       thresh := thresh self; es_path := es_path self |} 1.

(** [intensity[None, ...]] when the input is 2-D. *)
Definition promote (intensity : ndarray spec_float) : ndarray spec_float :=
  if length (shape intensity) =? 2
  then mk_nd (1 :: shape intensity) (data intensity)
  else intensity.

(** One element through [intensity - thresh] and
    [intensity[intensity < 0] = 0.0]. *)
Definition clamp (t v : spec_float) : spec_float :=
  let d := s_sub v t in
  if SFltb d Float64.zero then Float64.zero else d.

(** The thresholding branch.  On a 0-d input the subtraction yields a
    NumPy scalar, which does not support item assignment. *)
Definition threshold (self : obj) (a : ndarray spec_float)
  : result (ndarray spec_float) :=
  match thresh self with
  | Some t =>
      match shape a with
      | [] => Raise TypeError
      | _ => Ok (nd_map (clamp t) a)
      end
  | None => Ok a
  end.

(** [intensity.reshape(intensity.shape[0], np.prod(intensity.shape[1:]))]:
    the product of an empty tuple is the float [1.0], which [reshape]
    refuses. *)
Definition flatten_images (a : ndarray spec_float)
  : result (ndarray spec_float) :=
  match shape a with
  | [] => Raise IndexError
  | [_] => Raise TypeError
  | n0 :: rest => Ok (mk_nd [n0; prod rest] (data a))
  end.

(** *** [np.sum] of float64 elements

    Along a contiguous run NumPy adds pairwise: fewer than 8 elements
    are added one by one, starting from [-0.0]; up to 128 elements are
    added into 8 partial sums, element [i] into partial sum [i mod 8],
    the partial sums are combined as
    [((r0+r1)+(r2+r3))+((r4+r5)+(r6+r7))] and the elements after the last
    full group of 8 are then added one by one; a longer run is split at
    half its length, rounded down to a multiple of 8, and the sums of the
    two parts are added. *)

Definition neg_zero : spec_float := S754_zero true.

(** [acc + f off + f (off+1) + ... + f (off+n-1)], from the left. *)
Fixpoint add_run (f : nat -> spec_float) (off n : nat) (acc : spec_float)
  : spec_float :=
  match n with
  | 0 => acc
  | S n' => add_run f (S off) n' (s_add acc (f off))
  end.

(** [acc + f start + f (start+8) + ...], [blocks] terms. *)
Fixpoint add_stride8 (f : nat -> spec_float) (start blocks : nat)
    (acc : spec_float) : spec_float :=
  match blocks with
  | 0 => acc
  | S b => add_stride8 f (start + 8) b (s_add acc (f start))
  end.

(** A run of 8 to 128 elements. *)
Definition block_sum (f : nat -> spec_float) (off n : nat) : spec_float :=
  let r := fun j =>
    add_stride8 f (off + 8 + j) (n / 8 - 1) (f (off + j)) in
  let res := s_add (s_add (s_add (r 0) (r 1)) (s_add (r 2) (r 3)))
                   (s_add (s_add (r 4) (r 5)) (s_add (r 6) (r 7))) in
  add_run f (off + 8 * (n / 8)) (n mod 8) res.

(** The pairwise sum of [f off, ..., f (off+n-1)].  [fuel] bounds the
    depth of the splitting; both parts of a run of more than 128 elements
    are shorter than the run, so [n] is always enough. *)
Fixpoint pairwise_sum (fuel : nat) (f : nat -> spec_float) (off n : nat)
  : spec_float :=
  if n <? 8 then add_run f off n neg_zero
  else if n <=? 128 then block_sum f off n
  else
    match fuel with
    | 0 => block_sum f off n
    | S fuel' =>
        let n2 := n / 2 - (n / 2) mod 8 in
        s_add (pairwise_sum fuel' f off n2)
              (pairwise_sum fuel' f (off + n2) (n - n2))
    end.

(** The sum over a contiguous run of [n] elements: the reduction starts
    from [-0.0] and adds the pairwise sum of the run; an empty reduction
    returns [0.0]. *)
Definition np_sum (n : nat) (f : nat -> spec_float) : spec_float :=
  if n =? 0 then Float64.zero
  else s_add neg_zero (pairwise_sum n f 0 n).

(** The sum over [n] elements that do not lie next to each other: they
    are added one by one. *)
Definition np_sum_strided (n : nat) (f : nat -> spec_float) : spec_float :=
  if n =? 0 then Float64.zero else add_run f 0 n neg_zero.

(** [np.sum(intensity, axis=(1,2))[:, None]]: for a batch
    [n0 x h x w x ...] the sums over the two image axes, with a new
    second axis of extent 1.  The pixels of one image of a 3-D batch are
    contiguous and are added pairwise; with further axes the pixels that
    are added lie apart and are added in index order. *)
Definition sum_images (a : ndarray spec_float)
  : result (ndarray spec_float) :=
  match shape a with
  | n0 :: h :: w :: rest =>
      let nr := prod rest in
      Ok (mk_nd (n0 :: 1 :: rest)
            (tab2 n0 nr (fun i r =>
               let px := fun q => get_flat a ((i * (h * w) + q) * nr + r) in
               if nr =? 1 then np_sum (h * w) px
               else np_sum_strided (h * w) px)))
  | _ => Raise AxisError
  end.

(** [cog(intensity)] *)
Definition cog (self : obj) (intensity : ndarray spec_float)
  : result typed_array :=
  let intensity := promote intensity in
  intensity <- threshold self intensity ;;
  flat <- flatten_images intensity ;;
  _ <- require (es_path self) TypeError ;;
  r <- require (r_mat self) ValueError ;;
  xy <- require (xy_mat self) ValueError ;;
  num <- einsum_jk_ik_jk_ij r flat xy ;;
  den <- sum_images intensity ;;
  q <- nd_div num den ;;
  Ok (astype_float32 q).

End ClassicCog.

(* ===================================================================== *)
(** ** class SHWFS *)
(* ===================================================================== *)

(** The trigonometric functions behind [np.exp] of an imaginary number and
    behind [np.fft.fft]. *)
Class Trig (T : Type) : Type := {
  s_cos : T -> T;
  s_sin : T -> T
}.

Module SHWFS.
Section Model.
Context {T : Type} `{Scalar T} `{Trig T}.

(** complex128 *)
Record complex : Type := { re : T; im : T }.

Definition c_zero : complex := {| re := s_zero; im := s_zero |}.

Definition c_add (a b : complex) : complex :=
  {| re := s_add (re a) (re b); im := s_add (im a) (im b) |}.

Definition c_mul (a b : complex) : complex :=
  {| re := s_sub (s_mul (re a) (re b)) (s_mul (im a) (im b));
     im := s_add (s_mul (re a) (im b)) (s_mul (im a) (re b)) |}.

(** [exp(1j * theta)] *)
Definition cis (theta : T) : complex :=
  {| re := s_cos theta; im := s_sin theta |}.

(** [np.abs(z)**2] *)
Definition abs2 (z : complex) : T :=
  let a := s_sqrt (s_add (s_mul (re z) (re z)) (s_mul (im z) (im z))) in
  s_mul a a.

(** One element of [pupil.astype(np.complex128)]. *)
Definition c_of_bool (b : bool) : complex :=
  {| re := if b then s_one else s_zero; im := s_zero |}.

Fixpoint c_sum_upto (n : nat) (f : nat -> complex) : complex :=
  match n with
  | 0 => c_zero
  | S m => c_add (c_sum_upto m f) (f m)
  end.

(** Elementwise product of two arrays with NumPy broadcasting. *)
Definition c_times (a b : ndarray complex) : result (ndarray complex) :=
  sh <- broadcast_shapes (shape a) (shape b) ;;
  Ok (mk_nd sh
        (tabulate (prod sh) (fun k =>
           let idx := unravel sh k in
           c_mul (nth (bcast_offset (shape a) idx) (data a) c_zero)
                 (nth (bcast_offset (shape b) idx) (data b) c_zero)))).

(** [a.swapaxes(1, 2)] *)
Definition swap12 {U : Type} (l : list U) : list U :=
  match l with
  | a :: b :: c :: rest => a :: c :: b :: rest
  | _ => l
  end.

Definition swapaxes_1_2 {U : Type} (d : U) (a : ndarray U)
  : result (ndarray U) :=
  if length (shape a) <? 3 then Raise AxisError
  else
    let sh := swap12 (shape a) in
    Ok (mk_nd sh
          (tabulate (prod sh) (fun k =>
             nth (ravel (shape a) (swap12 (unravel sh k))) (data a) d))).

(** ["ijq,pq->ijp"] *)
Definition einsum_ijq_pq_ijp (a b : ndarray complex)
  : result (ndarray complex) :=
  match shape a, shape b with
  | [n1; n2; q1], [np; q2] =>
      nq <- blabel q1 q2 ;;
      Ok (mk_nd [n1; n2; np]
            (tabulate (n1 * n2 * np) (fun k =>
               let ij := k / np in
               let p := k mod np in
               c_sum_upto nq (fun q =>
                 c_mul (nth (ij * q1 + bidx q1 q) (data a) c_zero)
                       (nth (p * q2 + bidx q2 q) (data b) c_zero)))))
  | _, _ => Raise ValueError
  end.

(** [np.einsum_path] plans the contraction of the batch with the kernel. *)
Inductive einsum_plan : Type := contract_pair.

Record obj : Type := {
  pupil : ndarray bool;
  nsubx : nat;
  fovx : nat;
  wavelength : T;
  dft2 : option (ndarray complex);
  slices : option (list nat);
  es_path : option einsum_plan;
  _im_subaps : option (ndarray T);
  _im_full : option (ndarray T);
  diam : T;
  padded_width : option nat
}.

(** The property [subwidth]: [self.pupil.shape[0] // self.nsubx]. *)
Definition subwidth (self : obj) : result nat :=
  match shape (pupil self) with
  | [] => Raise IndexError
  | d0 :: _ =>
      if nsubx self =? 0 then Raise ZeroDivisionError
      else Ok (d0 / nsubx self)
  end.

(** [np.fft.fft(np.eye(n), norm="ortho")]: entry [(j, k)] is
    [exp(-2 pi i j k / n) / sqrt(n)]. *)
Definition fft_eye_ortho (n : nat) : result (ndarray complex) :=
  if n =? 0 then Raise ValueError
  else
    let nf := s_of_Z (Z.of_nat n) in
    let scale := s_div s_one (s_sqrt nf) in
    Ok (mk_nd [n; n]
          (tab2 n n (fun j k =>
             let theta :=
               s_sub s_zero
                 (s_div (s_mul (s_mul s_pi (s_of_Z 2))
                               (s_of_Z (Z.of_nat (j * k)))) nf) in
             {| re := s_mul scale (s_cos theta);
                im := s_mul scale (s_sin theta) |}))).

(** [np.fft.fftshift(a, axes=[0])] of a 2-D array: the rows rolled by
    half their number. *)
Definition fftshift_rows (a : ndarray complex) (n c : nat)
  : ndarray complex :=
  mk_nd [n; c]
    (tab2 n c (fun i j =>
       nth (((i + (n - n / 2)) mod n) * c + j) (data a) c_zero)).

(** The 1-D kernel of [__init__]: the first [sw] columns of the shifted
    DFT matrix, each multiplied by
    [exp(-1j*pi*2*c/padded_width/2)], cropped to the rows
    [padded//2 - fovx//2 : padded//2 + fovx//2] when [fovx < padded]. *)
Definition kernel_1d (sw fov padded : nat) : result (ndarray complex) :=
  f <- fft_eye_ortho padded ;;
  let shifted := fftshift_rows f padded padded in
  let phase (c : nat) :=
    cis (s_sub s_zero
           (s_div (s_div (s_mul (s_mul s_pi (s_of_Z 2))
                                (s_of_Z (Z.of_nat c)))
                         (s_of_Z (Z.of_nat padded)))
                  (s_of_Z 2))) in
  let entry (i c : nat) :=
    c_mul (nth (i * padded + c) (data shifted) c_zero) (phase c) in
  if fov <? padded then
    let lo := padded / 2 - fov / 2 in
    let hi := padded / 2 + fov / 2 in
    Ok (mk_nd [hi - lo; sw] (tab2 (hi - lo) sw (fun i c => entry (lo + i) c)))
  else
    Ok (mk_nd [padded; sw] (tab2 padded sw entry)).

(** [np.kron(a, a)] of a 2-D array. *)
Definition kron_self (a : ndarray complex) : result (ndarray complex) :=
  match shape a with
  | [r; c] =>
      Ok (mk_nd [r * r; c * c]
            (tab2 (r * r) (c * c) (fun p q =>
               c_mul (nth ((p / r) * c + q / c) (data a) c_zero)
                     (nth ((p mod r) * c + q mod c) (data a) c_zero))))
  | _ => Raise ValueError
  end.

(** The batching of a pupil-shaped array into
    [(nsubx, nsubx, subwidth*subwidth)]. *)
Definition batch_subapertures (self : obj) (sw : nat)
    (camp : ndarray complex) : result (ndarray complex) :=
  c4 <- reshape camp [nsubx self; sw; nsubx self; sw] ;;
  c4 <- swapaxes_1_2 c_zero c4 ;;
  reshape c4 [nsubx self; nsubx self; sw * sw].

(** [SHWFS.__init__]: [pupil] without [self.] is the module-level name. *)
Definition __init__ (g : globals) (self : obj) : result obj :=
  sw <- subwidth self ;;
  let padded := Nat.max (sw * 2) (fovx self) in
  dft <- kernel_1d sw (fovx self) padded ;;
  d2 <- kron_self dft ;;
  gp <- require (g_pupil g) NameError ;;
  let camp := mk_nd (shape gp) (map c_of_bool (data gp)) in
  camp <- batch_subapertures self sw camp ;;
  _ <- einsum_ijq_pq_ijp camp d2 ;;
  Ok {| pupil := pupil self; nsubx := nsubx self; fovx := fovx self;
        wavelength := wavelength self; dft2 := Some d2;
        slices := slices self; es_path := Some contract_pair;
        _im_subaps := _im_subaps self; _im_full := _im_full self;
        diam := diam self; padded_width := Some padded |}.

(** [measure(phi)]: [pupil] without [self.] is the module-level name. *)
Definition measure (g : globals) (self : obj) (phi : ndarray T)
  : result obj :=
  gp <- require (g_pupil g) NameError ;;
  let mask := mk_nd (shape gp) (map c_of_bool (data gp)) in
  let wave :=
    mk_nd (shape phi)
      (map (fun p =>
              cis (s_div (s_mul (s_mul p (s_of_Z 2)) s_pi)
                         (wavelength self)))
           (data phi)) in
  camp <- c_times mask wave ;;
  sw <- subwidth self ;;
  camp <- batch_subapertures self sw camp ;;
  _ <- require (es_path self) TypeError ;;
  d2 <- require (dft2 self) ValueError ;;
  amp <- einsum_ijq_pq_ijp camp d2 ;;
  let im := mk_nd (shape amp) (map abs2 (data amp)) in
  subaps <- reshape im [nsubx self * nsubx self; fovx self; fovx self] ;;
  im4 <- reshape im [nsubx self; nsubx self; fovx self; fovx self] ;;
  im4 <- swapaxes_1_2 s_zero im4 ;;
  full <- reshape im4 [nsubx self * fovx self; nsubx self * fovx self] ;;
  Ok {| pupil := pupil self; nsubx := nsubx self; fovx := fovx self;
        wavelength := wavelength self; dft2 := dft2 self;
        slices := slices self; es_path := es_path self;
        _im_subaps := Some subaps; _im_full := Some full;
        diam := diam self; padded_width := padded_width self |}.

(** [SHWFS(pupil=..., nsubx=..., fovx=..., wavelength=..., diam=...)]
    before [__init__] runs. *)
Definition fields (p : ndarray bool) (n fov : nat) (wl d : T) : obj :=
  {| pupil := p; nsubx := n; fovx := fov; wavelength := wl;
     dft2 := None; slices := None; es_path := None;
     _im_subaps := None; _im_full := None; diam := d;
     padded_width := None |}.

End Model.

Arguments obj T : clear implicits.
Arguments complex T : clear implicits.

End SHWFS.

(* ===================================================================== *)
(** ** Accessors, the main loop's slope vector, the reconstructor's grid *)
(* ===================================================================== *)

(** [a[mask] = values] for a boolean [mask] of the shape of [a]: the
    values go, in order, to the positions where the mask is true.  NumPy
    takes a [values] array of at most one axis: a 0-d array or one of
    extent 1 is repeated, any other must have as many entries as the mask
    has true positions. *)
Definition count_true (mask : ndarray bool) (k : nat) : nat :=
  length (filter (fun i => nth i (data mask) false) (seq 0 k)).

Definition mask_assign {U : Type} (d : U) (a : ndarray U)
    (mask : ndarray bool) (values : ndarray U) : result (ndarray U) :=
  if negb (shape_eqb (shape a) (shape mask)) then Raise IndexError
  else
    let n := prod (shape a) in
    let m := count_true mask n in
    match shape values with
    | _ :: _ :: _ => Raise TypeError
    | sh =>
        let repeated := match sh with [e] => e =? 1 | _ => true end in
        if negb repeated && negb (prod sh =? m) then Raise ValueError
        else
          Ok (mk_nd (shape a)
                (tabulate n (fun k =>
                   if nth k (data mask) false
                   then nth (if repeated then 0 else count_true mask k)
                            (data values) d
                   else nth k (data a) d)))
    end.

Module Views.

(** The property [PhaseScreen.phase] of a float64 PhaseScreen:
    [phi = np.zeros(pupil.shape); phi[pupil] = x.copy();
     phi.astype(np.float32)]. *)
Definition phase {X : Externals spec_float}
    (self : PhaseScreen.obj spec_float) : result ClassicCog.typed_array :=
  let phi := mk_nd (shape (PhaseScreen.pupil self))
               (tabulate (prod (shape (PhaseScreen.pupil self)))
                         (fun _ => Float64.zero)) in
  x <- require (PhaseScreen.x self) AttributeError ;;
  phi <- mask_assign Float64.zero phi (PhaseScreen.pupil self) x ;;
  Ok (ClassicCog.astype_float32 phi).

(** The properties [SHWFS.image] and [SHWFS.image_batched]:
    [self._im_full.copy()] and [self._im_subaps.copy()]. *)
Definition image {T : Type} `{Scalar T} (self : SHWFS.obj T)
  : result (ndarray T) :=
  require (SHWFS._im_full self) AttributeError.

Definition image_batched {T : Type} `{Scalar T} (self : SHWFS.obj T)
  : result (ndarray T) :=
  require (SHWFS._im_subaps self) AttributeError.

End Views.

Module MainLoop.
Section Model.
Context {T : Type} `{Scalar T}.

(** [a.flatten()] *)
Definition flatten (a : ndarray T) : ndarray T :=
  mk_nd [prod (shape a)] (data a).

(** [cog.cog(shwfs.image_batched)[valid].T.flatten()], where [slopes] is
    what [cog] returned: the rows of the valid subapertures, transposed and
    flattened ("yao slope format"). *)
Definition yao_slopes (slopes : ndarray T) (valid : ndarray bool)
  : result (ndarray T) :=
  rows <- mask_select slopes valid ;;
  Ok (flatten (transpose rows)).

(** [valid.sum()*2], the extent of the shared slope buffer. *)
Definition slope_buffer_extent (valid : ndarray bool) : nat :=
  count_true valid (prod (shape valid)) * 2.

End Model.

(** [valid.astype(np.uint8).reshape([nsubx, nsubx])], the published
    valid-subaperture mask. *)
Definition published_valid (valid : ndarray bool) (nsubx : nat)
  : result (ndarray nat) :=
  reshape (mk_nd (shape valid)
             (map (fun b : bool => if b then 1 else 0) (data valid)))
          [nsubx; nsubx].

End MainLoop.

Module Reconstructor.

(** [np.meshgrid(np.arange(n), np.arange(n), indexing="xy")]: the column
    index and the row index of every grid point. *)
Definition meshgrid_xy (n : nat) : ndarray nat * ndarray nat :=
  (mk_nd [n; n] (tab2 n n (fun _ j => j)),
   mk_nd [n; n] (tab2 n n (fun i _ => i))).

(** [valid == 1] on the mask read from shared memory. *)
Definition equals_one (valid : ndarray nat) : ndarray bool :=
  mk_nd (shape valid) (map (fun v => v =? 1) (data valid)).

(** [x_valid, y_valid] of the reconstructor: the grid coordinates selected
    by [valid == 1]. *)
Definition valid_coordinates (nsubx : nat) (valid : ndarray nat)
  : result (ndarray nat * ndarray nat) :=
  let '(x_valid, y_valid) := meshgrid_xy nsubx in
  x_valid <- mask_select x_valid (equals_one valid) ;;
  y_valid <- mask_select y_valid (equals_one valid) ;;
  Ok (x_valid, y_valid).

End Reconstructor.

(* ===================================================================== *)
(** ** The specification's formulas, written as in a textbook *)
(* ===================================================================== *)

Section Textbook.
Context {T : Type} `{Scalar T}.

(** The product [A·X] of an [m x n] matrix with a vector of length [n] or
    a batch [n x ...]: entry [(i, l)] is the sum over [k] of
    [A(i,k) * X(k,l)].  The inner extents must be equal. *)
Definition mat_mul (a b : ndarray T) : result (ndarray T) :=
  match shape a, shape b with
  | [m; n], n' :: rest =>
      if n =? n' then
        Ok (mk_nd (m :: rest)
              (tab2 m (prod rest) (fun i l =>
                 sum_upto n (fun k =>
                   s_mul (get_rc n a i k) (get_rc (prod rest) b k l)))))
      else Raise ValueError
  | _, _ => Raise ValueError
  end.



End Textbook.

(** ** Invariants of the PhaseScreen *)

Section Invariants.
Context {T : Type} `{Scalar T} `{Externals T}.
Import PhaseScreen.

(** The dense matrix of a state matrix is the product of its factors. *)
Definition coherent (sm : StateMatrix T) : Prop :=
  exists m k n,
    shape (ML sm) = [m; k] /\ shape (LT sm) = [k; n]
    /\ einsum_ij_jk_ik (ML sm) (LT sm) = Ok (A sm).

(** A PhaseScreen after construction: every derived field is set, the
    state matrix is square of the order [n] of the state vector, and the
    innovation factor has [n] rows. *)
Definition well_formed (ps : obj T) : Prop :=
  exists sm fvv x0 g n m,
    state_matrix ps = Some sm /\ factor_vv ps = Some fvv
    /\ x ps = Some x0 /\ rng ps = Some g
    /\ coherent sm
    /\ shape (A sm) = [n; n] /\ shape fvv = [n; m] /\ shape x0 = [n].

(** Two state matrices with the same [ML], [LT] and [A]. *)
Definition same_matrices (sm1 sm2 : StateMatrix T) : Prop :=
  with_selected Classic sm1 = with_selected Classic sm2.

(** A PhaseScreen with the strategy choice of its state matrix erased. *)
Definition erase_strategy (ps : obj T) : obj T :=
  {| pupil := pupil ps; r0 := r0 ps; L0 := L0 ps; diam := diam ps;
     laminar := laminar ps; wind := wind ps; ittime := ittime ps;
     pixsize := pixsize ps; thresh := thresh ps; xx_max := xx_max ps;
     vv_max := vv_max ps; factor_xx := factor_xx ps;
     factor_vv := factor_vv ps; x := x ps; seed := seed ps;
     rng := rng ps;
     state_matrix := option_map (with_selected Classic) (state_matrix ps) |}.

(** Related PhaseScreens: equal up to the selected strategy, with a
    coherent state matrix. *)
Definition sim (p1 p2 : obj T) : Prop :=
  erase_strategy p1 = erase_strategy p2
  /\ forall sm, state_matrix p1 = Some sm -> coherent sm.

(** What the benchmark of the constructor decides on the clock readings
    [clk]: the factored product when its mean time over the 10 runs is
    below that of the classic product, the classic product otherwise. *)
Definition benchmark_verdict (clk : clock T) : strategy :=
  if s_ltb (s_div (s_sub (t2 clk) (t1 clk)) (s_of_Z (Z.of_nat 10)))
           (s_div (s_sub (t3 clk) (t2 clk)) (s_of_Z (Z.of_nat 10)))
  then Factored else Classic.

(** [state_after g clk self k]: construct with the benchmark clock [clk],
    call [step()] [k] times, read [self.x]. *)
Definition state_after (g : globals) (clk : clock T) (self : obj T)
    (k : nat) : result (option (ndarray T)) :=
  ps0 <- __init__ g clk self ;;
  ps <- steps k ps0 ;;
  Ok (x ps).

End Invariants.

(** Two results that raise the same exception or hold related values. *)
Definition rel_result {A B : Type} (R : A -> B -> Prop)
    (c1 : result A) (c2 : result B) : Prop :=
  match c1, c2 with
  | Ok a, Ok b => R a b
  | Raise e1, Raise e2 => e1 = e2
  | _, _ => False
  end.

(** ** The centroid of one image, written out *)

Module CogSpec.
Import ClassicCog.

(** Pixel [k] of image [i] in a batch of images of [K] pixels each. *)
Definition pixel (a : ndarray spec_float) (K i k : nat) : spec_float :=
  get_flat a (i * K + k).

(** The weight of that pixel: the pixel itself, or, when a threshold is
    set, the pixel minus the threshold with negative values replaced by
    zero. *)
Definition weight (th : option spec_float) (a : ndarray spec_float)
    (K i k : nat) : spec_float :=
  match th with
  | Some t => clamp t (pixel a K i k)
  | None => pixel a K i k
  end.

(** The denominator: the total weight of image [i], added up as
    [np.sum] adds the pixels of an image. *)
Definition total_weight (th : option spec_float) (a : ndarray spec_float)
    (K i : nat) : spec_float :=
  np_sum K (weight th a K i).

(** The numerator for axis [j]: the sum of
    [r_mat[j,k] * weight * xy_mat[j,k]] over the pixels. *)
Definition weighted_sum (r xy : ndarray spec_float)
    (th : option spec_float) (a : ndarray spec_float) (K i j : nat)
  : spec_float :=
  sum_upto K (fun k =>
    s_mul (s_mul (get_rc K r j k) (weight th a K i k)) (get_rc K xy j k)).


End CogSpec.

(* ===================================================================== *)
(** ** Small inputs on which the model is run *)
(* ===================================================================== *)

Module Demo.

(** A 2x2 pupil with every point active. *)
Definition pupil2 : ndarray bool := mk_nd [2; 2] [true; true; true; true].

Definition script_globals : globals :=
  {| g_pup_width := Some 2; g_pupil := Some pupil2 |}.

(** The keyword arguments of a PhaseScreen over any scalar type; the
    derived fields are still [None]. *)
Definition screen_params {T : Type} `{Scalar T} {X : Externals T}
    (thresh : T) : PhaseScreen.obj T :=
  {| PhaseScreen.pupil := pupil2;
     PhaseScreen.r0 := s_one;
     PhaseScreen.L0 := s_of_Z 25;
     PhaseScreen.diam := s_of_Z 8;
     PhaseScreen.laminar := s_div s_one (s_of_Z 2);
     PhaseScreen.wind := mk_nd [2] [s_of_Z 10; s_of_Z 20];
     PhaseScreen.ittime := s_div s_one (s_of_Z 500);
     PhaseScreen.pixsize := None;
     PhaseScreen.thresh := thresh;
     PhaseScreen.xx_max := None;
     PhaseScreen.vv_max := None;
     PhaseScreen.factor_xx := None;
     PhaseScreen.factor_vv := None;
     PhaseScreen.x := None;
     PhaseScreen.seed := 1234;
     PhaseScreen.rng := None;
     PhaseScreen.state_matrix := None |}.

(** Clocks on which the classic, respectively the factored, product was
    the slower one. *)
Definition clock_classic_slower {T : Type} `{Scalar T} : clock T :=
  {| t1 := s_of_Z 0; t2 := s_of_Z 10; t3 := s_of_Z 30 |}.
Definition clock_factored_slower {T : Type} `{Scalar T} : clock T :=
  {| t1 := s_of_Z 0; t2 := s_of_Z 20; t3 := s_of_Z 30 |}.

(** The float64 PhaseScreen constructed from these, with threshold 0. *)
Definition float_params : PhaseScreen.obj spec_float :=
  @screen_params spec_float float64 toy_externals Float64.zero.


(** The same parameters with the eigenvalue threshold 10, above every
    eigenvalue of the demonstration covariances. *)
Definition float_params_thresh10 : PhaseScreen.obj spec_float :=
  @screen_params spec_float float64 toy_externals (Float64.of_Z 10).

(** The same parameters with the threshold [+inf]. *)
Definition float_params_inf : PhaseScreen.obj spec_float :=
  @screen_params spec_float float64 toy_externals Float64.inf.

(** What a construction left behind: the shapes of [factor_xx] and
    [factor_vv], the entries of the dense state matrix and the initial
    state. *)
Definition construction_summary
    (r : result (@PhaseScreen.obj spec_float toy_externals))
  : option (list nat * list nat * list spec_float * list spec_float) :=
  match r with
  | Ok ps =>
      match PhaseScreen.factor_xx ps, PhaseScreen.factor_vv ps,
            PhaseScreen.state_matrix ps, PhaseScreen.x ps with
      | Some fxx, Some fvv, Some sm, Some x0 =>
          Some (shape fxx, shape fvv, data (PhaseScreen.A sm), data x0)
      | _, _, _, _ => None
      end
  | Raise _ => None
  end.

(** [_factorh] of the demonstration screen, as a function of the matrix
    and the mode count. *)
Definition float_factorh (m : ndarray spec_float) (n_modes : option Z)
  : result (ndarray spec_float * ndarray spec_float) :=
  PhaseScreen._factorh float_params m n_modes.

(** The same parameters over exact integers, with threshold -1. *)
Definition int_externals : Externals Z := @toy_externals Z exactZ.

Definition int_params : @PhaseScreen.obj Z int_externals :=
  @screen_params Z exactZ int_externals (-1)%Z.

Definition int_state_after (clk : clock Z) (k : nat)
  : result (option (ndarray Z)) :=
  @state_after Z exactZ int_externals script_globals clk int_params k.

(** A calibrated 2x2-pixel centroider with the default threshold, one
    without threshold, and a batch of three images: an all-zero one, one
    with weights 1, 1, 1, 3, and one whose weights 1 and -1 cancel. *)
Definition cog2 : ClassicCog.obj :=
  match ClassicCog.calibrate (ClassicCog.new 2 None) with
  | Ok c => c
  | Raise _ => ClassicCog.new 2 None
  end.

Definition cog2_no_thresh : ClassicCog.obj :=
  match ClassicCog.calibrate (ClassicCog.new 2 (Some None)) with
  | Ok c => c
  | Raise _ => ClassicCog.new 2 (Some None)
  end.

Definition fl (z : Z) : spec_float := Float64.of_Z z.

Definition batch3 : ndarray spec_float :=
  mk_nd [3; 2; 2]
    [fl 0; fl 0; fl 0; fl 0;
     fl 1; fl 1; fl 1; fl 3;
     fl 1; fl 0; fl 0; fl (-1)].

Definition image1 : ndarray spec_float :=
  mk_nd [2; 2] [fl 1; fl 1; fl 1; fl 3].

(** The float64 power of two [2^e], for [e] in the normal range. *)
Definition pow2 (e : Z) : spec_float :=
  S754_finite false 4503599627370496 (e - 52).

(** A 3x3-pixel centroider without threshold and one image whose
    pixels are [2^53, 1, 1, -2^53] followed by zeros. *)
Definition cog3_no_thresh : ClassicCog.obj :=
  match ClassicCog.calibrate (ClassicCog.new 3 (Some None)) with
  | Ok c => c
  | Raise _ => ClassicCog.new 3 (Some None)
  end.

Definition image9 : ndarray spec_float :=
  mk_nd [1; 3; 3]
    [pow2 53; fl 1; fl 1; s_sub (fl 0) (pow2 53);
     fl 0; fl 0; fl 0; fl 0; fl 0].

(** A third clock, on which the classic product was the slower one by
    more. *)
Definition clock_classic_much_slower {T : Type} `{Scalar T} : clock T :=
  {| t1 := s_of_Z 0; t2 := s_of_Z 10; t3 := s_of_Z 50 |}.

(** Float64 operands of a state matrix: entries in tenths, and a batch
    [sigma2] to apply it to. *)
Definition tenths (z : Z) : spec_float := s_div (fl z) (fl 10).

Definition cov_tenths : ndarray spec_float :=
  mk_nd [2; 2] [tenths 1; tenths 2; tenths 3; tenths 4].

Definition inv_tenths : ndarray spec_float :=
  mk_nd [2; 2] [tenths 1; tenths 3; tenths 5; tenths 7].

Definition sigma2 : ndarray spec_float :=
  mk_nd [2; 2] [fl 2; fl 1; fl 1; fl 3].

(** Operands on which the dense matrix overflows: the identity, an
    inverse factor [2^600 * I], and the vector [(2^-600, 2^-600)]. *)
Definition cov_eye : ndarray spec_float :=
  mk_nd [2; 2] [fl 1; fl 0; fl 0; fl 1].

Definition inv_huge : ndarray spec_float :=
  mk_nd [2; 2] [pow2 600; fl 0; fl 0; pow2 600].

Definition v_tiny : ndarray spec_float :=
  mk_nd [2] [pow2 (-600); pow2 (-600)].

(** The state matrix the constructor returns in float64. *)
Definition float_state_matrix (cov_yx inv_factor_xx : ndarray spec_float)
    (clk : clock spec_float) : PhaseScreen.StateMatrix spec_float :=
  match @PhaseScreen.StateMatrix_init spec_float float64 toy_externals
          cov_yx inv_factor_xx clk with
  | Ok sm => sm
  | Raise _ =>
      {| PhaseScreen.ML := cov_yx; PhaseScreen.LT := inv_factor_xx;
         PhaseScreen.A := cov_yx;
         PhaseScreen.es_path_factored := all_at_once;
         PhaseScreen.selected := PhaseScreen.Classic |}
  end.

(** The state of the float64 demonstration screen after [k] steps. *)
Definition float_state_after (clk : clock spec_float) (k : nat)
  : list spec_float :=
  match @state_after spec_float float64 toy_externals script_globals clk
          float_params k with
  | Ok (Some x) => data x
  | _ => []
  end.

End Demo.

(* ===================================================================== *)
(** ** Quantities the statements below are phrased with *)
(* ===================================================================== *)

(** The number of kernel rows [SHWFS.__init__] keeps per axis for
    subapertures of [sw] points and a field of view of [fov] pixels: the
    crop [padded//2 - fov//2 : padded//2 + fov//2] when
    [fov < padded = max(2*sw, fov)], else all [padded = fov] rows. *)
Definition kept_rows (sw fov : nat) : nat :=
  if fov <? sw * 2 then 2 * (fov / 2) else fov.

(** The flat positions, in ascending order, at which a mask is true. *)
Definition active_points (mask : ndarray bool) : list nat :=
  filter (fun i => nth i (data mask) false) (seq 0 (prod (shape mask))).

(** A mode count [n_modes] that [_factorh] can use on a matrix of order
    [r]: [None] (the threshold policy), or a count for which
    [vals.argsort()[-n_modes]] is a valid index, that is
    [-r < n_modes <= r]. *)
Definition mode_count_fits (n_modes : option Z) (r : nat) : bool :=
  match n_modes with
  | None => true
  | Some n => ((- Z.of_nat r <? n) && (n <=? Z.of_nat r))%Z
  end.

(** The entries of an array compare as a total preorder, as floats do
    when none of them is NaN. *)
Definition comparable_keys {T : Type} `{Scalar T} (vals : ndarray T)
  : Prop :=
  (forall i j, s_ltb (get_flat vals i) (get_flat vals j) = false ->
               s_leb (get_flat vals j) (get_flat vals i) = true)
  /\ (forall i j, s_ltb (get_flat vals i) (get_flat vals j) = true ->
                  s_leb (get_flat vals i) (get_flat vals j) = true)
  /\ (forall i j k,
         s_leb (get_flat vals i) (get_flat vals j) = true ->
         s_leb (get_flat vals j) (get_flat vals k) = true ->
         s_leb (get_flat vals i) (get_flat vals k) = true).

(** The number of modes a mode count [n] asks [_factorh] to keep out of
    [r]: [n] itself when positive, else all but the [-n] smallest. *)
Definition modes_asked (n : Z) (r : nat) : nat :=
  if (0 <? n)%Z then Z.to_nat n else r - Z.to_nat (- n).

(** A PhaseScreen whose state vector has one entry per active pupil
    point, on top of the invariant of construction. *)
Definition covers_pupil {T : Type} `{Scalar T} `{Externals T}
    (ps : PhaseScreen.obj T) : Prop :=
  well_formed ps
  /\ exists x0, PhaseScreen.x ps = Some x0
                /\ shape x0 = [length (active_points (PhaseScreen.pupil ps))].

Module DemoScreen.

(** The demonstration parameters with the state set by hand to
    [1, 2, 3, 4], as after [ps.x = np.array([1., 2., 3., 4.])]. *)
Definition with_state (x0 : ndarray spec_float)
  : @PhaseScreen.obj spec_float toy_externals :=
  {| PhaseScreen.pupil := PhaseScreen.pupil Demo.float_params;
     PhaseScreen.r0 := PhaseScreen.r0 Demo.float_params;
     PhaseScreen.L0 := PhaseScreen.L0 Demo.float_params;
     PhaseScreen.diam := PhaseScreen.diam Demo.float_params;
     PhaseScreen.laminar := PhaseScreen.laminar Demo.float_params;
     PhaseScreen.wind := PhaseScreen.wind Demo.float_params;
     PhaseScreen.ittime := PhaseScreen.ittime Demo.float_params;
     PhaseScreen.pixsize := None;
     PhaseScreen.thresh := PhaseScreen.thresh Demo.float_params;
     PhaseScreen.xx_max := None;
     PhaseScreen.vv_max := None;
     PhaseScreen.factor_xx := None;
     PhaseScreen.factor_vv := None;
     PhaseScreen.x := Some x0;
     PhaseScreen.seed := 1234;
     PhaseScreen.rng := None;
     PhaseScreen.state_matrix := None |}.

(** The integer demonstration parameters with mode counts. *)
Definition int_params_with_counts (xx vv : option Z)
  : @PhaseScreen.obj Z Demo.int_externals :=
  {| PhaseScreen.pupil := PhaseScreen.pupil Demo.int_params;
     PhaseScreen.r0 := PhaseScreen.r0 Demo.int_params;
     PhaseScreen.L0 := PhaseScreen.L0 Demo.int_params;
     PhaseScreen.diam := PhaseScreen.diam Demo.int_params;
     PhaseScreen.laminar := PhaseScreen.laminar Demo.int_params;
     PhaseScreen.wind := PhaseScreen.wind Demo.int_params;
     PhaseScreen.ittime := PhaseScreen.ittime Demo.int_params;
     PhaseScreen.pixsize := None;
     PhaseScreen.thresh := PhaseScreen.thresh Demo.int_params;
     PhaseScreen.xx_max := xx;
     PhaseScreen.vv_max := vv;
     PhaseScreen.factor_xx := None;
     PhaseScreen.factor_vv := None;
     PhaseScreen.x := None;
     PhaseScreen.seed := 1234;
     PhaseScreen.rng := None;
     PhaseScreen.state_matrix := None |}.

Definition state4 : ndarray spec_float :=
  mk_nd [4] [Demo.fl 1; Demo.fl 2; Demo.fl 3; Demo.fl 4].

End DemoScreen.

Module DemoSensor.

(** Stand-ins for cosine and sine (those of the angle 0), enough to run
    the sensor where only shapes and control flow matter. *)
Definition flat_trig {T : Type} `{Scalar T} : Trig T :=
  {| s_cos := fun _ => s_one; s_sin := fun _ => s_zero |}.

(** A 4x4 pupil without its corners, as the script's global and as the
    sensor's field. *)
Definition pupil4 : ndarray bool :=
  mk_nd [4; 4]
    [false; true; true; false;
     true; true; true; true;
     true; true; true; true;
     false; true; true; false].

Definition sensor_globals : globals :=
  {| g_pup_width := Some 4; g_pupil := Some pupil4 |}.

(** [SHWFS(pupil=pupil4, nsubx=2, fovx=fov, wavelength=1, diam=8)] *)
Definition sensor (fov : nat) : SHWFS.obj Z :=
  @SHWFS.fields Z pupil4 2 fov 1%Z 8%Z.

Definition phi4 : ndarray Z :=
  mk_nd [4; 4] (map Z.of_nat (seq 0 16)).

(** A second phase map: 3 on the pupil, 0 outside. *)
Definition pupil_phase : ndarray Z :=
  mk_nd [4; 4] (map (fun b : bool => if b then 3%Z else 0%Z) (data pupil4)).

(** The same sensor and phase map in float64. *)
Definition float_sensor (fov : nat) : SHWFS.obj spec_float :=
  @SHWFS.fields spec_float pupil4 2 fov Float64.one (Float64.of_Z 8).

Definition float_phi4 : ndarray spec_float :=
  mk_nd [4; 4] (map (fun k => Float64.of_Z (Z.of_nat k)) (seq 0 16)).

(** Keyword arguments of a float64 PhaseScreen on the 4x4 pupil. *)
Definition float_screen_params : @PhaseScreen.obj spec_float toy_externals :=
  {| PhaseScreen.pupil := pupil4;
     PhaseScreen.r0 := PhaseScreen.r0 Demo.float_params;
     PhaseScreen.L0 := PhaseScreen.L0 Demo.float_params;
     PhaseScreen.diam := PhaseScreen.diam Demo.float_params;
     PhaseScreen.laminar := PhaseScreen.laminar Demo.float_params;
     PhaseScreen.wind := PhaseScreen.wind Demo.float_params;
     PhaseScreen.ittime := PhaseScreen.ittime Demo.float_params;
     PhaseScreen.pixsize := None;
     PhaseScreen.thresh := PhaseScreen.thresh Demo.float_params;
     PhaseScreen.xx_max := Some 5%Z;
     PhaseScreen.vv_max := None;
     PhaseScreen.factor_xx := None;
     PhaseScreen.factor_vv := None;
     PhaseScreen.x := None;
     PhaseScreen.seed := 1234;
     PhaseScreen.rng := None;
     PhaseScreen.state_matrix := None |}.

End DemoSensor.

Module DemoModes.

(** A diagonal matrix with the eigenvalues 3, 5 and 5. *)
Definition diag355 : ndarray Z :=
  mk_nd [3; 3] [3; 0; 0;  0; 5; 0;  0; 0; 5]%Z.

End DemoModes.

Module DemoLoop.

(** Slopes of four subapertures (a 2x2 grid) and a validity mask that
    leaves out the second one. *)
Definition slopes4 : ndarray Z :=
  mk_nd [4; 2] [10; 11; 20; 21; 30; 31; 40; 41]%Z.

Definition valid4 : ndarray bool := mk_nd [4] [true; false; true; true].

End DemoLoop.

Module DarkFrames.

(** A complex number with finite parts, and a complex zero (of either
    sign in each part). *)
Definition c_finite (z : SHWFS.complex spec_float) : bool :=
  Float64.is_finite (SHWFS.re z) && Float64.is_finite (SHWFS.im z).

Definition c_is_zero (z : SHWFS.complex spec_float) : bool :=
  Float64.is_zero (SHWFS.re z) && Float64.is_zero (SHWFS.im z).

(** [np.exp(1j*phi*2*np.pi/self.wavelength)] at the flat position [k]. *)
Definition wave_at {Tr : Trig spec_float} (self : SHWFS.obj spec_float)
    (phi : ndarray spec_float) (k : nat) : SHWFS.complex spec_float :=
  SHWFS.cis (s_div (s_mul (s_mul (get_flat phi k) (s_of_Z 2)) s_pi)
                   (SHWFS.wavelength self)).

(** A 4x4 pupil whose upper-left 2x2 block is dark. *)
Definition pupil_dark : ndarray bool :=
  mk_nd [4; 4]
    [false; false; true; true;
     false; false; true; true;
     true; true; true; true;
     true; true; true; true].

Definition dark_globals : globals :=
  {| g_pup_width := Some 4; g_pupil := Some pupil_dark |}.

Definition dark_sensor : SHWFS.obj spec_float :=
  @SHWFS.fields spec_float pupil_dark 2 2 Float64.one (Float64.of_Z 8).

End DarkFrames.

(* ===================================================================== *)
(** * Proofs *)
(* ===================================================================== *)

Unset Implicit Arguments.

(** ** Buffers and indices *)

Lemma bind_Ok {A B : Type} (c : result A) (k : A -> result B) (b : B) :
  bind c k = Ok b -> exists a, c = Ok a /\ k a = Ok b.
Proof.
  destruct c as [a|e]; simpl; intros E; [exists a; auto | discriminate].
Qed.

Lemma length_tabulate {T} (n : nat) (f : nat -> T) :
  length (tabulate n f) = n.
Proof. unfold tabulate. now rewrite length_map, length_seq. Qed.

Lemma nth_tabulate {T} (n : nat) (f : nat -> T) (k : nat) (d : T) :
  k < n -> nth k (tabulate n f) d = f k.
Proof.
  intros Hk. unfold tabulate.
  rewrite (nth_indep _ d (f 0)) by now rewrite length_map, length_seq.
  rewrite map_nth, seq_nth; auto.
Qed.

Lemma tabulate_ext {T} (n : nat) (f g : nat -> T) :
  (forall k, k < n -> f k = g k) -> tabulate n f = tabulate n g.
Proof.
  intros E. unfold tabulate. apply map_ext_in.
  intros k Hk. apply in_seq in Hk. apply E. lia.
Qed.

Lemma length_tab2 {T} (r c : nat) (f : nat -> nat -> T) :
  length (tab2 r c f) = r * c.
Proof. apply length_tabulate. Qed.

Lemma flat_index_lt (r c i j : nat) : i < r -> j < c -> i * c + j < r * c.
Proof. intros. nia. Qed.

Lemma flat_index_div (c i j : nat) : j < c -> (i * c + j) / c = i.
Proof.
  intros Hj. rewrite Nat.add_comm, Nat.div_add by lia.
  now rewrite Nat.div_small.
Qed.

Lemma flat_index_mod (c i j : nat) : j < c -> (i * c + j) mod c = j.
Proof.
  intros Hj. rewrite Nat.add_comm, Nat.Div0.mod_add.
  now apply Nat.mod_small.
Qed.

Lemma tab2_ext {T} (r c : nat) (f g : nat -> nat -> T) :
  (forall i j, i < r -> j < c -> f i j = g i j) -> tab2 r c f = tab2 r c g.
Proof.
  intros E. apply tabulate_ext. intros k Hk.
  assert (0 < c) by (destruct c; [lia | lia]).
  apply E.
  - apply Nat.Div0.div_lt_upper_bound. lia.
  - now apply Nat.mod_upper_bound; lia.
Qed.

Section BufferFacts.
Context {T : Type} `{Scalar T}.

Lemma get_rc_tab2 (sh : list nat) (r c : nat) (f : nat -> nat -> T)
      (i j : nat) :
  i < r -> j < c -> get_rc c (mk_nd sh (tab2 r c f)) i j = f i j.
Proof.
  intros Hi Hj. unfold get_rc, tab2; simpl.
  rewrite nth_tabulate by now apply flat_index_lt.
  now rewrite flat_index_div, flat_index_mod.
Qed.

Lemma sum_upto_ext (n : nat) (f g : nat -> T) :
  (forall j, j < n -> f j = g j) -> sum_upto n f = sum_upto n g.
Proof.
  induction n as [|n IH]; simpl; intros E; [reflexivity|].
  rewrite IH, E; auto.
Qed.

Lemma bidx_lt (d i : nat) : i < d -> bidx d i = i.
Proof.
  unfold bidx. intros Hi. destruct (Nat.eqb_spec d 1); [lia | reflexivity].
Qed.

Lemma blabel_same (d : nat) : blabel d d = Ok d.
Proof. unfold blabel. now rewrite Nat.eqb_refl. Qed.

Lemma blabel_bidx (d1 d2 d k : nat) :
  blabel d1 d2 = Ok d -> k < d -> bidx d1 k < d1 /\ bidx d2 k < d2.
Proof.
  unfold blabel, bidx. intros E Hk.
  destruct (Nat.eqb_spec d1 d2), (Nat.eqb_spec d1 1), (Nat.eqb_spec d2 1);
    inversion E; subst; lia.
Qed.

End BufferFacts.

(** ** Sums in exact arithmetic *)

Section ExactSums.
Context {T : Type} `{Scalar T}.
Hypothesis EA : exact_arith T.

Lemma ea_add_0_r (a : T) : s_add a s_zero = a.
Proof. rewrite (ea_add_comm EA). apply (ea_add_0_l EA). Qed.

Lemma ea_mul_0_r (a : T) : s_mul a s_zero = s_zero.
Proof. rewrite (ea_mul_comm EA). apply (ea_mul_0_l EA). Qed.

Lemma ea_distr_r (a b c : T) :
  s_mul a (s_add b c) = s_add (s_mul a b) (s_mul a c).
Proof.
  rewrite (ea_mul_comm EA a), (ea_distr_l EA).
  now rewrite (ea_mul_comm EA b), (ea_mul_comm EA c).
Qed.

Lemma ea_add_swap (a b c d : T) :
  s_add (s_add a b) (s_add c d) = s_add (s_add a c) (s_add b d).
Proof.
  rewrite <- (ea_add_assoc EA a b), (ea_add_assoc EA b c d).
  rewrite (ea_add_comm EA b c), <- (ea_add_assoc EA c b d).
  now rewrite (ea_add_assoc EA a c).
Qed.

Lemma sum_upto_zero (n : nat) : sum_upto n (fun _ => s_zero) = s_zero.
Proof.
  induction n as [|n IH]; simpl; [reflexivity|].
  rewrite IH. apply (ea_add_0_l EA).
Qed.

Lemma sum_upto_add (n : nat) (f g : nat -> T) :
  sum_upto n (fun j => s_add (f j) (g j))
  = s_add (sum_upto n f) (sum_upto n g).
Proof.
  induction n as [|n IH]; simpl.
  - symmetry. apply (ea_add_0_l EA).
  - rewrite IH. apply ea_add_swap.
Qed.

Lemma sum_upto_mul_r (n : nat) (f : nat -> T) (c : T) :
  s_mul (sum_upto n f) c = sum_upto n (fun j => s_mul (f j) c).
Proof.
  induction n as [|n IH]; simpl.
  - apply (ea_mul_0_l EA).
  - now rewrite (ea_distr_l EA), IH.
Qed.

Lemma sum_upto_mul_l (n : nat) (f : nat -> T) (c : T) :
  s_mul c (sum_upto n f) = sum_upto n (fun j => s_mul c (f j)).
Proof.
  induction n as [|n IH]; simpl.
  - apply ea_mul_0_r.
  - now rewrite ea_distr_r, IH.
Qed.

(** Exchange of two finite sums. *)
Lemma sum_upto_swap (n m : nat) (f : nat -> nat -> T) :
  sum_upto n (fun j => sum_upto m (fun k => f j k))
  = sum_upto m (fun k => sum_upto n (fun j => f j k)).
Proof.
  induction n as [|n IH]; simpl.
  - symmetry. apply sum_upto_zero.
  - rewrite IH. symmetry. apply sum_upto_add.
Qed.

End ExactSums.

(** ** The planned order of the factored product *)

Section PathFacts.

(** For a square first operand of order at least 2, as the covariance
    matrices of the PhaseScreen are, and at least one retained mode, the
    search returns the order [b] with [x] first. *)
Lemma einsum_path_optimal_square (r c : nat) :
  2 <= r -> 1 <= c -> einsum_path_optimal r c r = bx_first.
Proof.
  intros Hr Hc. unfold einsum_path_optimal. cbv zeta.
  assert (M : Nat.max (Nat.max (r * c) (c * r)) (Nat.max r r) = r * c)
    by (rewrite Nat.max_id, (Nat.mul_comm c r), Nat.max_id; nia).
  rewrite M. unfold filter, fst.
  assert (E2 : (r * c * r <=? r * c) = false) by (apply Nat.leb_gt; nia).
  assert (E3 : (c <=? r * c) = true) by (apply Nat.leb_le; nia).
  rewrite E2, E3.
  destruct (r * r <=? r * c) eqn:E1; cbn [map snd cheapest fst].
  - assert (L : (2 * (c * r) + 2 * (r * c)
                 <? 2 * (r * c * r) + 2 * (r * r)) = true)
      by (apply Nat.ltb_lt; nia).
    now rewrite L.
  - reflexivity.
Qed.

(** The outer-product order is returned only when the contracted label
    [j] has at most one value, so that every sum over it has at most one
    term. *)
Lemma einsum_path_optimal_outer (ni nj nk : nat) :
  einsum_path_optimal ni nj nk = ax_first -> nj <= 1.
Proof.
  unfold einsum_path_optimal. cbv zeta.
  set (M := Nat.max (Nat.max (ni * nj) (nj * nk)) (Nat.max nk ni)).
  assert (HM : ni * nj <= M /\ nj * nk <= M /\ nk <= M /\ ni <= M
               /\ (M = ni * nj \/ M = nj * nk \/ M = nk \/ M = ni))
    by (unfold M; lia).
  clearbody M. unfold filter, fst.
  destruct (ni * nk <=? M) eqn:E1, (ni * nj * nk <=? M) eqn:E2,
           (nj <=? M) eqn:E3;
    cbn [map snd cheapest fst];
    repeat match goal with
           | |- context [?a <? ?b] => destruct (Nat.ltb_spec a b)
           end;
    cbn [snd]; try discriminate; intros _;
    try apply Nat.leb_le in E1; try apply Nat.leb_gt in E1;
    try apply Nat.leb_le in E2; try apply Nat.leb_gt in E2;
    try apply Nat.leb_le in E3; try apply Nat.leb_gt in E3;
    destruct nj as [|[|nj]]; try lia; exfalso; cbn [fst] in *;
    assert (ni * S (S nj) * nk = ni * nk * nj + 2 * (ni * nk)) by ring;
    lia.
Qed.

(** Some pair always fits the memory limit: the search never falls back
    to the single contraction. *)
Lemma einsum_path_optimal_pairwise (ni nj nk : nat) :
  einsum_path_optimal ni nj nk <> all_at_once.
Proof.
  unfold einsum_path_optimal. cbv zeta.
  set (M := Nat.max (Nat.max (ni * nj) (nj * nk)) (Nat.max nk ni)).
  assert (HM : ni * nj <= M /\ nj * nk <= M /\ nk <= M /\ ni <= M)
    by (unfold M; lia).
  clearbody M. unfold filter, fst.
  destruct (ni * nk <=? M) eqn:E1, (ni * nj * nk <=? M) eqn:E2,
           (nj <=? M) eqn:E3;
    cbn [map snd cheapest fst];
    repeat match goal with
           | |- context [?a <? ?b] => destruct (Nat.ltb_spec a b)
           end;
    cbn [snd]; try discriminate.
  apply Nat.leb_gt in E1, E3. exfalso.
  destruct ni as [|ni]; [lia|]. nia.
Qed.

End PathFacts.

(** ** The two evaluation strategies of the state matrix *)

Section StateMatrixFacts.
Context {T : Type} `{Scalar T} `{Externals T}.
Import PhaseScreen.

(** What a constructed [StateMatrix] holds, whatever the clock said. *)
Lemma StateMatrix_init_fields cov_yx inv_factor_xx clk sm :
  StateMatrix_init cov_yx inv_factor_xx clk = Ok sm ->
  einsum_ij_jk_ik cov_yx inv_factor_xx = Ok (ML sm)
  /\ LT sm = transpose inv_factor_xx
  /\ einsum_ij_jk_ik (ML sm) (LT sm) = Ok (A sm)
  /\ exists n,
       shape_at (A sm) 1 = Ok n
       /\ einsum_path_factored (ML sm) (LT sm)
            (mk_nd [n] (tabulate n (fun _ => s_one)))
          = Ok (es_path_factored sm).
Proof.
  unfold StateMatrix_init. intros E.
  apply bind_Ok in E as (ml & Eml & E).
  apply bind_Ok in E as (a & Ea & E).
  apply bind_Ok in E as (n & En & E).
  apply bind_Ok in E as (path & Ep & E).
  apply bind_Ok in E as (res & _ & E).
  destruct (s_ltb _ _); inversion E; subst; simpl; eauto 6.
Qed.

(** The shapes of [ML], [LT] and [A]. *)
Lemma StateMatrix_init_shapes cov_yx inv_factor_xx clk sm :
  StateMatrix_init cov_yx inv_factor_xx clk = Ok sm ->
  exists m k n,
    shape (ML sm) = [m; k] /\ shape (LT sm) = [k; n]
    /\ shape (A sm) = [m; n]
    /\ shape inv_factor_xx = [n; k] /\ hd 0 (shape cov_yx) = m.
Proof.
  intros E. apply StateMatrix_init_fields in E as (Eml & Elt & Ea & _).
  unfold einsum_ij_jk_ik in Eml.
  destruct (shape cov_yx) as [|m [|j1 [|]]] eqn:Sc; try discriminate.
  destruct (shape inv_factor_xx) as [|j2 [|k [|]]] eqn:Si; try discriminate.
  apply bind_Ok in Eml as (nj & _ & Eml). inversion Eml as [Eq]; clear Eml.
  assert (Sl : shape (LT sm) = [k; j2]).
  { rewrite Elt. unfold transpose. now rewrite Si. }
  assert (Sm : shape (ML sm) = [m; k]) by now rewrite <- Eq.
  unfold einsum_ij_jk_ik in Ea. rewrite Sm, Sl in Ea.
  apply bind_Ok in Ea as (nj' & _ & Ea). inversion Ea as [Eq'].
  exists m, k, j2. simpl. auto.
Qed.

(** The order the constructor plans for the factored product. *)
Lemma StateMatrix_init_path cov_yx inv_factor_xx clk sm (m k n : nat) :
  StateMatrix_init cov_yx inv_factor_xx clk = Ok sm ->
  shape (ML sm) = [m; k] -> shape (LT sm) = [k; n] ->
  es_path_factored sm = einsum_path_optimal m k n.
Proof.
  intros E Sm Sl.
  destruct (StateMatrix_init_shapes _ _ _ _ E)
    as (m' & k' & n' & Sm' & Sl' & Sa & _).
  rewrite Sm in Sm'. rewrite Sl in Sl'.
  inversion Sm'; inversion Sl'; subst m' k' n'.
  apply StateMatrix_init_fields in E as (_ & _ & _ & n0 & En & Ep).
  unfold shape_at in En. rewrite Sa in En. simpl in En.
  inversion En; subst n0.
  unfold einsum_path_factored in Ep. rewrite Sm, Sl in Ep.
  cbn [shape] in Ep. rewrite !blabel_same in Ep. simpl in Ep.
  now inversion Ep.
Qed.

(** Entry [(i, c)] of the dense matrix [A = ML . LT]. *)
Lemma A_entry (ml lt a : ndarray T) (m k n i c : nat) :
  shape ml = [m; k] -> shape lt = [k; n] ->
  einsum_ij_jk_ik ml lt = Ok a ->
  i < m -> c < n ->
  get_rc n a i c
  = sum_upto k (fun j => s_mul (get_rc k ml i j) (get_rc n lt j c)).
Proof.
  intros Sm Sl E Hi Hc. unfold einsum_ij_jk_ik in E.
  rewrite Sm, Sl, blabel_same in E. simpl in E. inversion E; subst a.
  rewrite get_rc_tab2 by assumption.
  apply sum_upto_ext. intros j Hj. now rewrite !bidx_lt.
Qed.

Lemma StateMatrix_init_coherent cov_yx inv_factor_xx clk sm :
  StateMatrix_init cov_yx inv_factor_xx clk = Ok sm -> coherent sm.
Proof.
  intros E.
  destruct (StateMatrix_init_shapes _ _ _ _ E)
    as (m & k & n & Sm & Sl & Sa & _).
  apply StateMatrix_init_fields in E as (_ & _ & Ea & _).
  exists m, k, n. auto.
Qed.

Lemma coherent_shape_A (sm : StateMatrix T) (m k n : nat) :
  shape (ML sm) = [m; k] -> shape (LT sm) = [k; n] ->
  einsum_ij_jk_ik (ML sm) (LT sm) = Ok (A sm) ->
  shape (A sm) = [m; n].
Proof.
  intros Sm Sl Ea. unfold einsum_ij_jk_ik in Ea.
  rewrite Sm, Sl, blabel_same in Ea. simpl in Ea.
  inversion Ea as [Eq]. reflexivity.
Qed.

(** On an operand whose leading extent is the column count of [A], the
    classic contraction is the textbook product. *)
Lemma einsum_ij_jE_iE_mat_mul (a v : ndarray T) (m n : nat)
      (rest : list nat) :
  shape a = [m; n] -> shape v = n :: rest ->
  einsum_ij_jE_iE a v = mat_mul a v.
Proof.
  intros Sa Sv. unfold einsum_ij_jE_iE, mat_mul.
  rewrite Sa, Sv, blabel_same, Nat.eqb_refl. simpl.
  do 2 f_equal. apply tab2_ext. intros i l Hi Hl.
  apply sum_upto_ext. intros j Hj. now rewrite !bidx_lt.
Qed.

Lemma dot_classic_mat_mul (sm : StateMatrix T) (v : ndarray T) (m n : nat)
      (rest : list nat) :
  shape (A sm) = [m; n] -> shape v = n :: rest ->
  dot_classic sm v = mat_mul (A sm) v.
Proof.
  intros Sa Sv. exact (einsum_ij_jE_iE_mat_mul (A sm) v m n rest Sa Sv).
Qed.

Lemma mat_mul_shape (a v y : ndarray T) (m n : nat) (rest : list nat) :
  shape a = [m; n] -> shape v = n :: rest ->
  mat_mul a v = Ok y -> shape y = m :: rest.
Proof.
  intros Sa Sv E. unfold mat_mul in E.
  rewrite Sa, Sv, Nat.eqb_refl in E. now inversion E.
Qed.

(** When the planned order is [LT] with [x] first, the factored
    contraction is the textbook product taken twice: [ML.(LT.x)]. *)
Lemma dot_factored_mat_mul (sm : StateMatrix T) (v : ndarray T)
      (m k n : nat) (rest : list nat) :
  es_path_factored sm = bx_first ->
  shape (ML sm) = [m; k] -> shape (LT sm) = [k; n] ->
  shape v = n :: rest ->
  dot_factored sm v = (t <- mat_mul (LT sm) v ;; mat_mul (ML sm) t).
Proof.
  intros Ep Sm Sl Sv. unfold dot_factored, einsum_ij_jk_kE_iE.
  rewrite Ep.
  rewrite (einsum_ij_jE_iE_mat_mul (LT sm) v k n rest Sl Sv).
  destruct (mat_mul (LT sm) v) as [t|e] eqn:Et; [|reflexivity].
  cbn [bind].
  apply (einsum_ij_jE_iE_mat_mul (ML sm) t m k rest Sm).
  exact (mat_mul_shape _ _ _ k n rest Sl Sv Et).
Qed.

(** When the planned order is [ML] with [LT] first, the factored
    contraction rebuilds the dense matrix and is the classic one. *)
Lemma dot_factored_ab_first (sm : StateMatrix T) (v : ndarray T) :
  coherent sm -> es_path_factored sm = ab_first ->
  dot_factored sm v = dot_classic sm v.
Proof.
  intros (m & k & n & Sm & Sl & Ea) Ep.
  unfold dot_factored, dot_classic, einsum_ij_jk_kE_iE.
  now rewrite Ep, Ea.
Qed.

(** The contractions return on operands whose extents match. *)
Lemma einsum_ij_jk_ik_ok (a b : ndarray T) (m k n : nat) :
  shape a = [m; k] -> shape b = [k; n] ->
  exists y, einsum_ij_jk_ik a b = Ok y /\ shape y = [m; n].
Proof.
  intros Sa Sb. unfold einsum_ij_jk_ik. rewrite Sa, Sb, blabel_same.
  eexists. split; reflexivity.
Qed.

Lemma einsum_ij_jE_iE_ok (a v : ndarray T) (m n : nat) (rest : list nat) :
  shape a = [m; n] -> shape v = n :: rest ->
  exists y, einsum_ij_jE_iE a v = Ok y /\ shape y = m :: rest.
Proof.
  intros Sa Sv. unfold einsum_ij_jE_iE. rewrite Sa, Sv, blabel_same.
  eexists. split; reflexivity.
Qed.

Lemma einsum_ij_jk_kE_iE_ok (path : contraction_order)
      (a b v : ndarray T) (m k n : nat) (rest : list nat) :
  shape a = [m; k] -> shape b = [k; n] -> shape v = n :: rest ->
  exists y, einsum_ij_jk_kE_iE path a b v = Ok y /\ shape y = m :: rest.
Proof.
  intros Sa Sb Sv. destruct path; cbn [einsum_ij_jk_kE_iE].
  - destruct (einsum_ij_jk_ik_ok a b m k n Sa Sb) as (ab & E & Sab).
    rewrite E. cbn [bind]. exact (einsum_ij_jE_iE_ok ab v m n rest Sab Sv).
  - unfold einsum_outer_then_jk. rewrite Sa, Sb, Sv, !blabel_same.
    eexists. split; reflexivity.
  - destruct (einsum_ij_jE_iE_ok b v k n rest Sb Sv) as (bx & E & Sbx).
    rewrite E. cbn [bind]. exact (einsum_ij_jE_iE_ok a bx m k rest Sa Sbx).
  - unfold einsum_all_at_once. rewrite Sa, Sb, Sv, !blabel_same.
    eexists. split; reflexivity.
Qed.

Lemma dot_factored_ok (sm : StateMatrix T) (v : ndarray T) (m k n : nat)
      (rest : list nat) :
  shape (ML sm) = [m; k] -> shape (LT sm) = [k; n] ->
  shape v = n :: rest ->
  exists y, dot_factored sm v = Ok y /\ shape y = m :: rest.
Proof.
  intros Sm Sl Sv.
  exact (einsum_ij_jk_kE_iE_ok _ _ _ v m k n rest Sm Sl Sv).
Qed.

Lemma dot_classic_ok (sm : StateMatrix T) (v : ndarray T) (m n : nat)
      (rest : list nat) :
  shape (A sm) = [m; n] -> shape v = n :: rest ->
  exists y, dot_classic sm v = Ok y /\ shape y = m :: rest.
Proof. intros Sa Sv. exact (einsum_ij_jE_iE_ok _ v m n rest Sa Sv). Qed.

Hypothesis EA : exact_arith T.

Lemma ea_mul_swap_r (a b c : T) :
  s_mul (s_mul a b) c = s_mul (s_mul a c) b.
Proof.
  rewrite <- !(ea_mul_assoc EA). now rewrite (ea_mul_comm EA b c).
Qed.

(** In exact arithmetic, contracting with the dense [A] and contracting
    with [ML] and [LT], in whichever order, give the same result on every
    operand, errors included. *)
Lemma dot_classic_factored_coherent (sm : StateMatrix T) (v : ndarray T) :
  coherent sm -> dot_classic sm v = dot_factored sm v.
Proof.
  intros C.
  destruct (es_path_factored sm) eqn:Ep;
    [symmetry; now apply dot_factored_ab_first | | |];
    destruct C as (m & k & n & Sm & Sl & Ea);
    assert (Sa := coherent_shape_A sm m k n Sm Sl Ea);
    unfold dot_classic, dot_factored, einsum_ij_jk_kE_iE; rewrite Ep.
  - (* the outer product first *)
    unfold einsum_ij_jE_iE, einsum_outer_then_jk.
    rewrite Sm, Sl, Sa, blabel_same.
    destruct (shape v) as [|q rest]; [reflexivity|].
    simpl. destruct (blabel n q) as [nk|e] eqn:Eb; simpl; [|reflexivity].
    do 2 f_equal. apply tab2_ext. intros i l Hi Hl.
    transitivity
      (sum_upto nk (fun c =>
         sum_upto k (fun j =>
           s_mul (s_mul (get_rc k (ML sm) i j)
                        (get_rc n (LT sm) j (bidx n c)))
                 (get_rc (prod rest) v (bidx q c) l)))).
    + apply sum_upto_ext. intros c Hc.
      destruct (blabel_bidx _ _ _ _ Eb Hc) as (Hn & _).
      rewrite (A_entry _ _ _ _ _ _ _ _ Sm Sl Ea Hi Hn).
      now rewrite (sum_upto_mul_r EA).
    + rewrite (sum_upto_swap EA).
      apply sum_upto_ext. intros j Hj.
      apply sum_upto_ext. intros c Hc.
      rewrite !(bidx_lt k j) by assumption.
      apply ea_mul_swap_r.
  - (* [LT] with [x] first *)
    unfold einsum_ij_jE_iE at 1 2.
    rewrite Sl, Sa.
    destruct (shape v) as [|q rest] eqn:Sv; [reflexivity|].
    destruct (blabel n q) as [nk|e] eqn:Eb; cbn [bind]; [|reflexivity].
    unfold einsum_ij_jE_iE. rewrite Sm. cbn [shape].
    rewrite blabel_same. cbn [bind].
    do 2 f_equal. apply tab2_ext. intros i l Hi Hl.
    transitivity
      (sum_upto nk (fun c =>
         sum_upto k (fun j =>
           s_mul (s_mul (get_rc k (ML sm) i j)
                        (get_rc n (LT sm) j (bidx n c)))
                 (get_rc (prod rest) v (bidx q c) l)))).
    + apply sum_upto_ext. intros c Hc.
      destruct (blabel_bidx _ _ _ _ Eb Hc) as (Hn & _).
      rewrite (A_entry _ _ _ _ _ _ _ _ Sm Sl Ea Hi Hn).
      now rewrite (sum_upto_mul_r EA).
    + rewrite (sum_upto_swap EA).
      apply sum_upto_ext. intros j Hj.
      rewrite (bidx_lt k j) by assumption.
      rewrite get_rc_tab2 by assumption.
      rewrite (sum_upto_mul_l EA).
      apply sum_upto_ext. intros c Hc.
      symmetry. apply (ea_mul_assoc EA).
  - (* one contraction of the three operands *)
    unfold einsum_ij_jE_iE, einsum_all_at_once.
    rewrite Sm, Sl, Sa, blabel_same.
    destruct (shape v) as [|q rest]; [reflexivity|].
    simpl. destruct (blabel n q) as [nk|e] eqn:Eb; simpl; [|reflexivity].
    do 2 f_equal. apply tab2_ext. intros i l Hi Hl.
    transitivity
      (sum_upto nk (fun c =>
         sum_upto k (fun j =>
           s_mul (s_mul (get_rc k (ML sm) i j)
                        (get_rc n (LT sm) j (bidx n c)))
                 (get_rc (prod rest) v (bidx q c) l)))).
    + apply sum_upto_ext. intros c Hc.
      destruct (blabel_bidx _ _ _ _ Eb Hc) as (Hn & _).
      rewrite (A_entry _ _ _ _ _ _ _ _ Sm Sl Ea Hi Hn).
      now rewrite (sum_upto_mul_r EA).
    + rewrite (sum_upto_swap EA).
      apply sum_upto_ext. intros j Hj.
      apply sum_upto_ext. intros c Hc.
      now rewrite !(bidx_lt k j) by assumption.
Qed.

Lemma dot_classic_factored cov_yx inv_factor_xx clk sm (v : ndarray T) :
  StateMatrix_init cov_yx inv_factor_xx clk = Ok sm ->
  dot_classic sm v = dot_factored sm v.
Proof.
  intros E. apply dot_classic_factored_coherent.
  eapply StateMatrix_init_coherent; eauto.
Qed.

Lemma dot_is_classic_coherent (sm : StateMatrix T) (v : ndarray T) :
  coherent sm -> dot sm v = dot_classic sm v.
Proof.
  intros C. unfold dot. destruct (selected sm); [reflexivity|].
  symmetry. now apply dot_classic_factored_coherent.
Qed.


End StateMatrixFacts.

(** ** The innovation covariance *)

Section InnovationFacts.
Context {T : Type} `{Scalar T} `{Externals T}.
Import PhaseScreen.

Lemma mat_mul_2d (a b : ndarray T) (m n p : nat) :
  shape a = [m; n] -> shape b = [n; p] ->
  mat_mul a b
  = Ok (mk_nd [m; p]
          (tab2 m p (fun i l =>
             sum_upto n (fun k =>
               s_mul (get_rc n a i k) (get_rc p b k l))))).
Proof.
  intros Sa Sb. unfold mat_mul. rewrite Sa, Sb, Nat.eqb_refl.
  simpl. now rewrite Nat.mul_1_r.
Qed.





Lemma nd_sub_same_shape_ok (a b : ndarray T) (sh : list nat) :
  shape a = sh -> shape b = sh -> exists r, nd_sub a b = Ok r /\ shape r = sh.
Proof.
  intros Sa Sb. unfold nd_sub, zip_with, broadcast_shapes.
  rewrite Sa, Sb.
  assert (E : forall l, broadcast_rev l l = Ok l).
  { induction l as [|d l IH]; simpl; [reflexivity|].
    now rewrite blabel_same, IH. }
  rewrite E. simpl. rewrite rev_involutive. eexists; split; reflexivity.
Qed.

End InnovationFacts.

(** ** Shapes through construction and step *)

Ltac bind_inv E :=
  let a := fresh "a" in
  let Ea := fresh "E" a in
  apply bind_Ok in E as (a & Ea & E).

Tactic Notation "bind_split" hyp(E) "as" ident(a) ident(Ea) :=
  apply bind_Ok in E as (a & Ea & E).

Section ShapeFacts.
Context {T : Type} `{Scalar T} `{Externals T}.
Import PhaseScreen.

Lemma blabel_1_r (d : nat) : blabel d 1 = Ok d.
Proof.
  unfold blabel. destruct (Nat.eqb_spec d 1); [now subst|reflexivity].
Qed.

Lemma zip_with_shape (op : T -> T -> T) (a b r : ndarray T) :
  zip_with op a b = Ok r ->
  broadcast_shapes (shape a) (shape b) = Ok (shape r).
Proof.
  unfold zip_with. intros E. bind_inv E. inversion E; subst.
  now rewrite Ea0.
Qed.

Lemma broadcast_row (r c : nat) : broadcast_shapes [r; c] [1; c] = Ok [r; c].
Proof.
  unfold broadcast_shapes. simpl.
  now rewrite blabel_same, blabel_1_r.
Qed.

Lemma broadcast_same_1d (n : nat) : broadcast_shapes [n] [n] = Ok [n].
Proof. unfold broadcast_shapes. simpl. now rewrite blabel_same. Qed.

Lemma eigh_shapes (m vals vecs : ndarray T) :
  eigh m = Ok (vals, vecs) ->
  exists r, shape m = [r; r] /\ shape vals = [r] /\ shape vecs = [r; r].
Proof.
  unfold eigh. intros E.
  destruct (shape m) as [|r [|c [|]]]; try discriminate.
  destruct (Nat.eqb_spec r c); [subst c|discriminate].
  destruct (eigh_sym r (data m)) as [w v]. inversion E; subst.
  exists r. auto.
Qed.

(** The factor and the inverse factor have the rows of the matrix and one
    column per retained eigenvalue. *)
Lemma _factorh_shapes (self : obj T) (m : ndarray T) (n_modes : option Z)
      (f fi : ndarray T) :
  _factorh self m n_modes = Ok (f, fi) ->
  exists r c, shape m = [r; r] /\ shape f = [r; c] /\ shape fi = [r; c].
Proof.
  unfold _factorh. intros E.
  bind_inv E. destruct a as [vals vecs].
  destruct (eigh_shapes _ _ _ Ea) as (r & Sm & Sw & Sv).
  bind_inv E.
  assert (Sva : shape a = [r]).
  { unfold valid_modes in Ea0. destruct n_modes as [n|].
    - bind_inv Ea0. inversion Ea0; subst. exact Sw.
    - inversion Ea0; subst. exact Sw. }
  bind_inv E. bind_inv E. bind_inv E. bind_inv E.
  inversion E; subst f fi; clear E.
  unfold select_cols in Ea1. rewrite Sv, Sva, Nat.eqb_refl in Ea1.
  inversion Ea1; subst a0; clear Ea1.
  unfold mask_select in Ea2. rewrite Sw, Sva in Ea2. simpl in Ea2.
  rewrite Nat.eqb_refl in Ea2. simpl in Ea2.
  inversion Ea2; subst a1; clear Ea2.
  apply zip_with_shape in Ea3, Ea4. simpl in Ea3, Ea4.
  rewrite Nat.mul_1_r in Ea3, Ea4.
  rewrite broadcast_row in Ea3, Ea4.
  inversion Ea3. inversion Ea4.
  exists r, (length (filter (fun j => nth j (data a) false) (seq 0 r))).
  auto.
Qed.

End ShapeFacts.

Section ScreenFacts.
Context {T : Type} `{Scalar T} `{Externals T}.
Import PhaseScreen.

(** Both strategies return a value on an operand of matching leading
    extent, of the expected shape. *)
Lemma dot_ok (sm : StateMatrix T) (v : ndarray T) (m n : nat)
      (rest : list nat) :
  coherent sm -> shape (A sm) = [m; n] -> shape v = n :: rest ->
  exists y, dot sm v = Ok y /\ shape y = m :: rest.
Proof.
  intros (m' & k & n' & Sm & Sl & Ea) Sa Sv.
  assert (Sa' := coherent_shape_A sm m' k n' Sm Sl Ea).
  rewrite Sa in Sa'. inversion Sa'; subst m' n'.
  unfold dot. destruct (selected sm).
  - exact (dot_classic_ok sm v m n rest Sa Sv).
  - exact (dot_factored_ok sm v m k n rest Sm Sl Sv).
Qed.

Lemma _covariance_shape (self : obj T) (x_in y_in x_out y_out : ndarray T) :
  shape (_covariance self x_in y_in x_out y_out)
  = [prod (shape x_out); prod (shape x_in)].
Proof. reflexivity. Qed.

Lemma innovation_covariance_shape (sm : StateMatrix T)
      (sigma_xx sigma_vv : ndarray T) (n : nat) :
  coherent sm -> shape (A sm) = [n; n] -> shape sigma_xx = [n; n] ->
  innovation_covariance sm sigma_xx = Ok sigma_vv ->
  shape sigma_vv = [n; n].
Proof.
  intros C Sa Ss E. unfold innovation_covariance in E.
  destruct (dot_ok sm sigma_xx n n [n] C Sa Ss) as (d1 & E1 & S1).
  rewrite E1 in E. simpl in E.
  assert (S1t : shape (transpose d1) = [n; n])
    by (unfold transpose; now rewrite S1).
  destruct (dot_ok sm _ n n [n] C Sa S1t) as (d2 & E2 & S2).
  rewrite E2 in E. simpl in E.
  assert (S2t : shape (transpose d2) = [n; n])
    by (unfold transpose; now rewrite S2).
  apply zip_with_shape in E. rewrite Ss, S2t in E.
  unfold broadcast_shapes in E. simpl in E.
  rewrite blabel_same in E. simpl in E. now inversion E.
Qed.

Lemma normal_shape (g : Gen) (size : list nat) :
  shape (fst (normal g size)) = size.
Proof.
  unfold normal. now destruct (normal_list (prod size) g).
Qed.

(** Construction establishes the invariant. *)
Lemma init_well_formed (g : globals) (clk : clock T) (self ps : obj T) :
  __init__ g clk self = Ok ps -> well_formed ps.
Proof.
  unfold __init__. intros E.
  bind_split E as d0 Ed0. bind_split E as pix Epix.
  bind_split E as pw Epw.
  destruct (mgrid_scaled pw pix) as [yy0 xx0].
  bind_split E as yy Eyy. bind_split E as xx Exx.
  bind_split E as fac Efac. destruct fac as [fxx inv_factor_xx].
  bind_split E as w0 Ew0. bind_split E as w1 Ew1.
  bind_split E as sm Esm. bind_split E as sigma_vv Esvv.
  bind_split E as fac Efac2. destruct fac as [fvv fvi].
  bind_split E as c0 Ec0.
  destruct (normal (default_rng (seed self)) [c0]) as [z rng1] eqn:En.
  bind_split E as x0 Ex0. inversion E; subst ps; clear E.
  (* shapes *)
  destruct (_factorh_shapes _ _ _ _ _ Efac) as (p & c & Sxx & Sf & Sfi).
  rewrite _covariance_shape in Sxx. inversion Sxx as [[Ep Ep']].
  assert (C := StateMatrix_init_coherent _ _ _ _ Esm).
  destruct (StateMatrix_init_shapes _ _ _ _ Esm)
    as (m & k & n & Sm & Sl & Sa & Si & Hm).
  rewrite Sfi in Si. inversion Si; subst n k.
  simpl in Hm. subst m.
  assert (Sa' : shape (A sm) = [p; p]) by now rewrite Sa, <- Ep.
  assert (Ssxx : shape (_covariance self xx yy xx yy) = [p; p])
    by now rewrite _covariance_shape, <- Ep.
  assert (Svv := innovation_covariance_shape _ _ _ p C Sa' Ssxx Esvv).
  destruct (_factorh_shapes _ _ _ _ _ Efac2) as (p' & c' & Svv' & Sfv & _).
  rewrite Svv in Svv'. inversion Svv'; subst p'.
  unfold shape_at in Ec0. rewrite Sf in Ec0. simpl in Ec0.
  inversion Ec0; subst c0.
  assert (Sz : shape z = [c]).
  { rewrite <- (normal_shape (default_rng (seed self)) [c]).
    now rewrite En. }
  unfold matvec in Ex0. rewrite Sf, Sz, Nat.eqb_refl in Ex0.
  inversion Ex0; subst x0.
  exists sm, fvv, (mk_nd [p] (tabulate p (fun i =>
     sum_upto c (fun j => s_mul (get_rc c fxx i j) (get_flat z j))))),
    rng1, p, c'.
  simpl. repeat split; auto.
Qed.

(** What [step()] does on a well-formed PhaseScreen. *)
Lemma step_well_formed (ps : obj T) :
  well_formed ps ->
  exists sm fvv x0 g0 n m v g1 ax fv x1,
    state_matrix ps = Some sm /\ factor_vv ps = Some fvv
    /\ x ps = Some x0 /\ rng ps = Some g0
    /\ shape fvv = [n; m] /\ shape x0 = [n]
    /\ normal g0 [m] = (v, g1) /\ shape v = [m]
    /\ dot sm x0 = Ok ax /\ matvec fvv v = Ok fv /\ nd_add ax fv = Ok x1
    /\ shape x1 = [n]
    /\ step ps
       = Ok {| pupil := pupil ps; r0 := r0 ps; L0 := L0 ps;
               diam := diam ps; laminar := laminar ps; wind := wind ps;
               ittime := ittime ps; pixsize := pixsize ps;
               thresh := thresh ps; xx_max := xx_max ps;
               vv_max := vv_max ps; factor_xx := factor_xx ps;
               factor_vv := factor_vv ps; x := Some x1; seed := seed ps;
               rng := Some g1; state_matrix := state_matrix ps |}.
Proof.
  intros (sm & fvv & x0 & g0 & n & m & Esm & Efvv & Ex & Eg & C & Sa
          & Sf & Sx).
  destruct (normal g0 [m]) as [v g1] eqn:En.
  assert (Sv : shape v = [m]).
  { rewrite <- (normal_shape g0 [m]). now rewrite En. }
  destruct (dot_ok sm x0 n n [] C Sa Sx) as (ax & Eax & Sax).
  assert (Efv : matvec fvv v
                = Ok (mk_nd [n] (tabulate n (fun i =>
                    sum_upto m (fun j =>
                      s_mul (get_rc m fvv i j) (get_flat v j)))))).
  { unfold matvec. now rewrite Sf, Sv, Nat.eqb_refl. }
  set (fv := mk_nd [n] _) in Efv.
  assert (Ex1 : exists x1, nd_add ax fv = Ok x1 /\ shape x1 = [n]).
  { unfold nd_add, zip_with. rewrite Sax. simpl shape.
    rewrite broadcast_same_1d. simpl. eexists; split; reflexivity. }
  destruct Ex1 as (x1 & Ex1 & Sx1).
  exists sm, fvv, x0, g0, n, m, v, g1, ax, fv, x1.
  repeat (split; [assumption|]).
  unfold step. rewrite Efvv. simpl.
  unfold shape_at. rewrite Sf. simpl. rewrite Eg. simpl.
  rewrite En, Esm. simpl. rewrite Ex. simpl.
  rewrite Eax. simpl. rewrite Efv. simpl. rewrite Ex1. reflexivity.
Qed.

Lemma step_preserves_well_formed (ps ps' : obj T) :
  well_formed ps -> step ps = Ok ps' -> well_formed ps'.
Proof.
  intros W E.
  assert (W' := W).
  destruct W' as (sm0 & fvv0 & x00 & g00 & n0 & m0 & Esm0 & Efvv0 & _ & _
                  & C & Sa & Sf0 & _).
  destruct (step_well_formed ps W)
    as (sm & fvv & x0 & g0 & n & m & v & g1 & ax & fv & x1 & Esm & Efvv
        & Ex & Eg & Sf & Sx & En & Sv & Eax & Efv & Ex1 & Sx1 & Es).
  rewrite Es in E. inversion E; subst ps'; clear E.
  rewrite Esm in Esm0. inversion Esm0; subst sm0.
  rewrite Efvv in Efvv0. inversion Efvv0; subst fvv0.
  rewrite Sf in Sf0. inversion Sf0; subst n0 m0.
  exists sm, fvv, x1, g1, n, m. simpl. repeat split; auto.
Qed.


End ScreenFacts.

(** ** Two constructions that differ only in the benchmark clock *)

Lemma rel_result_bind {A B A' B' : Type} (R : A -> A' -> Prop)
      (Q : B -> B' -> Prop) (c1 : result A) (c2 : result A')
      (k1 : A -> result B) (k2 : A' -> result B') :
  rel_result R c1 c2 ->
  (forall a a', R a a' -> rel_result Q (k1 a) (k2 a')) ->
  rel_result Q (bind c1 k1) (bind c2 k2).
Proof.
  destruct c1 as [a|e], c2 as [a'|e']; simpl; intros Hc Hk;
    try contradiction; auto.
Qed.

Lemma rel_result_bind_same {A B B' : Type} (Q : B -> B' -> Prop)
      (c : result A) (k1 : A -> result B) (k2 : A -> result B') :
  (forall a, rel_result Q (k1 a) (k2 a)) ->
  rel_result Q (bind c k1) (bind c k2).
Proof. destruct c as [a|e]; simpl; auto. Qed.

Lemma rel_result_eq {A : Type} (c1 c2 : result A) :
  rel_result eq c1 c2 -> c1 = c2.
Proof.
  destruct c1, c2; simpl; intros E; try contradiction; now subst.
Qed.

Lemma bind_ext {A B : Type} (c : result A) (k1 k2 : A -> result B) :
  (forall a, k1 a = k2 a) -> bind c k1 = bind c k2.
Proof. intros E. destruct c; simpl; [apply E | reflexivity]. Qed.

Section ClockIndependence.
Context {T : Type} `{Scalar T} `{Externals T}.
Import PhaseScreen.

(** The constructor selects what the benchmark decided. *)
Lemma StateMatrix_init_verdict (cov_yx inv_factor_xx : ndarray T)
      (clk : clock T) (sm : StateMatrix T) :
  StateMatrix_init cov_yx inv_factor_xx clk = Ok sm ->
  selected sm = benchmark_verdict clk.
Proof.
  unfold StateMatrix_init. intros E.
  bind_split E as ml Eml. bind_split E as a Ea. bind_split E as n En.
  bind_split E as path Ep. bind_split E as res Eres.
  unfold test_speed in Eres.
  bind_split Eres as n' En'. bind_split Eres as y1 E1.
  bind_split Eres as y2 E2.
  cbn [Nat.eqb] in Eres. inversion Eres; subst res; clear Eres.
  cbn [factored classic] in E. unfold benchmark_verdict.
  destruct (s_ltb _ _); inversion E; reflexivity.
Qed.

(** Two benchmarks with the same verdict leave the same state matrix. *)
Lemma StateMatrix_init_same_verdict (cov_yx inv_factor_xx : ndarray T)
      (clk1 clk2 : clock T) :
  benchmark_verdict clk1 = benchmark_verdict clk2 ->
  StateMatrix_init cov_yx inv_factor_xx clk1
  = StateMatrix_init cov_yx inv_factor_xx clk2.
Proof.
  intros V. unfold StateMatrix_init.
  apply bind_ext; intros ml. apply bind_ext; intros a.
  apply bind_ext; intros n. apply bind_ext; intros path.
  unfold test_speed.
  destruct (shape_at _ 1) as [n'|e]; [|reflexivity]. cbn [bind].
  destruct (dot_factored _ _) as [y1|e]; [|reflexivity]. cbn [bind].
  destruct (dot_classic _ _) as [y2|e]; [|reflexivity].
  cbn [bind Nat.eqb factored classic].
  unfold benchmark_verdict in V.
  destruct (s_ltb _ _), (s_ltb _ _); try reflexivity; discriminate V.
Qed.

Lemma init_same_verdict (g : globals) (clk1 clk2 : clock T)
      (self : obj T) :
  benchmark_verdict clk1 = benchmark_verdict clk2 ->
  __init__ g clk1 self = __init__ g clk2 self.
Proof.
  intros V. unfold __init__.
  apply bind_ext; intros d0. apply bind_ext; intros pix.
  apply bind_ext; intros pw.
  destruct (mgrid_scaled pw pix) as [yy0 xx0].
  apply bind_ext; intros yy. apply bind_ext; intros xx.
  apply bind_ext; intros [fxx inv_factor_xx].
  apply bind_ext; intros w0. apply bind_ext; intros w1.
  now rewrite (StateMatrix_init_same_verdict _ _ clk1 clk2 V).
Qed.

Lemma init_verdict (g : globals) (clk : clock T) (self ps : obj T) :
  __init__ g clk self = Ok ps ->
  exists sm, state_matrix ps = Some sm
             /\ selected sm = benchmark_verdict clk.
Proof.
  unfold __init__. intros E.
  bind_split E as d0 Ed0. bind_split E as pix Epix.
  bind_split E as pw Epw.
  destruct (mgrid_scaled pw pix) as [yy0 xx0].
  bind_split E as yy Eyy. bind_split E as xx Exx.
  bind_split E as fac Efac. destruct fac as [fxx inv_factor_xx].
  bind_split E as w0 Ew0. bind_split E as w1 Ew1.
  bind_split E as sm Esm. bind_split E as sigma_vv Esvv.
  bind_split E as fac Efac2. destruct fac as [fvv fvi].
  bind_split E as c0 Ec0.
  destruct (normal (default_rng (seed self)) [c0]) as [z rng1] eqn:En.
  bind_split E as x0 Ex0. inversion E; subst ps; clear E.
  exists sm. split; [reflexivity|].
  exact (StateMatrix_init_verdict _ _ _ _ Esm).
Qed.

Lemma state_after_same_verdict (g : globals) (clk1 clk2 : clock T)
      (self : obj T) (k : nat) :
  benchmark_verdict clk1 = benchmark_verdict clk2 ->
  state_after g clk1 self k = state_after g clk2 self k.
Proof.
  intros V. unfold state_after. now rewrite (init_same_verdict g clk1 clk2).
Qed.

Hypothesis EA : exact_arith T.

Lemma same_matrices_fields (sm1 sm2 : StateMatrix T) :
  same_matrices sm1 sm2 ->
  ML sm1 = ML sm2 /\ LT sm1 = LT sm2 /\ A sm1 = A sm2.
Proof.
  unfold same_matrices, with_selected. intros E.
  inversion E. auto.
Qed.

Lemma same_matrices_coherent (sm1 sm2 : StateMatrix T) :
  same_matrices sm1 sm2 -> coherent sm1 -> coherent sm2.
Proof.
  intros S (m & k & n & Sm & Sl & Ea).
  destruct (same_matrices_fields _ _ S) as (E1 & E2 & E3).
  exists m, k, n. now rewrite <- E1, <- E2, <- E3.
Qed.

(** The selected strategy does not change what [dot] returns. *)
Lemma same_matrices_dot (sm1 sm2 : StateMatrix T) (v : ndarray T) :
  same_matrices sm1 sm2 -> coherent sm1 -> dot sm1 v = dot sm2 v.
Proof.
  intros S C.
  rewrite (dot_is_classic_coherent EA sm1 v C).
  rewrite (dot_is_classic_coherent EA sm2 v
             (same_matrices_coherent _ _ S C)).
  unfold dot_classic.
  destruct (same_matrices_fields _ _ S) as (_ & _ & E3). now rewrite E3.
Qed.

Lemma same_matrices_innovation (sm1 sm2 : StateMatrix T) (s : ndarray T) :
  same_matrices sm1 sm2 -> coherent sm1 ->
  innovation_covariance sm1 s = innovation_covariance sm2 s.
Proof.
  intros S C. unfold innovation_covariance.
  rewrite (same_matrices_dot sm1 sm2 s S C).
  destruct (dot sm2 s) as [d1|e]; simpl; [|reflexivity].
  now rewrite (same_matrices_dot sm1 sm2 _ S C).
Qed.

(** The clock only decides the selected strategy. *)
Lemma StateMatrix_init_clock (cov_yx inv_factor_xx : ndarray T)
      (clk1 clk2 : clock T) :
  rel_result (fun sm1 sm2 => same_matrices sm1 sm2 /\ coherent sm1)
    (StateMatrix_init cov_yx inv_factor_xx clk1)
    (StateMatrix_init cov_yx inv_factor_xx clk2).
Proof.
  destruct (StateMatrix_init cov_yx inv_factor_xx clk1) as [sm1|e1] eqn:E1.
  - assert (C := StateMatrix_init_coherent _ _ _ _ E1).
    revert E1. unfold StateMatrix_init.
    destruct (einsum_ij_jk_ik cov_yx inv_factor_xx) as [ml|e];
      simpl; [|discriminate].
    destruct (einsum_ij_jk_ik ml (transpose inv_factor_xx)) as [a|e];
      simpl; [|discriminate].
    unfold test_speed. cbn [A].
    destruct (shape_at a 1) as [n|e]; simpl; [|discriminate].
    destruct (einsum_path_factored _ _ _) as [path|e]; simpl;
      [|discriminate].
    destruct (dot_factored _ _) as [y1|e]; simpl; [|discriminate].
    destruct (dot_classic _ _) as [y2|e]; simpl; [|discriminate].
    intros E1.
    destruct (s_ltb _ _) in E1; inversion E1; subst sm1;
      destruct (s_ltb _ _); simpl; split; auto; reflexivity.
  - revert E1. unfold StateMatrix_init.
    destruct (einsum_ij_jk_ik cov_yx inv_factor_xx) as [ml|e];
      simpl; [|intros E; now inversion E].
    destruct (einsum_ij_jk_ik ml (transpose inv_factor_xx)) as [a|e];
      simpl; [|intros E; now inversion E].
    unfold test_speed. cbn [A].
    destruct (shape_at a 1) as [n|e]; simpl; [|intros E; now inversion E].
    destruct (einsum_path_factored _ _ _) as [path|e]; simpl;
      [|intros E; now inversion E].
    destruct (dot_factored _ _) as [y1|e]; simpl;
      [|intros E; now inversion E].
    destruct (dot_classic _ _) as [y2|e]; simpl;
      [|intros E; now inversion E].
    destruct (s_ltb _ _); discriminate.
Qed.

Lemma init_clock_independent (g : globals) (clk1 clk2 : clock T)
      (self : obj T) :
  rel_result sim (__init__ g clk1 self) (__init__ g clk2 self).
Proof.
  unfold __init__.
  apply rel_result_bind_same; intros d0.
  apply rel_result_bind_same; intros pix.
  apply rel_result_bind_same; intros pw.
  destruct (mgrid_scaled pw pix) as [yy0 xx0].
  apply rel_result_bind_same; intros yy.
  apply rel_result_bind_same; intros xx.
  apply rel_result_bind_same; intros [fxx inv_factor_xx].
  apply rel_result_bind_same; intros w0.
  apply rel_result_bind_same; intros w1.
  eapply rel_result_bind; [apply StateMatrix_init_clock|].
  intros sm1 sm2 (S & C).
  rewrite (same_matrices_innovation sm1 sm2 _ S C).
  apply rel_result_bind_same; intros sigma_vv.
  apply rel_result_bind_same; intros [fvv fvi].
  apply rel_result_bind_same; intros c0.
  destruct (normal _ _) as [z rng1].
  apply rel_result_bind_same; intros x0.
  simpl. split.
  - unfold erase_strategy; simpl. unfold same_matrices in S. now rewrite S.
  - simpl. intros sm E. now inversion E; subst.
Qed.

Lemma step_sim (p1 p2 : obj T) :
  sim p1 p2 -> rel_result sim (step p1) (step p2).
Proof.
  intros (E & C). unfold step.
  assert (Ef : factor_vv p1 = factor_vv p2)
    by exact (f_equal factor_vv E).
  assert (Eg : rng p1 = rng p2) by exact (f_equal rng E).
  assert (Ex : x p1 = x p2) by exact (f_equal x E).
  assert (Es := f_equal state_matrix E). simpl in Es.
  rewrite <- Ef, <- Eg, <- Ex.
  apply rel_result_bind_same; intros fvv.
  apply rel_result_bind_same; intros m.
  apply rel_result_bind_same; intros g0.
  destruct (normal g0 [m]) as [v g1].
  destruct (state_matrix p1) as [sm1|] eqn:E1,
           (state_matrix p2) as [sm2|] eqn:E2; simpl in Es;
    try discriminate; simpl; [|reflexivity].
  assert (S : same_matrices sm1 sm2) by (unfold same_matrices; congruence).
  assert (C1 : coherent sm1) by now apply C.
  apply rel_result_bind_same; intros x0.
  rewrite (same_matrices_dot sm1 sm2 x0 S C1).
  apply rel_result_bind_same; intros ax.
  apply rel_result_bind_same; intros fv.
  apply rel_result_bind_same; intros x1.
  simpl. split.
  - unfold erase_strategy in *; simpl. rewrite E1, E2 in E. simpl in E.
    inversion E.
    repeat match goal with
           | Hq : ?f p1 = ?f p2 |- _ => rewrite Hq; clear Hq
           end.
    unfold same_matrices in S. now rewrite S.
  - simpl. exact C.
Qed.

Lemma steps_sim (k : nat) (p1 p2 : obj T) :
  sim p1 p2 -> rel_result sim (steps k p1) (steps k p2).
Proof.
  revert p1 p2. induction k as [|k IH]; intros p1 p2 S; simpl.
  - exact S.
  - eapply rel_result_bind; [apply step_sim; exact S|].
    intros a a' S'. now apply IH.
Qed.

Lemma state_after_clock (g : globals) (clk1 clk2 : clock T) (self : obj T)
      (k : nat) :
  state_after g clk1 self k = state_after g clk2 self k.
Proof.
  apply rel_result_eq. unfold state_after.
  eapply rel_result_bind; [apply init_clock_independent|].
  intros p1 p2 S.
  eapply rel_result_bind; [apply steps_sim; exact S|].
  intros q1 q2 (E & _). simpl. exact (f_equal x E).
Qed.

End ClockIndependence.

(** *** The pairwise sum *)

(** A relation that additions preserve holds between two pairwise sums
    whose terms are related. *)
Section PairwiseRelated.
Import ClassicCog.
Variable R : spec_float -> spec_float -> Prop.
Hypothesis R_add : forall x x' y y',
  R x x' -> R y y' -> R (s_add x y) (s_add x' y').
Hypothesis R_neg_zero : R neg_zero neg_zero.

Lemma add_run_related (f g : nat -> spec_float) (n off : nat)
      (acc acc' : spec_float) :
  (forall k, off <= k < off + n -> R (f k) (g k)) ->
  R acc acc' ->
  R (add_run f off n acc) (add_run g off n acc').
Proof.
  revert off acc acc'. induction n as [|n IH]; intros off acc acc' Hf Ha.
  - exact Ha.
  - simpl. apply IH.
    + intros k Hk. apply Hf. lia.
    + apply R_add; [exact Ha | apply Hf; lia].
Qed.

Lemma add_stride8_related (f g : nat -> spec_float) (b start : nat)
      (acc acc' : spec_float) :
  (forall i, i < b -> R (f (start + 8 * i)) (g (start + 8 * i))) ->
  R acc acc' ->
  R (add_stride8 f start b acc) (add_stride8 g start b acc').
Proof.
  revert start acc acc'. induction b as [|b IH]; intros start acc acc' Hf Ha.
  - exact Ha.
  - simpl. apply IH.
    + intros i Hi. replace (start + 8 + 8 * i) with (start + 8 * S i) by lia.
      apply Hf. lia.
    + apply R_add; [exact Ha|].
      replace start with (start + 8 * 0) by lia. apply Hf. lia.
Qed.

Lemma block_sum_related (f g : nat -> spec_float) (off n : nat) :
  8 <= n ->
  (forall k, off <= k < off + n -> R (f k) (g k)) ->
  R (block_sum f off n) (block_sum g off n).
Proof.
  intros Hn Hf. unfold block_sum.
  assert (Hd : 8 * (n / 8) <= n) by (apply Nat.Div0.mul_div_le).
  assert (Hq : 1 <= n / 8) by (apply Nat.div_le_lower_bound; lia).
  assert (Hm := Nat.div_mod_eq n 8).
  assert (Lane : forall j, j < 8 ->
            R (add_stride8 f (off + 8 + j) (n / 8 - 1) (f (off + j)))
              (add_stride8 g (off + 8 + j) (n / 8 - 1) (g (off + j)))).
  { intros j Hj. apply add_stride8_related.
    - intros i Hi. apply Hf. lia.
    - apply Hf. lia. }
  apply add_run_related.
  - intros k Hk. apply Hf. lia.
  - repeat apply R_add; apply Lane; lia.
Qed.

Lemma pairwise_sum_related (fuel : nat) (f g : nat -> spec_float)
      (off n : nat) :
  (forall k, off <= k < off + n -> R (f k) (g k)) ->
  R (pairwise_sum fuel f off n) (pairwise_sum fuel g off n).
Proof.
  revert off n.
  induction fuel as [|fuel IH]; intros off n Hf; cbn [pairwise_sum].
  - destruct (n <? 8) eqn:E8.
    + apply add_run_related; [exact Hf | exact R_neg_zero].
    + apply Nat.ltb_ge in E8.
      destruct (n <=? 128); now apply block_sum_related.
  - destruct (n <? 8) eqn:E8.
    + apply add_run_related; [exact Hf | exact R_neg_zero].
    + apply Nat.ltb_ge in E8.
      destruct (n <=? 128); [now apply block_sum_related|].
      assert (H2 : n / 2 - (n / 2) mod 8 <= n).
      { assert (n / 2 <= n) by (apply Nat.Div0.div_le_upper_bound; lia).
        lia. }
      cbv zeta.
      apply R_add; apply IH; intros k Hk; apply Hf; lia.
Qed.

End PairwiseRelated.

Section PairwiseFacts.
Import ClassicCog.

(** The fuel does not matter once it covers the run. *)
Lemma pairwise_sum_fuel (fuel1 fuel2 : nat) (f : nat -> spec_float)
      (off n : nat) :
  n <= fuel1 -> n <= fuel2 ->
  pairwise_sum fuel1 f off n = pairwise_sum fuel2 f off n.
Proof.
  revert fuel2 off n.
  induction fuel1 as [|fuel1 IH]; intros fuel2 off n H1 H2.
  - assert (n = 0) by lia. subst n. destruct fuel2; reflexivity.
  - destruct fuel2 as [|fuel2].
    + assert (n = 0) by lia. subst n. reflexivity.
    + cbn [pairwise_sum]. destruct (n <? 8) eqn:E8; [reflexivity|].
      destruct (n <=? 128) eqn:E128; [reflexivity|]. cbv zeta.
      apply Nat.leb_gt in E128.
      assert (Hh : 64 <= n / 2) by (apply Nat.div_le_lower_bound; lia).
      assert (Hu : n / 2 < n) by (apply Nat.div_lt; lia).
      assert (Hr : (n / 2) mod 8 < 8) by (apply Nat.mod_upper_bound; lia).
      f_equal; apply IH; lia.
Qed.

Lemma np_sum_ext (n : nat) (f g : nat -> spec_float) :
  (forall k, k < n -> f k = g k) -> np_sum n f = np_sum n g.
Proof.
  intros E. unfold np_sum. destruct (n =? 0); [reflexivity|].
  f_equal.
  apply (pairwise_sum_related eq); [intros; congruence | reflexivity |].
  intros k Hk. apply E. lia.
Qed.

End PairwiseFacts.

(** ** Floating-point facts used by the centroider *)

Section FloatFacts.

(** The IEEE product commutes. *)
Lemma mul_comm (x y : spec_float) : s_mul x y = s_mul y x.
Proof.
  destruct x as [sx|sx| |sx mx ex], y as [sy|sy| |sy my ey]; simpl;
    try reflexivity; try (now rewrite xorb_comm).
  now rewrite xorb_comm, Pos.mul_comm, Z.add_comm.
Qed.

Lemma sub_zero (v : spec_float) : s_sub v Float64.zero = v.
Proof. destruct v as [[|]|[|]| |s m e]; reflexivity. Qed.

Lemma clamp_zero (v : spec_float) :
  ClassicCog.clamp Float64.zero v
  = if SFltb v Float64.zero then Float64.zero else v.
Proof. unfold ClassicCog.clamp. now rewrite sub_zero. Qed.

(** After the thresholding branch no weight compares below zero. *)
Lemma clamp_not_negative (t v : spec_float) :
  SFltb (ClassicCog.clamp t v) Float64.zero = false.
Proof.
  unfold ClassicCog.clamp.
  destruct (SFltb (s_sub v t) Float64.zero) eqn:E; [reflexivity | exact E].
Qed.



Lemma add_zero_or_nan (x y : spec_float) :
  Float64.zero_or_nan x = true -> Float64.zero_or_nan y = true ->
  Float64.zero_or_nan (s_add x y) = true.
Proof.
  destruct x as [[|]| | |], y as [[|]| | |]; simpl; intros; try discriminate;
    reflexivity.
Qed.

Lemma mul_zero_l_zero_or_nan (x y : spec_float) :
  Float64.is_zero x = true -> Float64.zero_or_nan (s_mul x y) = true.
Proof.
  destruct x as [sx| | |]; try discriminate. intros _.
  destruct y; reflexivity.
Qed.

Lemma one_mul_zero (y : spec_float) :
  Float64.is_zero y = true -> Float64.is_zero (s_mul Float64.one y) = true.
Proof. destruct y; try discriminate; reflexivity. Qed.

Lemma add_zero_zero (x y : spec_float) :
  Float64.is_zero x = true -> Float64.is_zero y = true ->
  Float64.is_zero (s_add x y) = true.
Proof.
  destruct x as [[|]| | |], y as [[|]| | |]; simpl; intros; try discriminate;
    reflexivity.
Qed.

Lemma np_sum_all_zero (n : nat) (f : nat -> spec_float) :
  (forall k, k < n -> Float64.is_zero (f k) = true) ->
  Float64.is_zero (ClassicCog.np_sum n f) = true.
Proof.
  intros Hf. unfold ClassicCog.np_sum. destruct (n =? 0); [reflexivity|].
  apply add_zero_zero; [reflexivity|].
  apply (pairwise_sum_related
           (fun x _ => Float64.is_zero x = true)) with (g := f).
  - intros x x' y y' Hx Hy. now apply add_zero_zero.
  - reflexivity.
  - intros k Hk. apply Hf. lia.
Qed.

Lemma sum_upto_zero_or_nan (n : nat) (f : nat -> spec_float) :
  (forall k, k < n -> Float64.zero_or_nan (f k) = true) ->
  Float64.zero_or_nan (sum_upto n f) = true.
Proof.
  induction n as [|n IH]; intros Hf; simpl; [reflexivity|].
  apply add_zero_or_nan; [apply IH; intros; apply Hf; lia | apply Hf; lia].
Qed.

Lemma sum_upto_all_zero (n : nat) (f : nat -> spec_float) :
  (forall k, k < n -> Float64.is_zero (f k) = true) ->
  Float64.is_zero (sum_upto n f) = true.
Proof.
  induction n as [|n IH]; intros Hf; simpl; [reflexivity|].
  apply add_zero_zero; [apply IH; intros; apply Hf; lia | apply Hf; lia].
Qed.

Lemma zero_or_nan_div_zero (x y : spec_float) :
  Float64.zero_or_nan x = true -> Float64.is_zero y = true ->
  s_div x y = Float64.nan.
Proof.
  destruct y as [sy| | |]; try discriminate.
  destruct x as [sx| | |]; simpl; intros; try discriminate; reflexivity.
Qed.

End FloatFacts.

(** ** Broadcast offsets *)

Lemma length_unravel (sh : list nat) (k : nat) :
  length (unravel sh k) = length sh.
Proof.
  revert k. induction sh as [|d rest IH]; intros k; simpl; [reflexivity|].
  now rewrite IH.
Qed.

Lemma ravel_unravel_bidx (sh : list nat) (k : nat) :
  k < prod sh ->
  ravel sh (map (fun p => bidx (fst p) (snd p)) (combine sh (unravel sh k)))
  = k.
Proof.
  revert k. induction sh as [|d rest IH]; intros k Hk; simpl in *.
  - lia.
  - assert (HP : 0 < prod rest) by (destruct (prod rest); lia).
    rewrite IH by (apply Nat.mod_upper_bound; lia).
    rewrite bidx_lt.
    + rewrite (Nat.div_mod_eq k (prod rest)) at 3. lia.
    + apply Nat.Div0.div_lt_upper_bound. lia.
Qed.

(** In an operand that already has the broadcast shape, position [k] of
    the result reads position [k]. *)
Lemma bcast_offset_full (sh : list nat) (k : nat) :
  k < prod sh -> bcast_offset sh (unravel sh k) = k.
Proof.
  intros Hk. unfold bcast_offset.
  rewrite length_unravel, Nat.sub_diag. simpl skipn.
  now apply ravel_unravel_bidx.
Qed.

(** In a column [N x 1] broadcast against [N x 2], position [i*2 + j] of
    the result reads row [i]. *)
Lemma bcast_offset_column (N i j : nat) :
  i < N -> j < 2 ->
  bcast_offset [N; 1] (unravel [N; 2] (i * 2 + j)) = i.
Proof.
  intros Hi Hj. unfold bcast_offset.
  cbn [unravel prod fold_right length Nat.sub skipn combine map ravel
       fst snd].
  change (2 * 1) with 2. change (1 * 1) with 1.
  change (bidx 1 ((i * 2 + j) mod 2 / 1)) with 0.
  rewrite flat_index_div by assumption.
  rewrite bidx_lt by assumption. lia.
Qed.

(** ** The centroider on a batch of images *)

Section CogFacts.
Import ClassicCog CogSpec.

(** What [calibrate] leaves in a freshly constructed centroider. *)
Lemma calibrate_new (n : Z) (kw : option (option spec_float)) (c : obj) :
  calibrate (new n kw) = Ok c ->
  let m := Z.to_nat n in
  c = {| npix := n;
         r_mat := Some (mk_nd [2; m * m]
                          (tab2 2 (m * m) (fun _ _ => Float64.one)));
         xy_mat := Some (mk_nd [2; m * m]
                           (tab2 2 (m * m) (fun j k =>
                              if j =? 0 then x_span n (k mod m)
                              else x_span n (k / m))));
         thresh := thresh (new n kw);
         es_path := Some contract_all |}.
Proof.
  unfold calibrate, optimize_einsum. cbn [es_path new r_mat xy_mat npix
    thresh require bind].
  destruct (einsum_jk_ik_jk_ij _ _ _) as [y|e]; [|discriminate].
  cbn [bind]. intros E. now inversion E.
Qed.

Lemma nth_map_in {A B : Type} (f : A -> B) (l : list A) (k : nat)
      (da : A) (db : B) :
  k < length l -> nth k (map f l) db = f (nth k l da).
Proof.
  intros Hk. rewrite (nth_indep _ db (f da)) by now rewrite length_map.
  apply map_nth.
Qed.

(** The weight of a pixel is what the flattened, thresholded batch holds
    at its position. *)
Lemma threshold_weight (c : obj) (a a' : ndarray spec_float)
      (K i k : nat) :
  threshold c a = Ok a' ->
  i * K + k < length (data a) ->
  get_flat a' (i * K + k) = weight (thresh c) a K i k.
Proof.
  unfold threshold, weight, pixel, get_flat.
  destruct (thresh c) as [t|].
  - destruct (shape a); [discriminate|]. intros E Hk.
    inversion E; subst a'. simpl.
    now apply nth_map_in.
  - intros E _. now inversion E.
Qed.

Lemma threshold_shape (c : obj) (a a' : ndarray spec_float) :
  threshold c a = Ok a' -> shape a' = shape a.
Proof.
  unfold threshold. destruct (thresh c) as [t|].
  - destruct (shape a) eqn:S; [discriminate|]. intros E.
    inversion E; subst a'. simpl. now rewrite S.
  - intros E. now inversion E.
Qed.

Lemma threshold_ok (c : obj) (a : ndarray spec_float) :
  shape a <> [] -> exists a', threshold c a = Ok a'.
Proof.
  unfold threshold. intros S. destruct (thresh c).
  - destruct (shape a); [contradiction|]. eexists; reflexivity.
  - eexists; reflexivity.
Qed.

(** [cog] on a well-shaped batch of [N] images of [m x m] pixels, for a
    centroider whose matrices are [2 x m*m]. *)
Lemma cog_batch (c : obj) (r xy a : ndarray spec_float) (p : einsum_plan)
      (N m : nat) :
  r_mat c = Some r -> xy_mat c = Some xy -> es_path c = Some p ->
  shape r = [2; m * m] -> shape xy = [2; m * m] ->
  shape a = [N; m; m] -> well_shaped a ->
  cog c a
  = Ok (astype_float32
          (mk_nd [N; 2]
             (tabulate (N * 2) (fun k =>
                s_div (weighted_sum r xy (thresh c) a (m * m)
                                    (k / 2) (k mod 2))
                      (total_weight (thresh c) a (m * m) (k / 2)))))).
Proof.
  intros Er Exy Ep Sr Sxy Sa Wa.
  unfold well_shaped in Wa. rewrite Sa in Wa.
  cbn [prod fold_right] in Wa. rewrite Nat.mul_1_r in Wa.
  unfold cog.
  assert (Pa : promote a = a) by (unfold promote; now rewrite Sa).
  rewrite Pa.
  destruct (threshold_ok c a) as (a' & Ea'); [now rewrite Sa|].
  assert (Sa' := threshold_shape c a a' Ea'). rewrite Sa in Sa'.
  rewrite Ea'. cbn [bind].
  unfold flatten_images. rewrite Sa'. cbn [bind prod fold_right].
  rewrite Nat.mul_1_r.
  rewrite Ep, Er, Exy. cbn [require bind].
  unfold einsum_jk_ik_jk_ij. rewrite Sr, Sxy. cbn [shape].
  repeat (rewrite blabel_same; cbn [bind]).
  unfold sum_images. rewrite Sa'. cbn [bind prod fold_right].
  unfold nd_div, zip_with. cbn [shape].
  assert (B : broadcast_shapes [N; 2] [N; 1] = Ok [N; 2]).
  { unfold broadcast_shapes. cbn [rev app broadcast_rev].
    rewrite blabel_1_r, blabel_same. reflexivity. }
  rewrite B. cbn [bind]. do 3 f_equal.
  cbn [prod fold_right]. rewrite Nat.mul_1_r.
  apply tabulate_ext. intros k Hk.
  assert (Hi : k / 2 < N) by (apply Nat.Div0.div_lt_upper_bound; lia).
  assert (Hj : k mod 2 < 2) by (apply Nat.mod_upper_bound; lia).
  cbv zeta.
  rewrite bcast_offset_full by (cbn [prod fold_right]; lia).
  assert (Hk2 : k = k / 2 * 2 + k mod 2).
  { rewrite (Nat.div_mod_eq k 2) at 1. lia. }
  rewrite Hk2 at 2. rewrite bcast_offset_column by assumption.
  unfold get_flat at 1 2. cbn [data].
  f_equal.
  - unfold tab2. rewrite nth_tabulate by assumption.
    unfold weighted_sum. apply sum_upto_ext. intros q Hq.
    rewrite !(bidx_lt (m * m) q) by assumption.
    rewrite (bidx_lt 2 (k mod 2)) by assumption.
    f_equal. f_equal.
    unfold get_rc. cbn [data].
    change (nth (k / 2 * (m * m) + q) (data a') s_zero)
      with (get_flat a' (k / 2 * (m * m) + q)).
    apply (threshold_weight c a a' (m * m) (k / 2) q Ea').
    rewrite Wa. nia.
  - unfold tab2. rewrite nth_tabulate by lia.
    rewrite Nat.div_1_r, Nat.mod_1_r.
    change (1 =? 1) with true. cbv iota.
    unfold total_weight. apply np_sum_ext. intros q Hq.
    rewrite Nat.mul_1_r, Nat.add_0_r.
    apply (threshold_weight c a a' (m * m) (k / 2) q Ea').
    rewrite Wa. nia.
Qed.

End CogFacts.

(** ** The factorization *)

Section FactorLemmas.
Context {T : Type} `{Scalar T} `{Externals T}.
Import PhaseScreen.

Lemma in_firstn_1_skipn {U : Type} (l : list U) (i : nat) (v d : U) :
  In v (firstn 1 (skipn i l)) -> i < length l /\ nth i l d = v.
Proof.
  revert i. induction l as [|u l IH]; intros i Hv.
  - rewrite skipn_nil in Hv. destruct Hv.
  - destruct i as [|i]; simpl in *.
    + destruct Hv as [Hv|[]]. split; [lia | exact Hv].
    + destruct (IH i Hv) as (Hl & Hn). split; [lia | exact Hn].
Qed.

(** Every value kept by a boolean mask computed elementwise by [g]
    satisfies [g]. *)
Lemma mask_select_kept (vals vals' : ndarray T) (g : T -> bool) (r : nat)
      (v : T) :
  shape vals = [r] ->
  mask_select vals (mk_nd [r] (map g (data vals))) = Ok vals' ->
  In v (data vals') -> g v = true.
Proof.
  intros Sv E Hv. unfold mask_select in E. rewrite Sv in E.
  cbn [shape data length firstn skipn Nat.leb shape_eqb prod fold_right]
    in E.
  rewrite Nat.eqb_refl in E. cbn [andb] in E.
  inversion E; subst vals'; clear E. cbn [data] in Hv.
  apply in_flat_map in Hv as (i & Hi & Hv).
  apply filter_In in Hi as (_ & Hm).
  rewrite Nat.mul_1_r in Hv.
  destruct (in_firstn_1_skipn _ _ _ s_zero Hv) as (Hl & Hn).
  rewrite (nth_map_in g (data vals) i s_zero false Hl) in Hm.
  now rewrite Hn in Hm.
Qed.

(** Under the threshold policy every retained eigenvalue exceeds the
    threshold. *)
Lemma _factorh_threshold_retained (self : obj T) (m f fi : ndarray T) :
  _factorh self m None = Ok (f, fi) ->
  exists vals vecs valid vecs' vals',
    eigh m = Ok (vals, vecs)
    /\ valid_modes self vals None = Ok valid
    /\ select_cols vecs valid = Ok vecs'
    /\ mask_select vals valid = Ok vals'
    /\ nd_mul vecs' (row_vector (nd_map s_sqrt vals')) = Ok f
    /\ nd_mul vecs'
         (row_vector (nd_map s_sqrt (nd_map (s_div s_one) vals'))) = Ok fi
    /\ forall v, In v (data vals') -> s_ltb (thresh self) v = true.
Proof.
  unfold _factorh. intros E.
  bind_split E as vv Evv. destruct vv as [vals vecs].
  bind_split E as valid Evalid. bind_split E as vecs' Evecs.
  bind_split E as vals' Evals. bind_split E as f' Ef.
  bind_split E as fi' Efi. inversion E; subst f' fi'; clear E.
  exists vals, vecs, valid, vecs', vals'.
  repeat (split; [assumption|]).
  intros v Hv.
  destruct (eigh_shapes _ _ _ Evv) as (r & _ & Sw & _).
  unfold valid_modes in Evalid. inversion Evalid; subst valid.
  rewrite Sw in Evals.
  exact (mask_select_kept vals vals' (fun u => s_ltb (thresh self) u) r v
           Sw Evals Hv).
Qed.

Lemma filter_none {U : Type} (p : U -> bool) (l : list U) :
  (forall u, In u l -> p u = false) -> filter p l = [].
Proof.
  induction l as [|u l IH]; intros Hp; simpl; [reflexivity|].
  rewrite (Hp u) by now left. apply IH. intros u' Hu. apply Hp. now right.
Qed.

Lemma nth_map_false {U : Type} (g : U -> bool) (l : list U) (j : nat) :
  (forall u, In u l -> g u = false) -> nth j (map g l) false = false.
Proof.
  intros Hg. destruct (Nat.lt_ge_cases j (length l)) as [Hj|Hj].
  - destruct l as [|u0 l0] eqn:El; [simpl in Hj; lia|].
    rewrite <- El in *.
    rewrite (nth_map_in g l j u0 false Hj). apply Hg. now apply nth_In.
  - apply nth_overflow. now rewrite length_map.
Qed.

(** When no eigenvalue exceeds the threshold, the factorization returns
    two matrices without columns. *)
Lemma _factorh_threshold_excludes_all (self : obj T) (m vals vecs : ndarray T) :
  eigh m = Ok (vals, vecs) ->
  (forall v, In v (data vals) -> s_ltb (thresh self) v = false) ->
  exists f fi r,
    _factorh self m None = Ok (f, fi)
    /\ shape m = [r; r] /\ shape f = [r; 0] /\ shape fi = [r; 0]
    /\ data f = [] /\ data fi = [].
Proof.
  intros E Hall.
  destruct (eigh_shapes _ _ _ E) as (r & Sm & Sw & Sv).
  unfold _factorh. rewrite E. cbn [bind valid_modes].
  set (g := fun v => s_ltb (thresh self) v).
  assert (Hsel : forall n, filter (fun j => nth j (map g (data vals)) false)
                             (seq 0 n) = []).
  { intros n. apply filter_none. intros j _. now apply nth_map_false. }
  unfold select_cols. rewrite Sv, Sw. cbn [shape data].
  rewrite Nat.eqb_refl, Hsel. cbn [bind length].
  unfold mask_select. rewrite Sw.
  cbn [shape data length firstn skipn Nat.leb shape_eqb prod fold_right].
  rewrite Nat.eqb_refl, Hsel. cbn [andb bind length flat_map].
  unfold nd_mul, zip_with, row_vector, nd_map. cbn [shape data map].
  rewrite broadcast_row. cbn [bind prod fold_right].
  rewrite Nat.mul_0_l, Nat.mul_0_r.
  eexists. eexists. exists r.
  split; [reflexivity|]. repeat split; assumption || reflexivity.
Qed.

End FactorLemmas.

Section FloatOrder.

Lemma above_nonnegative_is_positive (t v : spec_float) :
  SFleb Float64.zero t = true -> SFltb t v = true ->
  SFltb Float64.zero v = true.
Proof.
  destruct t as [[|]|[|]| |[|] mt et], v as [[|]|[|]| |[|] mv ev];
    simpl; intros Ht Hv; try discriminate; reflexivity.
Qed.

End FloatOrder.

(** ** Construction with a threshold that nothing exceeds *)

Section EmptyFactors.
Context {T : Type} `{Scalar T} `{Externals T}.
Import PhaseScreen.

Lemma mask_select_grid {U : Type} (a : ndarray U) (mask : ndarray bool)
      (w : nat) :
  shape a = [w; w] -> shape mask = [w; w] ->
  exists r n, mask_select a mask = Ok r /\ shape r = [n].
Proof.
  intros Sa Sm. unfold mask_select. rewrite Sa, Sm.
  cbn [length Nat.leb firstn skipn shape_eqb].
  rewrite Nat.eqb_refl. cbn [andb].
  eexists. eexists. split; reflexivity.
Qed.

Lemma eigh_ok (m : ndarray T) (r : nat) :
  shape m = [r; r] -> exists vals vecs, eigh m = Ok (vals, vecs).
Proof.
  intros Sm. unfold eigh. rewrite Sm, Nat.eqb_refl.
  destruct (eigh_sym r (data m)) as [w v]. eexists. eexists. reflexivity.
Qed.

(** The state matrix is built whenever the inverse factor has the rows of
    the square cross-covariance, even without columns. *)
Lemma StateMatrix_init_ok (cov_yx inv_factor_xx : ndarray T) (clk : clock T)
      (r c : nat) :
  shape cov_yx = [r; r] -> shape inv_factor_xx = [r; c] ->
  exists sm, StateMatrix_init cov_yx inv_factor_xx clk = Ok sm
             /\ coherent sm /\ shape (A sm) = [r; r].
Proof.
  intros Sc Si.
  assert (E : exists sm, StateMatrix_init cov_yx inv_factor_xx clk = Ok sm).
  { unfold StateMatrix_init.
    destruct (einsum_ij_jk_ik_ok cov_yx inv_factor_xx r r c Sc Si)
      as (ml & Eml & Sml).
    rewrite Eml. cbn [bind].
    assert (Slt : shape (transpose inv_factor_xx) = [c; r])
      by (unfold transpose; now rewrite Si).
    destruct (einsum_ij_jk_ik_ok ml _ r c r Sml Slt) as (a & Ea & Sa).
    rewrite Ea. cbn [bind].
    unfold shape_at at 1. rewrite Sa. cbn [nth_error bind].
    unfold einsum_path_factored. rewrite Sml, Slt. cbn [shape].
    rewrite !blabel_same. cbn [bind].
    unfold test_speed, shape_at. cbn [A]. rewrite Sa. cbn [nth_error bind].
    match goal with
    | |- context [dot_factored ?s ?x] =>
        destruct (dot_factored_ok s x r c r [10] Sml Slt
                    (normal_shape _ _)) as (y1 & E1 & _);
        destruct (dot_classic_ok s x r r [10] Sa (normal_shape _ _))
          as (y2 & E2 & _)
    end.
    rewrite E1. cbn [bind]. rewrite E2. cbn [bind Nat.eqb].
    destruct (s_ltb _ _); eexists; reflexivity. }
  destruct E as (sm & E). exists sm. split; [exact E|].
  split; [exact (StateMatrix_init_coherent _ _ _ _ E)|].
  destruct (StateMatrix_init_shapes _ _ _ _ E)
    as (m & k & n & _ & _ & Sa & Si' & Hm).
  rewrite Si in Si'. inversion Si'; subst n k.
  rewrite Sc in Hm. simpl in Hm. now subst m.
Qed.

Lemma innovation_covariance_ok (sm : StateMatrix T) (sigma_xx : ndarray T)
      (n : nat) :
  coherent sm -> shape (A sm) = [n; n] -> shape sigma_xx = [n; n] ->
  exists sigma_vv,
    innovation_covariance sm sigma_xx = Ok sigma_vv
    /\ shape sigma_vv = [n; n].
Proof.
  intros C Sa Ss. unfold innovation_covariance.
  destruct (dot_ok sm sigma_xx n n [n] C Sa Ss) as (d1 & E1 & S1).
  rewrite E1. cbn [bind].
  assert (S1t : shape (transpose d1) = [n; n])
    by (unfold transpose; now rewrite S1).
  destruct (dot_ok sm _ n n [n] C Sa S1t) as (d2 & E2 & S2).
  rewrite E2. cbn [bind].
  assert (S2t : shape (transpose d2) = [n; n])
    by (unfold transpose; now rewrite S2).
  exact (nd_sub_same_shape_ok sigma_xx (transpose d2) [n; n] Ss S2t).
Qed.

(** When nothing compares above the threshold and no mode count is given,
    construction on a square pupil completes, with factors that have no
    column. *)
Lemma init_completes_with_empty_factors (g : globals) (clk : clock T)
      (self : obj T) (w : nat) :
  (forall v, s_ltb (thresh self) v = false) ->
  xx_max self = None -> vv_max self = None ->
  shape (pupil self) = [w; w] -> 0 < w -> g_pup_width g = Some w ->
  2 <= prod (shape (wind self)) ->
  exists ps fxx fvv sm x0 p,
    __init__ g clk self = Ok ps
    /\ factor_xx ps = Some fxx /\ factor_vv ps = Some fvv
    /\ state_matrix ps = Some sm /\ x ps = Some x0
    /\ shape fxx = [p; 0] /\ shape fvv = [p; 0]
    /\ shape (A sm) = [p; p] /\ shape x0 = [p].
Proof.
  intros Hth Hxx Hvv Sp Hw Hg Hwind. unfold __init__.
  unfold shape_at at 1. rewrite Sp. cbn [nth_error bind].
  destruct (Nat.eqb_spec w 0) as [Hw0|_]; [lia|]. cbn [bind].
  rewrite Hg. cbn [require bind].
  unfold mgrid_scaled.
  match goal with
  | |- context [mask_select ?yy (pupil self)] =>
      destruct (mask_select_grid yy (pupil self) w eq_refl Sp)
        as (yy' & n & Eyy & Syy)
  end.
  rewrite Eyy. cbn [bind].
  match goal with
  | |- context [mask_select ?xx (pupil self)] =>
      destruct (mask_select_grid xx (pupil self) w eq_refl Sp)
        as (xx' & n' & Exx & Sxx)
  end.
  rewrite Exx. cbn [bind].
  set (sigma_xx := _covariance self xx' yy' xx' yy').
  assert (Ss : shape sigma_xx = [n' * 1; n' * 1]).
  { unfold sigma_xx. rewrite _covariance_shape, Sxx. reflexivity. }
  destruct (eigh_ok sigma_xx _ Ss) as (vals & vecs & Ee).
  destruct (_factorh_threshold_excludes_all self sigma_xx vals vecs Ee)
    as (fxx & fi & r & Ef & Sm & Sf & Sfi & _ & _);
    [intros v _; apply Hth|].
  rewrite Ss in Sm. inversion Sm as [Hr]. clear Sm.
  rewrite Hxx, Ef. cbn [bind].
  destruct (Nat.ltb_spec 0 (prod (shape (wind self)))) as [_|Hc]; [|lia].
  destruct (Nat.ltb_spec 1 (prod (shape (wind self)))) as [_|Hc]; [|lia].
  cbn [bind].
  match goal with
  | |- context [StateMatrix_init ?cov fi clk] =>
      assert (Sc : shape cov = [r; r]);
      [ unfold scale, nd_map; cbn [shape];
        rewrite _covariance_shape; cbn [shape]; rewrite Sxx, <- Hr;
        reflexivity
      | destruct (StateMatrix_init_ok cov fi clk r 0 Sc Sfi)
          as (sm & Esm & C & Sa) ]
  end.
  rewrite Esm. cbn [bind].
  assert (Ss' : shape sigma_xx = [r; r]) by now rewrite Ss, <- Hr.
  destruct (innovation_covariance_ok sm sigma_xx r C Sa Ss')
    as (sigma_vv & Ev & Sv).
  rewrite Ev. cbn [bind].
  destruct (eigh_ok sigma_vv r Sv) as (vals2 & vecs2 & Ee2).
  destruct (_factorh_threshold_excludes_all self sigma_vv vals2 vecs2 Ee2)
    as (fvv & fvi & r2 & Ef2 & Sm2 & Sf2 & _ & _ & _);
    [intros v _; apply Hth|].
  rewrite Sv in Sm2. inversion Sm2; subst r2.
  rewrite Hvv, Ef2. cbn [bind].
  unfold shape_at. rewrite Sf. cbn [nth_error bind].
  destruct (normal (default_rng (seed self)) [0]) as [z rng1] eqn:En.
  assert (Sz : shape z = [0]).
  { rewrite <- (normal_shape (default_rng (seed self)) [0]).
    now rewrite En. }
  unfold matvec. rewrite Sf, Sz. cbn [Nat.eqb bind].
  eexists. exists fxx, fvv, sm. eexists. exists r.
  split; [reflexivity|]. cbn [factor_xx factor_vv state_matrix x shape].
  repeat split; assumption || reflexivity.
Qed.

End EmptyFactors.

(** ** Claims on the centroider *)

Section CogClaimLemmas.
Import ClassicCog CogSpec.

Lemma promote_idem (a : ndarray spec_float) :
  promote (promote a) = promote a.
Proof.
  unfold promote. destruct (length (shape a) =? 2) eqn:E; simpl.
  - apply Nat.eqb_eq in E. now rewrite E.
  - now rewrite E.
Qed.

Lemma cog_promote (c : obj) (a : ndarray spec_float) :
  cog c a = cog c (promote a).
Proof. unfold cog. now rewrite promote_idem. Qed.


Lemma calibrated_cog_batch (n : Z) (kw : option (option spec_float))
      (c : obj) (a : ndarray spec_float) (N : nat) :
  calibrate (new n kw) = Ok c ->
  shape a = [N; Z.to_nat n; Z.to_nat n] -> well_shaped a ->
  exists r xy,
    r_mat c = Some r /\ xy_mat c = Some xy
    /\ (forall j k, j < 2 -> k < Z.to_nat n * Z.to_nat n ->
          get_rc (Z.to_nat n * Z.to_nat n) r j k = Float64.one)
    /\ cog c a
       = Ok (astype_float32
               (mk_nd [N; 2]
                  (tabulate (N * 2) (fun k =>
                     s_div (weighted_sum r xy (thresh c) a
                              (Z.to_nat n * Z.to_nat n) (k / 2) (k mod 2))
                           (total_weight (thresh c) a
                              (Z.to_nat n * Z.to_nat n) (k / 2)))))).
Proof.
  intros E Sa Wa. apply calibrate_new in E. cbv zeta in E.
  eexists. eexists.
  split; [rewrite E; reflexivity|].
  split; [rewrite E; reflexivity|].
  split.
  - intros j k Hj Hk. now rewrite get_rc_tab2.
  - eapply cog_batch; try eassumption; try rewrite E; reflexivity.
Qed.

Lemma out_entry (N : nat) (f : nat -> spec_float) (i j : nat) :
  i < N -> j < 2 ->
  get_flat (arr (astype_float32 (mk_nd [N; 2] (tabulate (N * 2) f))))
           (i * 2 + j)
  = Float64.to_float32 (f (i * 2 + j)).
Proof.
  intros Hi Hj. unfold get_flat, astype_float32, nd_map. cbn [arr data].
  rewrite (nth_map_in _ _ _ s_zero)
    by (rewrite length_tabulate; lia).
  now rewrite nth_tabulate by lia.
Qed.

End CogClaimLemmas.



(** The pixels of an image are added pairwise.  Of the nine pixels
    [2^53, 1, 1, -2^53, 0, 0, 0, 0, 0] the eight partial sums keep the
    second [1] apart from [2^53]: the total weight is 1, where adding in
    index order gives 0, and [cog] without threshold returns the finite
    pair [(1, -2^53)]. *)
Example cog_adds_pixels_pairwise :
  ClassicCog.np_sum 9 (fun k => get_flat Demo.image9 k) = Float64.one
  /\ sum_upto 9 (fun k => get_flat Demo.image9 k) = Float64.zero
  /\ ClassicCog.cog Demo.cog3_no_thresh Demo.image9
     = Ok {| ClassicCog.dt := ClassicCog.dt_float32;
             ClassicCog.arr :=
               mk_nd [1; 2]
                 (map Float64.to_float32
                    [Float64.one; s_sub Float64.zero (Demo.pow2 53)]) |}.
Proof. repeat split; vm_compute; reflexivity. Qed.

(** Without threshold, weights that cancel give an infinity: the third
    image of the batch has total weight zero and a non-zero weighted sum. *)
Example cog_no_thresh_cancelling_weights :
  option_map (fun o => map Float64.is_finite (data (ClassicCog.arr o)))
    (match ClassicCog.cog Demo.cog2_no_thresh Demo.batch3 with
     | Ok o => Some o
     | Raise _ => None
     end)
  = Some [false; false; true; true; false; false]
  /\ option_map (fun o => skipn 4 (data (ClassicCog.arr o)))
       (match ClassicCog.cog Demo.cog2_no_thresh Demo.batch3 with
        | Ok o => Some o
        | Raise _ => None
        end)
     = Some [S754_infinity true; S754_infinity true].
Proof. split; vm_compute; reflexivity. Qed.

(** C9.  On a calibrated centroider, a single well-shaped [npix x npix]
    image is promoted to a batch of one: [cog] returns a float32 array of
    shape [(1, 2)] holding two values, the same as for the one-image batch
    [(1, npix, npix)] with the same pixels. *)
Theorem cog_single_image_keeps_batch_axis :
  forall (n : Z) (kw : option (option spec_float)) (c : ClassicCog.obj)
         (a : ndarray spec_float),
    ClassicCog.calibrate (ClassicCog.new n kw) = Ok c ->
    shape a = [Z.to_nat n; Z.to_nat n] ->
    well_shaped a ->
    exists out : ndarray spec_float,
      ClassicCog.cog c a
      = Ok {| ClassicCog.dt := ClassicCog.dt_float32;
              ClassicCog.arr := out |}
      /\ shape out = [1; 2]
      /\ length (data out) = 2
      /\ ClassicCog.promote a = mk_nd [1; Z.to_nat n; Z.to_nat n] (data a)
      /\ ClassicCog.cog c a
         = ClassicCog.cog c (mk_nd [1; Z.to_nat n; Z.to_nat n] (data a)).
Proof.
  intros n kw c a E Sa Wa.
  assert (P : ClassicCog.promote a
              = mk_nd [1; Z.to_nat n; Z.to_nat n] (data a)).
  { unfold ClassicCog.promote. now rewrite Sa. }
  assert (W1 : well_shaped (mk_nd [1; Z.to_nat n; Z.to_nat n] (data a))).
  { unfold well_shaped in *. rewrite Sa in Wa. cbn [shape data prod fold_right] in *.
    lia. }
  destruct (calibrated_cog_batch n kw c
              (mk_nd [1; Z.to_nat n; Z.to_nat n] (data a)) 1 E eq_refl W1)
    as (r & xy & _ & _ & _ & Ec).
  rewrite cog_promote, P.
  eexists. split; [exact Ec|].
  split; [reflexivity|]. split; [|split; reflexivity].
  cbn [ClassicCog.arr ClassicCog.astype_float32 nd_map data].
  now rewrite length_map, length_tabulate.
Qed.

(** A run of C9 on the 2x2 image with weights 1, 1, 1, 3. *)
Lemma cog_single_image_keeps_batch_axis_witness :
  ClassicCog.calibrate (ClassicCog.new 2 None) = Ok Demo.cog2
  /\ shape Demo.image1 = [Z.to_nat 2; Z.to_nat 2]
  /\ well_shaped Demo.image1
  /\ exists out : ndarray spec_float,
      ClassicCog.cog Demo.cog2 Demo.image1
      = Ok {| ClassicCog.dt := ClassicCog.dt_float32;
              ClassicCog.arr := out |}
      /\ shape out = [1; 2].
Proof.
  assert (E : ClassicCog.calibrate (ClassicCog.new 2 None) = Ok Demo.cog2)
    by (vm_compute; reflexivity).
  assert (Sa : shape Demo.image1 = [Z.to_nat 2; Z.to_nat 2]) by reflexivity.
  assert (Wa : well_shaped Demo.image1) by reflexivity.
  split; [exact E|]. split; [exact Sa|]. split; [exact Wa|].
  destruct (cog_single_image_keeps_batch_axis 2 None Demo.cog2 Demo.image1
              E Sa Wa) as (out & Ec & So & _).
  exists out. split; [exact Ec | exact So].
Defined.

Section ThresholdLemmas.
Import ClassicCog.

Lemma promote_nd_map (f : spec_float -> spec_float)
      (a : ndarray spec_float) :
  promote (nd_map f a) = nd_map f (promote a).
Proof.
  unfold promote, nd_map. cbn [shape data].
  now destruct (length (shape a) =? 2).
Qed.

Lemma promote_shape_nonempty (a : ndarray spec_float) :
  shape a <> [] -> shape (promote a) <> [].
Proof.
  unfold promote. destruct (length (shape a) =? 2); simpl; congruence.
Qed.

(** With a threshold [t], [cog] is the un-thresholded [cog] of the image
    whose pixels went through [clamp t]. *)
Lemma cog_threshold_as_clamped (c c0 : obj) (t : spec_float)
      (a : ndarray spec_float) :
  thresh c = Some t -> thresh c0 = None ->
  r_mat c = r_mat c0 -> xy_mat c = xy_mat c0 -> es_path c = es_path c0 ->
  shape a <> [] ->
  cog c a = cog c0 (nd_map (clamp t) a).
Proof.
  intros Et E0 Er Exy Ep Sa. unfold cog.
  rewrite promote_nd_map.
  assert (T1 : threshold c (promote a) = Ok (nd_map (clamp t) (promote a))).
  { unfold threshold. rewrite Et.
    destruct (shape (promote a)) eqn:S; [|reflexivity].
    now apply promote_shape_nonempty in Sa. }
  assert (T0 : forall b, threshold c0 b = Ok b).
  { intros b. unfold threshold. now rewrite E0. }
  rewrite T1, T0. cbn [bind]. now rewrite Er, Exy, Ep.
Qed.

End ThresholdLemmas.

(** C10.  The field [thresh] of a ClassicCog constructed without the keyword
    is [0.0], and calibration keeps it; the field is [None] only when the
    keyword [thresh=None] is given.  On the default centroider the
    thresholding branch of [cog] runs: it subtracts 0, which changes no
    pixel, and replaces every pixel that compares below zero by zero, so no
    weight is negative, and [cog] returns what the centroider constructed
    with [thresh=None] returns on the clamped image.  With [thresh=None]
    the branch is skipped and the pixels are used as they are.  On a
    well-shaped batch both centroiders return, and every entry of the two
    results is written out: coordinate [j] of image [i] is the float32 of
    the sum of [1.0 * w * coordinate] over the pixels divided by the
    [np.sum] of the [w], where [w] is the pixel with negative values
    replaced by zero for the default centroider, and the pixel itself for
    the centroider with [thresh=None]. *)
Theorem default_threshold_clamps_negative_pixels :
  forall (n : Z) (c c0 : ClassicCog.obj) (a : ndarray spec_float),
    ClassicCog.calibrate (ClassicCog.new n None) = Ok c ->
    ClassicCog.calibrate (ClassicCog.new n (Some None)) = Ok c0 ->
    shape a <> [] ->
    let clampz := fun v : spec_float =>
      if SFltb v Float64.zero then Float64.zero else v in
    let clamped := nd_map clampz a in
    ClassicCog.thresh (ClassicCog.new n None) = Some Float64.zero
    /\ ClassicCog.thresh c = Some Float64.zero
    /\ ClassicCog.thresh c0 = None
    /\ ClassicCog.threshold c a = Ok clamped
    /\ (forall v, In v (data clamped) -> SFltb v Float64.zero = false)
    /\ ClassicCog.cog c a = ClassicCog.cog c0 clamped
    /\ ClassicCog.threshold c0 a = Ok a
    /\ (forall kw : option (option spec_float),
          ClassicCog.thresh (ClassicCog.new n kw) = None <-> kw = Some None)
    /\ (forall N : nat,
          shape a = [N; Z.to_nat n; Z.to_nat n] -> well_shaped a ->
          let m := Z.to_nat n in
          let K := m * m in
          let coordinate := fun j k : nat =>
            if j =? 0 then ClassicCog.x_span n (k mod m)
            else ClassicCog.x_span n (k / m) in
          let centre := fun (w : nat -> spec_float) (j : nat) =>
            Float64.to_float32
              (s_div (sum_upto K (fun k =>
                        s_mul (s_mul Float64.one (w k)) (coordinate j k)))
                     (ClassicCog.np_sum K w)) in
          exists out out0 : ndarray spec_float,
            ClassicCog.cog c a
            = Ok {| ClassicCog.dt := ClassicCog.dt_float32;
                    ClassicCog.arr := out |}
            /\ ClassicCog.cog c0 a
               = Ok {| ClassicCog.dt := ClassicCog.dt_float32;
                       ClassicCog.arr := out0 |}
            /\ shape out = [N; 2] /\ shape out0 = [N; 2]
            /\ forall i j : nat, i < N -> j < 2 ->
                 get_flat out (i * 2 + j)
                 = centre (fun k => clampz (CogSpec.pixel a K i k)) j
                 /\ get_flat out0 (i * 2 + j)
                    = centre (fun k => CogSpec.pixel a K i k) j).
Proof.
  intros n c c0 a E E0 Sa clampz clamped.
  pose proof E as Ecal. pose proof E0 as Ecal0.
  apply calibrate_new in E, E0. cbv zeta in E, E0.
  assert (Ecl : nd_map (ClassicCog.clamp Float64.zero) a = clamped).
  { unfold clamped, nd_map. f_equal. apply map_ext. exact clamp_zero. }
  split; [reflexivity|].
  split; [rewrite E; reflexivity|].
  split; [rewrite E0; reflexivity|].
  split; [|split; [|split; [|split; [|split]]]].
  - unfold ClassicCog.threshold. rewrite E. cbn [ClassicCog.thresh ClassicCog.new ClassicCog.default_thresh].
    destruct (shape a); [contradiction|]. now rewrite Ecl.
  - intros v Hv. unfold clamped, nd_map in Hv. cbn [data] in Hv.
    apply in_map_iff in Hv as (u & Hu & _). subst v. unfold clampz.
    destruct (SFltb u Float64.zero) eqn:L; [reflexivity | exact L].
  - rewrite <- Ecl.
    apply cog_threshold_as_clamped; try assumption;
      try rewrite E; try rewrite E0; reflexivity.
  - unfold ClassicCog.threshold. rewrite E0. reflexivity.
  - intros kw. unfold ClassicCog.new, ClassicCog.default_thresh.
    cbn [ClassicCog.thresh]. split.
    + destruct kw as [[t|]|]; intros Hk; try discriminate; reflexivity.
    + intros Hk. now subst kw.
  - intros N Sh Wa m K coordinate centre.
    set (r := mk_nd [2; m * m]
                (tab2 2 (m * m) (fun _ _ : nat => Float64.one))).
    set (xy := mk_nd [2; m * m] (tab2 2 (m * m) coordinate)).
    assert (B : forall (c' : ClassicCog.obj) (th : option spec_float),
              c' = {| ClassicCog.npix := n; ClassicCog.r_mat := Some r;
                      ClassicCog.xy_mat := Some xy;
                      ClassicCog.thresh := th;
                      ClassicCog.es_path := Some ClassicCog.contract_all |} ->
              ClassicCog.cog c' a
              = Ok (ClassicCog.astype_float32
                      (mk_nd [N; 2]
                         (tabulate (N * 2) (fun k =>
                            s_div (CogSpec.weighted_sum r xy th a K
                                     (k / 2) (k mod 2))
                                  (CogSpec.total_weight th a K (k / 2))))))).
    { intros c' th Ec'.
      rewrite (cog_batch c' r xy a ClassicCog.contract_all N m);
        try (rewrite Ec'; reflexivity); try assumption; reflexivity. }
    assert (W : forall (th : option spec_float) (w : nat -> spec_float)
                       (i j : nat),
              i < N -> j < 2 ->
              (forall k, k < K -> CogSpec.weight th a K i k = w k) ->
              get_flat
                (ClassicCog.arr
                   (ClassicCog.astype_float32
                      (mk_nd [N; 2]
                         (tabulate (N * 2) (fun k =>
                            s_div (CogSpec.weighted_sum r xy th a K
                                     (k / 2) (k mod 2))
                                  (CogSpec.total_weight th a K (k / 2)))))))
                (i * 2 + j)
              = centre w j).
    { intros th w i j Hi Hj Hw.
      rewrite (out_entry N _ i j Hi Hj).
      rewrite (flat_index_div 2 i j Hj), (flat_index_mod 2 i j Hj).
      unfold centre. f_equal. f_equal.
      - unfold CogSpec.weighted_sum. apply sum_upto_ext. intros k Hk.
        unfold r, xy. rewrite !get_rc_tab2 by assumption.
        now rewrite Hw.
      - unfold CogSpec.total_weight. apply np_sum_ext. exact Hw. }
    eexists. eexists.
    split; [apply (B c (Some Float64.zero)); exact E|].
    split; [apply (B c0 None); exact E0|].
    split; [reflexivity|]. split; [reflexivity|].
    intros i j Hi Hj. split.
    + apply W; try assumption. intros k Hk.
      unfold CogSpec.weight. apply clamp_zero.
    + apply W; try assumption. intros k Hk. reflexivity.
Qed.

(** A run of C10 on the batch of three 2x2 images.  The third image has
    the pixels 1, 0, 0, -1: the default centroider gives the negative
    pixel no weight and returns the position (-0.5, -0.5) of the first
    pixel; the centroider with [thresh=None] lets it cancel the first and
    returns infinities. *)
Lemma default_threshold_clamps_negative_pixels_witness :
  ClassicCog.calibrate (ClassicCog.new 2 None) = Ok Demo.cog2
  /\ ClassicCog.calibrate (ClassicCog.new 2 (Some None))
     = Ok Demo.cog2_no_thresh
  /\ shape Demo.batch3 <> []
  /\ ClassicCog.thresh Demo.cog2 = Some Float64.zero
  /\ ClassicCog.cog Demo.cog2 Demo.batch3
     = ClassicCog.cog Demo.cog2_no_thresh
         (nd_map (fun v => if SFltb v Float64.zero then Float64.zero else v)
                 Demo.batch3)
  /\ (exists out out0 : ndarray spec_float,
        ClassicCog.cog Demo.cog2 Demo.batch3
        = Ok {| ClassicCog.dt := ClassicCog.dt_float32;
                ClassicCog.arr := out |}
        /\ ClassicCog.cog Demo.cog2_no_thresh Demo.batch3
           = Ok {| ClassicCog.dt := ClassicCog.dt_float32;
                   ClassicCog.arr := out0 |}
        /\ skipn 4 (data out)
           = [S754_finite true 8388608 (-24);
              S754_finite true 8388608 (-24)]
        /\ skipn 4 (data out0)
           = [S754_infinity true; S754_infinity true]).
Proof.
  assert (E : ClassicCog.calibrate (ClassicCog.new 2 None) = Ok Demo.cog2)
    by (vm_compute; reflexivity).
  assert (E0 : ClassicCog.calibrate (ClassicCog.new 2 (Some None))
               = Ok Demo.cog2_no_thresh) by (vm_compute; reflexivity).
  assert (Sa : shape Demo.batch3 <> []) by discriminate.
  split; [exact E|]. split; [exact E0|]. split; [exact Sa|].
  destruct (default_threshold_clamps_negative_pixels 2 Demo.cog2
              Demo.cog2_no_thresh Demo.batch3 E E0 Sa)
    as (_ & Et & _ & _ & _ & Ec & _ & _ & Hb).
  split; [exact Et|]. split; [exact Ec|].
  destruct (Hb 3 eq_refl eq_refl) as (out & out0 & Eo & Eo0 & _).
  exists out, out0. split; [exact Eo|]. split; [exact Eo0|].
  assert (V : ClassicCog.cog Demo.cog2 Demo.batch3
              = Ok {| ClassicCog.dt := ClassicCog.dt_float32;
                      ClassicCog.arr :=
                        mk_nd [3; 2]
                          [S754_nan; S754_nan;
                           S754_finite false 11184811 (-26);
                           S754_finite false 11184811 (-26);
                           S754_finite true 8388608 (-24);
                           S754_finite true 8388608 (-24)] |})
    by (vm_compute; reflexivity).
  assert (V0 : ClassicCog.cog Demo.cog2_no_thresh Demo.batch3
               = Ok {| ClassicCog.dt := ClassicCog.dt_float32;
                       ClassicCog.arr :=
                         mk_nd [3; 2]
                           [S754_nan; S754_nan;
                            S754_finite false 11184811 (-26);
                            S754_finite false 11184811 (-26);
                            S754_infinity true; S754_infinity true] |})
    by (vm_compute; reflexivity).
  rewrite Eo in V. rewrite Eo0 in V0.
  inversion V as [Ho]. inversion V0 as [Ho0].
  split; reflexivity.
Defined.

(** ** Claims on the factorization *)


(** C4, as stated, fails: under the mode-count policy the eigenvalue -1 of
    the 1x1 matrix [[-1.0]] is retained and square-rooted, and the
    factorization returns a factor and an inverse factor whose only entry is
    NaN instead of failing. *)
Lemma factorh_square_roots_a_negative_eigenvalue :
  Demo.float_factorh (mk_nd [1; 1] [Demo.fl (-1)]) (Some 1%Z)
  = Ok (mk_nd [1; 1] [Float64.nan], mk_nd [1; 1] [Float64.nan]).
Proof. vm_compute. reflexivity. Qed.

(** C4, amended.  Under the threshold policy with a threshold that is not
    below zero, the factorization square-roots only the eigenvalues selected
    by [vals > thresh]: each of them exceeds the threshold and is strictly
    positive, so every negative or zero eigenvalue has been rejected before
    the square root. *)
Theorem threshold_policy_roots_only_positive_eigenvalues :
  forall (X : Externals spec_float) (self : PhaseScreen.obj spec_float)
         (m f fi : ndarray spec_float),
    SFleb Float64.zero (PhaseScreen.thresh self) = true ->
    PhaseScreen._factorh self m None = Ok (f, fi) ->
    exists vals vecs valid vecs' vals' : _,
      eigh m = Ok (vals, vecs)
      /\ PhaseScreen.valid_modes self vals None = Ok valid
      /\ PhaseScreen.select_cols vecs valid = Ok vecs'
      /\ mask_select vals valid = Ok vals'
      /\ nd_mul vecs' (PhaseScreen.row_vector (nd_map s_sqrt vals')) = Ok f
      /\ nd_mul vecs'
           (PhaseScreen.row_vector
              (nd_map s_sqrt (nd_map (s_div s_one) vals'))) = Ok fi
      /\ forall v, In v (data vals') ->
           SFltb (PhaseScreen.thresh self) v = true
           /\ SFltb Float64.zero v = true.
Proof.
  intros X self m f fi Ht E.
  destruct (_factorh_threshold_retained self m f fi E)
    as (vals & vecs & valid & vecs' & vals' & E1 & E2 & E3 & E4 & E5 & E6
        & Hv).
  exists vals, vecs, valid, vecs', vals'.
  repeat (split; [assumption|]).
  intros v Hin. split; [now apply Hv|].
  apply (above_nonnegative_is_positive (PhaseScreen.thresh self) v Ht).
  now apply Hv.
Qed.

(** A run of the amended C4: with threshold 0 the 1x1 matrix [[4.0]] has
    the factor [[2.0]] and the inverse factor [[0.5]]. *)
Lemma threshold_policy_roots_only_positive_eigenvalues_witness :
  SFleb Float64.zero (PhaseScreen.thresh Demo.float_params) = true
  /\ Demo.float_factorh (mk_nd [1; 1] [Demo.fl 4]) None
     = Ok (mk_nd [1; 1] [Demo.fl 2],
           mk_nd [1; 1] [SFdiv Float64.prec Float64.emax (Demo.fl 1)
                               (Demo.fl 2)])
  /\ exists vals' : ndarray spec_float,
      data vals' = [Demo.fl 4]
      /\ forall v, In v (data vals') -> SFltb Float64.zero v = true.
Proof.
  assert (Ht : SFleb Float64.zero (PhaseScreen.thresh Demo.float_params)
               = true) by reflexivity.
  assert (E : Demo.float_factorh (mk_nd [1; 1] [Demo.fl 4]) None
              = Ok (mk_nd [1; 1] [Demo.fl 2],
                    mk_nd [1; 1] [SFdiv Float64.prec Float64.emax
                                        (Demo.fl 1) (Demo.fl 2)]))
    by (vm_compute; reflexivity).
  split; [exact Ht|]. split; [exact E|].
  destruct (threshold_policy_roots_only_positive_eigenvalues toy_externals
              Demo.float_params _ _ _ Ht E)
    as (vals & vecs & valid & vecs' & vals' & E1 & E2 & E3 & E4 & _ & _
        & Hv).
  exists vals'. split.
  - vm_compute in E1. inversion E1; subst vals vecs.
    vm_compute in E2. inversion E2; subst valid.
    vm_compute in E4. inversion E4. reflexivity.
  - intros v Hin. now apply Hv.
Defined.

(** C5, as stated, fails: with the threshold 10, which no eigenvalue of the
    demonstration covariances exceeds, construction raises nothing; it
    completes with a [factor_xx] and a [factor_vv] of shape [(4, 0)], a
    dense state matrix whose sixteen entries are zero, and the zero state
    vector. *)
Lemma zero_modes_construction_completes :
  Demo.construction_summary
    (PhaseScreen.__init__ Demo.script_globals Demo.clock_classic_slower
       Demo.float_params_thresh10)
  = Some ([4; 0], [4; 0], repeat Float64.zero 16, repeat Float64.zero 4).
Proof. vm_compute. reflexivity. Qed.

(** Mode counts that are not positive do not retain zero modes: [-n_modes]
    is an ordinary index into the sorted eigenvalues.  On [diag(1, 4)], the
    count 0 keeps both modes, the count -1 keeps one, and the counts 3 and
    -2 raise [IndexError]. *)
Example factorh_nonpositive_mode_counts :
  let m := mk_nd [2; 2] [Demo.fl 1; Demo.fl 0; Demo.fl 0; Demo.fl 4] in
  let cols r := match r with
                | Ok (f, _) => Ok (shape (f : ndarray spec_float))
                | Raise e => Raise e
                end in
  cols (Demo.float_factorh m (Some 0%Z)) = Ok [2; 2]
  /\ cols (Demo.float_factorh m (Some (-1)%Z)) = Ok [2; 1]
  /\ cols (Demo.float_factorh m (Some 3%Z)) = Raise IndexError
  /\ cols (Demo.float_factorh m (Some (-2)%Z)) = Raise IndexError.
Proof. repeat split; vm_compute; reflexivity. Qed.

(** C5, amended.  Retaining zero modes does not make construction fail.
    When no eigenvalue exceeds the threshold, [_factorh] returns a factor
    and an inverse factor with the rows of the matrix and no column; and
    when nothing at all compares above the threshold (and no mode count is
    given), construction on a [w x w] pupil, [w] the script's pupil width,
    completes: [factor_xx] and [factor_vv] have no column, the state matrix
    is square of the order [p] of the state vector. *)
Theorem zero_modes_do_not_fail_construction :
  forall (T : Type) (S : Scalar T) (X : Externals T),
    (forall (self : PhaseScreen.obj T) (m vals vecs : ndarray T),
        eigh m = Ok (vals, vecs) ->
        (forall v, In v (data vals) ->
                   s_ltb (PhaseScreen.thresh self) v = false) ->
        exists (f fi : ndarray T) (r : nat),
          PhaseScreen._factorh self m None = Ok (f, fi)
          /\ shape m = [r; r] /\ shape f = [r; 0] /\ shape fi = [r; 0]
          /\ data f = [] /\ data fi = [])
    /\ (forall (g : globals) (clk : clock T) (self : PhaseScreen.obj T)
               (w : nat),
          (forall v, s_ltb (PhaseScreen.thresh self) v = false) ->
          PhaseScreen.xx_max self = None ->
          PhaseScreen.vv_max self = None ->
          shape (PhaseScreen.pupil self) = [w; w] -> 0 < w ->
          g_pup_width g = Some w ->
          2 <= prod (shape (PhaseScreen.wind self)) ->
          exists ps fxx fvv sm x0 p,
            PhaseScreen.__init__ g clk self = Ok ps
            /\ PhaseScreen.factor_xx ps = Some fxx
            /\ PhaseScreen.factor_vv ps = Some fvv
            /\ PhaseScreen.state_matrix ps = Some sm
            /\ PhaseScreen.x ps = Some x0
            /\ shape fxx = [p; 0] /\ shape fvv = [p; 0]
            /\ shape (PhaseScreen.A sm) = [p; p] /\ shape x0 = [p]).
Proof.
  intros T S X. split.
  - intros self m vals vecs E Hall.
    exact (_factorh_threshold_excludes_all self m vals vecs E Hall).
  - intros g clk self w Hth Hxx Hvv Sp Hw Hg Hwind.
    exact (init_completes_with_empty_factors g clk self w Hth Hxx Hvv Sp Hw
             Hg Hwind).
Qed.

(** A run of the amended C5: the 1x1 matrix [[4.0]] under the threshold
    10, and the construction of the 2x2 demonstration screen with the
    threshold [+inf]. *)
Lemma zero_modes_do_not_fail_construction_witness :
  (@eigh spec_float toy_externals (mk_nd [1; 1] [Demo.fl 4])
   = Ok (mk_nd [1] [Demo.fl 4], mk_nd [1; 1] [Float64.one])
   /\ (forall v, In v [Demo.fl 4] ->
         SFltb (PhaseScreen.thresh Demo.float_params_thresh10) v = false)
   /\ PhaseScreen._factorh Demo.float_params_thresh10
        (mk_nd [1; 1] [Demo.fl 4]) None
      = Ok (mk_nd [1; 0] [], mk_nd [1; 0] []))
  /\ ((forall v, SFltb (PhaseScreen.thresh Demo.float_params_inf) v = false)
      /\ PhaseScreen.xx_max Demo.float_params_inf = None
      /\ PhaseScreen.vv_max Demo.float_params_inf = None
      /\ shape (PhaseScreen.pupil Demo.float_params_inf) = [2; 2]
      /\ 0 < 2
      /\ g_pup_width Demo.script_globals = Some 2
      /\ 2 <= prod (shape (PhaseScreen.wind Demo.float_params_inf))
      /\ exists ps fxx fvv p,
          PhaseScreen.__init__ Demo.script_globals
            Demo.clock_classic_slower Demo.float_params_inf = Ok ps
          /\ PhaseScreen.factor_xx ps = Some fxx
          /\ PhaseScreen.factor_vv ps = Some fvv
          /\ shape fxx = [p; 0] /\ shape fvv = [p; 0]).
Proof.
  destruct (zero_modes_do_not_fail_construction spec_float float64
              toy_externals) as (Hf & Hi).
  split.
  - assert (E : @eigh spec_float toy_externals (mk_nd [1; 1] [Demo.fl 4])
                = Ok (mk_nd [1] [Demo.fl 4], mk_nd [1; 1] [Float64.one]))
      by (vm_compute; reflexivity).
    assert (Hall : forall v, In v [Demo.fl 4] ->
              SFltb (PhaseScreen.thresh Demo.float_params_thresh10) v
              = false).
    { intros v [Hv|[]]. subst v. reflexivity. }
    split; [exact E|]. split; [exact Hall|].
    destruct (Hf Demo.float_params_thresh10 (mk_nd [1; 1] [Demo.fl 4]) _ _
                E Hall)
      as (f & fi & r & Ef & Sm & Sf & Sfi & Df & Dfi).
    rewrite Ef. inversion Sm; subst r.
    destruct f as [shf df], fi as [shi di]; simpl in *. now subst.
  - assert (Hth : forall v,
              SFltb (PhaseScreen.thresh Demo.float_params_inf) v = false)
      by (intros v; destruct v as [s|[|]| |s m e]; reflexivity).
    assert (Hwind : 2 <= prod (shape (PhaseScreen.wind
                                        Demo.float_params_inf)))
      by (simpl; lia).
    split; [exact Hth|]. split; [reflexivity|]. split; [reflexivity|].
    split; [reflexivity|]. split; [lia|]. split; [reflexivity|].
    split; [exact Hwind|].
    destruct (Hi Demo.script_globals Demo.clock_classic_slower
                Demo.float_params_inf 2 Hth eq_refl eq_refl eq_refl
                (Nat.lt_0_succ 1) eq_refl Hwind)
      as (ps & fxx & fvv & sm & x0 & p & E & E1 & E2 & _ & _ & S1 & S2 & _).
    exists ps, fxx, fvv, p. repeat split; assumption.
Defined.

(** ** Exact integers obey the laws of exact arithmetic *)

Lemma exactZ_exact : @exact_arith Z exactZ.
Proof.
  constructor; simpl; intros; lia.
Qed.

(** ** Claims on the state matrix and the innovation covariance *)

Section LinearAlgebraClaims.
Import PhaseScreen.

Lemma einsum_ij_jk_ik_mat_mul {T : Type} `{Scalar T}
      (a b : ndarray T) (m k n : nat) :
  shape a = [m; k] -> shape b = [k; n] ->
  einsum_ij_jk_ik a b = mat_mul a b.
Proof.
  intros Sa Sb. rewrite (mat_mul_2d a b m k n Sa Sb).
  unfold einsum_ij_jk_ik. rewrite Sa, Sb, blabel_same. simpl.
  do 2 f_equal. apply tab2_ext. intros i l Hi Hl.
  apply sum_upto_ext. intros j Hj. now rewrite !bidx_lt.
Qed.

End LinearAlgebraClaims.

(** In float64 the classic and the factored evaluation of one state
    matrix return different arrays.  On the operands in tenths, applied to
    the batch [sigma2], three of the four entries differ in their last
    bits.  On the identity cross-covariance and the inverse factor
    [2^600 * I], applied to [(2^-600, 2^-600)], the dense matrix overflows:
    the classic evaluation, which is the textbook product [A . v], returns
    infinities, and the factored evaluation returns [2^600]. *)
Lemma strategies_disagree_in_float64 :
  (let sm := Demo.float_state_matrix Demo.cov_tenths Demo.inv_tenths
               Demo.clock_classic_slower in
   @PhaseScreen.StateMatrix_init spec_float float64 toy_externals
     Demo.cov_tenths Demo.inv_tenths Demo.clock_classic_slower = Ok sm
   /\ PhaseScreen.dot_classic sm Demo.sigma2
      = Ok (mk_nd [2; 2]
              [S754_finite false 5368290755825631 (-54);
               S754_finite false 5260204364768740 (-53);
               S754_finite false 5782621921543717 (-53);
               S754_finite false 5656521131977342 (-52)])
   /\ PhaseScreen.dot_factored sm Demo.sigma2
      = Ok (mk_nd [2; 2]
              [S754_finite false 5368290755825630 (-54);
               S754_finite false 5260204364768738 (-53);
               S754_finite false 5782621921543716 (-53);
               S754_finite false 5656521131977342 (-52)])
   /\ PhaseScreen.dot_classic sm Demo.sigma2
      <> PhaseScreen.dot_factored sm Demo.sigma2)
  /\ (let sm := Demo.float_state_matrix Demo.cov_eye Demo.inv_huge
                  Demo.clock_classic_slower in
      @PhaseScreen.StateMatrix_init spec_float float64 toy_externals
        Demo.cov_eye Demo.inv_huge Demo.clock_classic_slower = Ok sm
      /\ mat_mul (PhaseScreen.A sm) Demo.v_tiny
         = Ok (mk_nd [2] [Float64.inf; Float64.inf])
      /\ PhaseScreen.dot_classic sm Demo.v_tiny
         = Ok (mk_nd [2] [Float64.inf; Float64.inf])
      /\ PhaseScreen.dot_factored sm Demo.v_tiny
         = Ok (mk_nd [2] [Demo.pow2 600; Demo.pow2 600])
      /\ PhaseScreen.dot sm Demo.v_tiny
         = Ok (mk_nd [2] [Demo.pow2 600; Demo.pow2 600])).
Proof.
  split; cbv zeta.
  - assert (Ec : PhaseScreen.dot_classic
                   (Demo.float_state_matrix Demo.cov_tenths Demo.inv_tenths
                      Demo.clock_classic_slower) Demo.sigma2
                 = Ok (mk_nd [2; 2]
                         [S754_finite false 5368290755825631 (-54);
                          S754_finite false 5260204364768740 (-53);
                          S754_finite false 5782621921543717 (-53);
                          S754_finite false 5656521131977342 (-52)]))
      by (vm_compute; reflexivity).
    assert (Ef : PhaseScreen.dot_factored
                   (Demo.float_state_matrix Demo.cov_tenths Demo.inv_tenths
                      Demo.clock_classic_slower) Demo.sigma2
                 = Ok (mk_nd [2; 2]
                         [S754_finite false 5368290755825630 (-54);
                          S754_finite false 5260204364768738 (-53);
                          S754_finite false 5782621921543716 (-53);
                          S754_finite false 5656521131977342 (-52)]))
      by (vm_compute; reflexivity).
    split; [vm_compute; reflexivity|].
    split; [exact Ec|]. split; [exact Ef|].
    rewrite Ec, Ef. discriminate.
  - repeat split; vm_compute; reflexivity.
Qed.

(** C3.  A [StateMatrix] built from [(cov_yx, inv_factor_xx)] holds
    [ML = cov_yx . inv_factor_xx], [LT = inv_factor_xx.T], the dense
    [A = ML . LT] and the contraction order planned for the factored
    product.  On every vector or batch [v] whose leading extent is the
    column count of [A], both evaluations return an array of the shape of
    [A . v]; the classic evaluation returns the textbook product [A . v];
    [self.dot] returns the result of the evaluation the benchmark
    selected; for a square cross-covariance of order at least 2 and at
    least one retained mode the factored evaluation returns the two
    textbook products [ML . (LT . v)]; in exact arithmetic the two
    evaluations return the same array.  The scalars are arbitrary:
    float64 is an instance. *)
Theorem state_matrix_strategies_agree :
  forall (T : Type) (S : Scalar T) (X : Externals T)
         (cov_yx inv_factor_xx : ndarray T) (clk : clock T)
         (sm : PhaseScreen.StateMatrix T) (v : ndarray T)
         (m n : nat) (rest : list nat),
    PhaseScreen.StateMatrix_init cov_yx inv_factor_xx clk = Ok sm ->
    shape (PhaseScreen.A sm) = [m; n] ->
    shape v = n :: rest ->
    einsum_ij_jk_ik cov_yx inv_factor_xx = Ok (PhaseScreen.ML sm)
    /\ PhaseScreen.LT sm = transpose inv_factor_xx
    /\ mat_mul (PhaseScreen.ML sm) (PhaseScreen.LT sm)
       = Ok (PhaseScreen.A sm)
    /\ exists (k : nat) (y z : ndarray T),
        shape (PhaseScreen.ML sm) = [m; k]
        /\ shape (PhaseScreen.LT sm) = [k; n]
        /\ PhaseScreen.es_path_factored sm = einsum_path_optimal m k n
        /\ mat_mul (PhaseScreen.A sm) v = Ok y
        /\ shape y = m :: rest
        /\ PhaseScreen.dot_classic sm v = Ok y
        /\ PhaseScreen.dot_factored sm v = Ok z
        /\ shape z = m :: rest
        /\ PhaseScreen.dot sm v
           = Ok (match PhaseScreen.selected sm with
                 | PhaseScreen.Classic => y
                 | PhaseScreen.Factored => z
                 end)
        /\ (2 <= m -> m = n -> 1 <= k ->
            (t <- mat_mul (PhaseScreen.LT sm) v ;;
             mat_mul (PhaseScreen.ML sm) t) = Ok z)
        /\ (exact_arith T -> z = y).
Proof.
  intros T S X cov_yx inv_factor_xx clk sm v m n rest E Sa Sv.
  destruct (StateMatrix_init_fields _ _ _ _ E) as (Eml & Elt & Ea & _).
  destruct (StateMatrix_init_shapes _ _ _ _ E)
    as (m' & k & n' & Sm & Sl & Sa' & _ & _).
  rewrite Sa in Sa'. inversion Sa'; subst m' n'.
  split; [exact Eml|]. split; [exact Elt|]. split.
  { now rewrite <- (einsum_ij_jk_ik_mat_mul _ _ m k n Sm Sl). }
  destruct (dot_classic_ok sm v m n rest Sa Sv) as (y & Ey & Sy).
  destruct (dot_factored_ok sm v m k n rest Sm Sl Sv) as (z & Ez & Sz).
  exists k, y, z.
  split; [exact Sm|]. split; [exact Sl|].
  split; [exact (StateMatrix_init_path _ _ _ _ m k n E Sm Sl)|].
  split; [now rewrite <- (dot_classic_mat_mul sm v m n rest Sa Sv)|].
  split; [exact Sy|]. split; [exact Ey|]. split; [exact Ez|].
  split; [exact Sz|]. split; [|split].
  - unfold PhaseScreen.dot. now destruct (PhaseScreen.selected sm).
  - intros Hm Hmn Hk. subst n.
    rewrite <- Ez. symmetry.
    apply (dot_factored_mat_mul sm v m k m rest); try assumption.
    rewrite (StateMatrix_init_path _ _ _ _ m k m E Sm Sl).
    now apply einsum_path_optimal_square.
  - intros EA.
    assert (Ef := dot_classic_factored EA _ _ _ _ v E).
    congruence.
Qed.

(** Two runs of C3.  In float64, on the operands in tenths and the batch
    [sigma2]: both evaluations return, [self.dot] returns the factored
    result, which is [ML . (LT . v)].  On exact integers, with
    [cov_yx = [[1,2],[3,4]]], [inv_factor_xx = [[1],[2]]] and
    [v = [5, 6]]: both evaluations return [[85, 187]]. *)
Lemma state_matrix_strategies_agree_witness :
  (let sm := Demo.float_state_matrix Demo.cov_tenths Demo.inv_tenths
               Demo.clock_classic_slower in
   @PhaseScreen.StateMatrix_init spec_float float64 toy_externals
     Demo.cov_tenths Demo.inv_tenths Demo.clock_classic_slower = Ok sm
   /\ shape (PhaseScreen.A sm) = [2; 2]
   /\ shape Demo.sigma2 = [2; 2]
   /\ exists y z : ndarray spec_float,
       mat_mul (PhaseScreen.A sm) Demo.sigma2 = Ok y
       /\ PhaseScreen.dot_classic sm Demo.sigma2 = Ok y
       /\ PhaseScreen.dot_factored sm Demo.sigma2 = Ok z
       /\ (t <- mat_mul (PhaseScreen.LT sm) Demo.sigma2 ;;
           mat_mul (PhaseScreen.ML sm) t) = Ok z
       /\ PhaseScreen.dot sm Demo.sigma2 = Ok z)
  /\ (let cov_yx := mk_nd [2; 2] [1; 2; 3; 4]%Z in
      let inv_factor_xx := mk_nd [2; 1] [1; 2]%Z in
      let clk := {| t1 := 0; t2 := 10; t3 := 30 |}%Z in
      let v := mk_nd [2] [5; 6]%Z in
      exists sm : PhaseScreen.StateMatrix Z,
        @PhaseScreen.StateMatrix_init Z exactZ (@toy_externals Z exactZ)
          cov_yx inv_factor_xx clk = Ok sm
        /\ @PhaseScreen.dot_classic Z exactZ sm v
           = Ok (mk_nd [2] [85; 187]%Z)
        /\ @PhaseScreen.dot_factored Z exactZ sm v
           = Ok (mk_nd [2] [85; 187]%Z)).
Proof.
  split; cbv zeta.
  - set (sm := Demo.float_state_matrix Demo.cov_tenths Demo.inv_tenths
                 Demo.clock_classic_slower).
    assert (E : @PhaseScreen.StateMatrix_init spec_float float64
                  toy_externals Demo.cov_tenths Demo.inv_tenths
                  Demo.clock_classic_slower = Ok sm)
      by (vm_compute; reflexivity).
    assert (Sa : shape (PhaseScreen.A sm) = [2; 2])
      by (vm_compute; reflexivity).
    assert (Sv : shape Demo.sigma2 = [2; 2]) by reflexivity.
    assert (Hs : PhaseScreen.selected sm = PhaseScreen.Factored)
      by (vm_compute; reflexivity).
    destruct (state_matrix_strategies_agree spec_float float64
                toy_externals Demo.cov_tenths Demo.inv_tenths
                Demo.clock_classic_slower sm Demo.sigma2 2 2 [2] E Sa Sv)
      as (_ & _ & _ & k & y & z & Sm & _ & _ & Ey & _ & Ec & Ef & _ & Ed
          & Ht & _).
    assert (Hk : k = 2).
    { assert (Sm' : shape (PhaseScreen.ML sm) = [2; 2])
        by (vm_compute; reflexivity).
      rewrite Sm' in Sm. now inversion Sm. }
    split; [exact E|]. split; [exact Sa|]. split; [exact Sv|].
    exists y, z. split; [exact Ey|]. split; [exact Ec|].
    split; [exact Ef|]. split; [apply Ht; lia|].
    rewrite Ed, Hs. reflexivity.
  - set (cov_yx := mk_nd [2; 2] [1; 2; 3; 4]%Z).
    set (inv_factor_xx := mk_nd [2; 1] [1; 2]%Z).
    set (clk := {| t1 := 0%Z; t2 := 10%Z; t3 := 30%Z |}).
    set (v := mk_nd [2] [5; 6]%Z).
    set (sm := {| PhaseScreen.ML := mk_nd [2; 1] [5; 11]%Z;
                  PhaseScreen.LT := mk_nd [1; 2] [1; 2]%Z;
                  PhaseScreen.A := mk_nd [2; 2] [5; 10; 11; 22]%Z;
                  PhaseScreen.es_path_factored := bx_first;
                  PhaseScreen.selected := PhaseScreen.Factored |}).
    assert (E : @PhaseScreen.StateMatrix_init Z exactZ
                  (@toy_externals Z exactZ) cov_yx inv_factor_xx clk
                = Ok sm) by (vm_compute; reflexivity).
    destruct (state_matrix_strategies_agree Z exactZ
                (@toy_externals Z exactZ) cov_yx inv_factor_xx clk sm v
                2 2 [] E eq_refl eq_refl)
      as (_ & _ & _ & k & y & z & _ & _ & _ & Ey & _ & Ec & Ef & _ & _
          & _ & Hx).
    exists sm. split; [exact E|].
    assert (Ec' : @PhaseScreen.dot_classic Z exactZ sm v
                  = Ok (mk_nd [2] [85; 187]%Z)) by reflexivity.
    split; [exact Ec'|].
    rewrite Ef, (Hx exactZ_exact). rewrite <- Ec. exact Ec'.
Defined.




(** ** Claims on the PhaseScreen *)



(** In float64 the benchmark changes the states.  The 2x2 demonstration
    screen is constructed twice from the same parameters and seed; on the
    clock on which the classic product was slower the factored strategy
    is selected, on the other clock the classic one; after two steps the
    first and the last entry of the two state vectors differ in the last
    bit. *)
Lemma benchmark_changes_float64_states :
  @benchmark_verdict spec_float float64 Demo.clock_classic_slower
  = PhaseScreen.Factored
  /\ @benchmark_verdict spec_float float64 Demo.clock_factored_slower
     = PhaseScreen.Classic
  /\ Demo.float_state_after Demo.clock_classic_slower 2
     = [S754_finite false 5376261221851750 (-45);
        S754_finite false 5380598347881410 (-45);
        S754_finite false 5384935473911071 (-45);
        S754_finite false 5389272599940733 (-45)]
  /\ Demo.float_state_after Demo.clock_factored_slower 2
     = [S754_finite false 5376261221851749 (-45);
        S754_finite false 5380598347881410 (-45);
        S754_finite false 5384935473911071 (-45);
        S754_finite false 5389272599940732 (-45)]
  /\ @state_after spec_float float64 toy_externals Demo.script_globals
       Demo.clock_classic_slower Demo.float_params 2
     <> @state_after spec_float float64 toy_externals Demo.script_globals
          Demo.clock_factored_slower Demo.float_params 2.
Proof.
  assert (E1 : Demo.float_state_after Demo.clock_classic_slower 2
               = [S754_finite false 5376261221851750 (-45);
                  S754_finite false 5380598347881410 (-45);
                  S754_finite false 5384935473911071 (-45);
                  S754_finite false 5389272599940733 (-45)])
    by (vm_compute; reflexivity).
  assert (E2 : Demo.float_state_after Demo.clock_factored_slower 2
               = [S754_finite false 5376261221851749 (-45);
                  S754_finite false 5380598347881410 (-45);
                  S754_finite false 5384935473911071 (-45);
                  S754_finite false 5389272599940732 (-45)])
    by (vm_compute; reflexivity).
  split; [vm_compute; reflexivity|]. split; [vm_compute; reflexivity|].
  split; [exact E1|]. split; [exact E2|].
  intros Heq.
  assert (Hd : Demo.float_state_after Demo.clock_classic_slower 2
               = Demo.float_state_after Demo.clock_factored_slower 2)
    by (unfold Demo.float_state_after; now rewrite Heq).
  rewrite E1, E2 in Hd. discriminate Hd.
Qed.

(** C8.  The benchmark clock enters a PhaseScreen only through the
    strategy it makes the constructor select.  Two PhaseScreens
    constructed from the same parameters and seed whose benchmarks came
    to the same verdict are equal field by field, and, stepped the same
    number of times, hold the same state vector; if one construction or
    step raises, so does the other, with the same exception.  This holds
    for every scalar type, float64 included.  In exact arithmetic the
    states are the same whatever the two benchmarks decided.  The strategy
    a constructed PhaseScreen holds is the verdict of its benchmark. *)
Theorem same_seed_same_states :
  forall (T : Type) (S : Scalar T) (X : Externals T)
         (g : globals) (clk1 clk2 : clock T) (self : PhaseScreen.obj T)
         (k : nat),
    (benchmark_verdict clk1 = benchmark_verdict clk2 ->
     PhaseScreen.__init__ g clk1 self = PhaseScreen.__init__ g clk2 self
     /\ state_after g clk1 self k = state_after g clk2 self k)
    /\ (exact_arith T ->
        state_after g clk1 self k = state_after g clk2 self k)
    /\ (forall ps : PhaseScreen.obj T,
          PhaseScreen.__init__ g clk1 self = Ok ps ->
          exists sm : PhaseScreen.StateMatrix T,
            PhaseScreen.state_matrix ps = Some sm
            /\ PhaseScreen.selected sm = benchmark_verdict clk1).
Proof.
  intros T S X g clk1 clk2 self k. split; [|split].
  - intros V. split.
    + exact (init_same_verdict g clk1 clk2 self V).
    + exact (state_after_same_verdict g clk1 clk2 self k V).
  - intros EA. exact (state_after_clock EA g clk1 clk2 self k).
  - intros ps E. exact (init_verdict g clk1 self ps E).
Qed.

(** Two runs of C8.  In float64, two clocks on which the classic product
    was the slower one, by different amounts: the verdicts agree and the
    states after two steps are the same.  On exact integers, the
    classic-slower and the factored-slower clock: the strategies differ
    and the states after two steps are the same. *)
Lemma same_seed_same_states_witness :
  (@benchmark_verdict spec_float float64 Demo.clock_classic_slower
   = @benchmark_verdict spec_float float64 Demo.clock_classic_much_slower
   /\ @state_after spec_float float64 toy_externals Demo.script_globals
        Demo.clock_classic_slower Demo.float_params 2
      = @state_after spec_float float64 toy_externals Demo.script_globals
          Demo.clock_classic_much_slower Demo.float_params 2)
  /\ (@benchmark_verdict Z exactZ (@Demo.clock_classic_slower Z exactZ)
      = PhaseScreen.Factored
      /\ @benchmark_verdict Z exactZ (@Demo.clock_factored_slower Z exactZ)
         = PhaseScreen.Classic
      /\ Demo.int_state_after (@Demo.clock_classic_slower Z exactZ) 2
         = Demo.int_state_after (@Demo.clock_factored_slower Z exactZ) 2).
Proof.
  split.
  - assert (V : @benchmark_verdict spec_float float64
                  Demo.clock_classic_slower
                = @benchmark_verdict spec_float float64
                    Demo.clock_classic_much_slower)
      by (vm_compute; reflexivity).
    split; [exact V|].
    destruct (same_seed_same_states spec_float float64 toy_externals
                Demo.script_globals Demo.clock_classic_slower
                Demo.clock_classic_much_slower Demo.float_params 2)
      as (Hv & _ & _).
    exact (proj2 (Hv V)).
  - split; [vm_compute; reflexivity|]. split; [vm_compute; reflexivity|].
    destruct (same_seed_same_states Z exactZ Demo.int_externals
                Demo.script_globals (@Demo.clock_classic_slower Z exactZ)
                (@Demo.clock_factored_slower Z exactZ) Demo.int_params 2)
      as (_ & Hx & _).
    exact (Hx exactZ_exact).
Defined.

(** ** Claims on the Shack-Hartmann sensor *)

(** C7.  The source misses a case of the claim: the crop
    [padded//2 - fovx//2 : padded//2 + fovx//2] of [__init__] keeps
    [2*(fovx//2)] rows of the kernel, one short of [fovx] when [fovx] is
    odd.  For a 4x4 pupil (of any content), one subaperture and
    [fovx = 3], construction succeeds with a kernel [dft2] of shape
    [(4, 16)], and [measure] raises [ValueError] on every 4x4 phase map, at
    the reshape to [(N*N, fovx, fovx)]. *)
Theorem measure_raises_for_odd_fovx :
  forall (T : Type) (S : Scalar T) (Tr : Trig T)
         (pupil_data : list bool) (wl d : T) (phi_data : list T),
    let pupil := mk_nd [4; 4] pupil_data in
    let g := {| g_pup_width := Some 4; g_pupil := Some pupil |} in
    let built := SHWFS.__init__ g (SHWFS.fields pupil 1 3 wl d) in
    is_ok built = true
    /\ (sensor <- built ;;
        Ok (option_map (fun k => shape k) (SHWFS.dft2 sensor)))
       = Ok (Some [4; 16])
    /\ (sensor <- built ;; SHWFS.measure g sensor (mk_nd [4; 4] phi_data))
       = Raise ValueError.
Proof.
  intros T S Tr pupil_data wl d phi_data pupil g built.
  split; [|split]; vm_compute; reflexivity.
Qed.

(** With the even [fovx = 2] the same sensor returns the two views, of
    shapes [(1, 2, 2)] and [(2, 2)]. *)
Example measure_even_fovx_shapes :
  forall (T : Type) (S : Scalar T) (Tr : Trig T)
         (pupil_data : list bool) (wl d : T) (phi_data : list T),
    let pupil := mk_nd [4; 4] pupil_data in
    let g := {| g_pup_width := Some 4; g_pupil := Some pupil |} in
    (sensor <- SHWFS.__init__ g (SHWFS.fields pupil 1 2 wl d) ;;
     sensor' <- SHWFS.measure g sensor (mk_nd [4; 4] phi_data) ;;
     Ok (option_map (fun k => shape k) (SHWFS._im_subaps sensor'),
         option_map (fun k => shape k) (SHWFS._im_full sensor')))
    = Ok (Some [1; 2; 2], Some [2; 2]).
Proof.
  intros T S Tr pupil_data wl d phi_data pupil g.
  vm_compute. reflexivity.
Qed.

(** [measure] reads the module-level [pupil], not the sensor's own: when
    that name is unbound (the file is imported rather than run) the call
    raises [NameError], whatever the sensor holds. *)
Example measure_reads_module_level_pupil :
  forall (T : Type) (S : Scalar T) (Tr : Trig T)
         (sensor : SHWFS.obj T) (phi : ndarray T),
    SHWFS.measure {| g_pup_width := None; g_pupil := None |} sensor phi
    = Raise NameError.
Proof. reflexivity. Qed.

(* ===================================================================== *)
(** ** The Shack-Hartmann sensor beyond the sampled configurations *)
(* ===================================================================== *)

Lemma reshape_ok {U : Type} (a : ndarray U) (new : list nat) :
  prod new = prod (shape a) -> reshape a new = Ok (mk_nd new (data a)).
Proof.
  intros E. unfold reshape. now rewrite (proj2 (Nat.eqb_eq _ _) E).
Qed.

Lemma reshape_raise {U : Type} (a : ndarray U) (new : list nat) :
  prod new <> prod (shape a) -> reshape a new = Raise ValueError.
Proof.
  intros E. unfold reshape. now rewrite (proj2 (Nat.eqb_neq _ _) E).
Qed.

Lemma broadcast_rev_same (l : list nat) : broadcast_rev l l = Ok l.
Proof.
  induction l as [|d l IH]; [reflexivity|].
  cbn [broadcast_rev]. rewrite blabel_same. cbn [bind].
  now rewrite IH.
Qed.

Lemma broadcast_shapes_same (l : list nat) : broadcast_shapes l l = Ok l.
Proof.
  unfold broadcast_shapes. rewrite broadcast_rev_same. cbn [bind].
  now rewrite rev_involutive.
Qed.

Section SensorFacts.
Context {T : Type} `{Scalar T} `{Trig T}.
Import SHWFS.

Lemma kernel_1d_shape (sw fov : nat) :
  0 < Nat.max (sw * 2) fov ->
  exists k : ndarray (complex T),
    kernel_1d sw fov (Nat.max (sw * 2) fov) = Ok k
    /\ shape k = [kept_rows sw fov; sw].
Proof.
  intros Hsw. unfold kernel_1d, fft_eye_ortho, kept_rows.
  destruct (Nat.max (sw * 2) fov =? 0) eqn:E0.
  { apply Nat.eqb_eq in E0. lia. }
  cbn [bind].
  destruct (fov <? Nat.max (sw * 2) fov) eqn:E1.
  - apply Nat.ltb_lt in E1.
    assert (L : fov < sw * 2) by lia.
    rewrite (proj2 (Nat.ltb_lt _ _) L).
    rewrite Nat.max_l by lia. rewrite Nat.div_mul by lia.
    eexists. split; [reflexivity|]. cbn [shape].
    f_equal.
    assert (fov / 2 <= sw) by (apply Nat.Div0.div_le_upper_bound; lia).
    lia.
  - apply Nat.ltb_ge in E1.
    assert (L : sw * 2 <= fov) by lia.
    rewrite (proj2 (Nat.ltb_ge _ _) L).
    rewrite Nat.max_r by lia.
    eexists. split; reflexivity.
Qed.

Lemma kernel_1d_no_points (sw fov : nat) :
  Nat.max (sw * 2) fov = 0 ->
  @kernel_1d T _ _ sw fov (Nat.max (sw * 2) fov) = Raise ValueError.
Proof.
  intros E. rewrite E. reflexivity.
Qed.

Lemma kron_self_shape (a : ndarray (complex T)) (r c : nat) :
  shape a = [r; c] ->
  exists k, kron_self a = Ok k /\ shape k = [r * r; c * c].
Proof.
  intros E. unfold kron_self. rewrite E. eexists. split; reflexivity.
Qed.

Lemma batch_subapertures_ok (self : obj T) (sw : nat)
    (camp : ndarray (complex T)) :
  prod (shape camp) = nsubx self * sw * (nsubx self * sw) ->
  exists b, batch_subapertures self sw camp = Ok b
            /\ shape b = [nsubx self; nsubx self; sw * sw].
Proof.
  intros E. unfold batch_subapertures.
  rewrite reshape_ok by (cbn [prod fold_right]; rewrite E; ring).
  cbn [bind]. unfold swapaxes_1_2. cbn [shape length Nat.ltb Nat.leb swap12 bind].
  rewrite reshape_ok by (cbn [shape prod fold_right]; ring).
  eexists. split; reflexivity.
Qed.

Lemma batch_subapertures_raise (self : obj T) (sw : nat)
    (camp : ndarray (complex T)) :
  prod (shape camp) <> nsubx self * sw * (nsubx self * sw) ->
  batch_subapertures self sw camp = Raise ValueError.
Proof.
  intros E. unfold batch_subapertures.
  rewrite reshape_raise; [reflexivity|].
  cbn [prod fold_right]. intros E'. apply E. rewrite <- E'. ring.
Qed.

Lemma einsum_ijq_pq_ijp_ok (a b : ndarray (complex T)) (n1 n2 q p : nat) :
  shape a = [n1; n2; q] -> shape b = [p; q] ->
  exists r, einsum_ijq_pq_ijp a b = Ok r /\ shape r = [n1; n2; p]
            /\ length (data r) = n1 * n2 * p.
Proof.
  intros Ea Eb. unfold einsum_ijq_pq_ijp. rewrite Ea, Eb.
  rewrite blabel_same. cbn [bind].
  eexists. split; [reflexivity|]. split; [reflexivity|].
  cbn [data]. apply length_tabulate.
Qed.

Lemma subwidth_ok (self : obj T) (n sw : nat) (rest : list nat) :
  0 < n -> nsubx self = n -> shape (pupil self) = (n * sw) :: rest ->
  subwidth self = Ok sw.
Proof.
  intros Hn En Ep. unfold subwidth. rewrite Ep, En.
  destruct (n =? 0) eqn:E0; [apply Nat.eqb_eq in E0; lia|].
  now rewrite Nat.mul_comm, Nat.div_mul by lia.
Qed.

(** What [__init__] leaves behind on a pupil of [n x n] subapertures of
    [sw x sw] points. *)
Lemma init_ok (g : globals) (self : obj T) (gp : ndarray bool)
    (n sw : nat) :
  0 < n -> 0 < sw ->
  nsubx self = n -> shape (pupil self) = [n * sw; n * sw] ->
  g_pupil g = Some gp -> shape gp = [n * sw; n * sw] ->
  exists d2,
    shape d2 = [kept_rows sw (fovx self) * kept_rows sw (fovx self);
                sw * sw]
    /\ __init__ g self
       = Ok {| pupil := pupil self; nsubx := nsubx self;
               fovx := fovx self; wavelength := wavelength self;
               dft2 := Some d2; slices := slices self;
               es_path := Some contract_pair;
               _im_subaps := _im_subaps self; _im_full := _im_full self;
               diam := diam self;
               padded_width := Some (Nat.max (sw * 2) (fovx self)) |}.
Proof.
  intros Hn Hsw En Ep Eg Sg.
  unfold __init__.
  rewrite (subwidth_ok self n sw [n * sw] Hn En Ep). cbn [bind].
  destruct (kernel_1d_shape sw (fovx self)) as (k & Ek & Sk); [lia|].
  rewrite Ek. cbn [bind].
  destruct (kron_self_shape k _ _ Sk) as (d2 & Ed2 & Sd2).
  rewrite Ed2. cbn [bind]. rewrite Eg. cbn [require bind].
  destruct (batch_subapertures_ok self sw
              (mk_nd (shape gp) (map c_of_bool (data gp))))
    as (b & Eb & Sb).
  { cbn [shape]. rewrite Sg, En. cbn [prod fold_right]. ring. }
  rewrite Eb. cbn [bind].
  destruct (einsum_ijq_pq_ijp_ok b d2 _ _ _ _ Sb Sd2) as (r & Er & _).
  rewrite Er. cbn [bind].
  exists d2. split; [exact Sd2|reflexivity].
Qed.

(** The stage of [measure] up to the intensities, on a calibrated
    sensor. *)
Lemma measure_intensity (g : globals) (self : obj T) (gp : ndarray bool)
    (d2 : ndarray (complex T)) (pl : einsum_plan) (phi : ndarray T)
    (n sw r : nat) :
  0 < n ->
  nsubx self = n -> shape (pupil self) = [n * sw; n * sw] ->
  g_pupil g = Some gp -> shape gp = [n * sw; n * sw] ->
  shape phi = [n * sw; n * sw] ->
  dft2 self = Some d2 -> es_path self = Some pl ->
  shape d2 = [r; sw * sw] ->
  exists amp : ndarray (complex T),
    shape amp = [n; n; r] /\ length (data amp) = n * n * r
    /\ measure g self phi
       = (let im := mk_nd (shape amp) (map abs2 (data amp)) in
          subaps <- reshape im [nsubx self * nsubx self; fovx self;
                                fovx self] ;;
          im4 <- reshape im [nsubx self; nsubx self; fovx self;
                             fovx self] ;;
          im4 <- swapaxes_1_2 s_zero im4 ;;
          full <- reshape im4 [nsubx self * fovx self;
                               nsubx self * fovx self] ;;
          Ok {| pupil := pupil self; nsubx := nsubx self;
                fovx := fovx self; wavelength := wavelength self;
                dft2 := dft2 self; slices := slices self;
                es_path := es_path self;
                _im_subaps := Some subaps; _im_full := Some full;
                diam := diam self;
                padded_width := padded_width self |}).
Proof.
  intros Hn En Ep Eg Sg Sphi Ed Ee Sd.
  unfold measure. rewrite Eg. cbn [require bind].
  unfold c_times. cbn [shape]. rewrite Sg, Sphi.
  rewrite broadcast_shapes_same. cbn [bind].
  rewrite (subwidth_ok self n sw [n * sw] Hn En Ep). cbn [bind].
  match goal with
  | |- context [batch_subapertures self sw ?c] =>
      destruct (batch_subapertures_ok self sw c) as (b & Eb & Sb)
  end.
  { cbn [shape prod fold_right]. rewrite En. ring. }
  rewrite Eb. cbn [bind]. rewrite Ee, Ed. cbn [require bind].
  rewrite En in Sb.
  destruct (einsum_ijq_pq_ijp_ok b d2 _ _ _ _ Sb Sd) as (amp & Ea & Sa & La).
  rewrite Ea. cbn [bind].
  exists amp. split; [exact Sa|]. split; [exact La|]. reflexivity.
Qed.

End SensorFacts.

Lemma kept_rows_even (sw fov : nat) :
  Nat.even fov = true \/ sw * 2 <= fov -> kept_rows sw fov = fov.
Proof.
  intros [E|L]; unfold kept_rows.
  - destruct (fov <? sw * 2); [|reflexivity].
    apply Nat.even_spec in E. destruct E as (m & ->).
    rewrite (Nat.mul_comm 2 m), Nat.div_mul by lia. lia.
  - now rewrite (proj2 (Nat.ltb_ge _ _) L).
Qed.

Lemma kept_rows_odd (sw fov : nat) :
  Nat.odd fov = true -> fov < sw * 2 -> S (kept_rows sw fov) = fov.
Proof.
  intros O L. unfold kept_rows. rewrite (proj2 (Nat.ltb_lt _ _) L).
  apply Nat.odd_spec in O. destruct O as (m & ->).
  replace (2 * m + 1) with (1 + m * 2) by lia.
  rewrite Nat.div_add by lia. cbn [Nat.div Nat.divmod fst]. lia.
Qed.

(** Construction followed by one measurement, in terms of the private
    fields. *)
Lemma init_then_measure_ok :
  forall (T : Type) (S : Scalar T) (Tr : Trig T) (g : globals)
         (self : SHWFS.obj T) (gp : ndarray bool) (phi : ndarray T)
         (n sw : nat),
    0 < n -> 0 < sw ->
    SHWFS.nsubx self = n ->
    shape (SHWFS.pupil self) = [n * sw; n * sw] ->
    g_pupil g = Some gp -> shape gp = [n * sw; n * sw] ->
    shape phi = [n * sw; n * sw] ->
    Nat.even (SHWFS.fovx self) = true \/ sw * 2 <= SHWFS.fovx self ->
    exists s0 s1 subaps full,
      SHWFS.__init__ g self = Ok s0
      /\ SHWFS.measure g s0 phi = Ok s1
      /\ SHWFS._im_subaps s1 = Some subaps
      /\ SHWFS._im_full s1 = Some full
      /\ shape subaps = [n * n; SHWFS.fovx self; SHWFS.fovx self]
      /\ well_shaped subaps
      /\ shape full = [n * SHWFS.fovx self; n * SHWFS.fovx self]
      /\ well_shaped full
      /\ data full
         = tabulate (prod [n; SHWFS.fovx self; n; SHWFS.fovx self])
             (fun k =>
                nth (ravel [n; n; SHWFS.fovx self; SHWFS.fovx self]
                       (SHWFS.swap12
                          (unravel [n; SHWFS.fovx self; n; SHWFS.fovx self]
                                   k)))
                    (data subaps) s_zero).
Proof.
  intros T S Tr g self gp phi n sw Hn Hsw En Ep Eg Sg Sphi Hf.
  destruct (init_ok g self gp n sw Hn Hsw En Ep Eg Sg) as (d2 & Sd & E0).
  rewrite (kept_rows_even _ _ Hf) in Sd.
  rewrite E0.
  match goal with
  | |- context [Ok ?s = Ok _] => set (s0 := s)
  end.
  destruct (measure_intensity g s0 gp d2 SHWFS.contract_pair phi n sw _
              Hn En Ep Eg Sg Sphi eq_refl eq_refl Sd)
    as (amp & Sa & La & Em).
  set (fov := SHWFS.fovx self) in *.
  cbv zeta in Em. cbn [SHWFS.nsubx SHWFS.fovx s0] in Em.
  fold fov in Em. rewrite En in Em.
  rewrite reshape_ok in Em
    by (cbn [shape]; rewrite Sa; cbn [prod fold_right]; ring).
  cbn [bind] in Em.
  rewrite reshape_ok in Em
    by (cbn [shape]; rewrite Sa; cbn [prod fold_right]; ring).
  cbn [bind] in Em.
  unfold SHWFS.swapaxes_1_2 in Em.
  cbn [shape length Nat.ltb Nat.leb SHWFS.swap12 bind] in Em.
  rewrite reshape_ok in Em by (cbn [shape prod fold_right]; ring).
  cbn [bind] in Em.
  eexists. eexists. eexists. eexists.
  split; [reflexivity|]. split; [exact Em|].
  split; [reflexivity|]. split; [reflexivity|].
  split; [reflexivity|]. split.
  { unfold well_shaped. cbn [data shape]. rewrite length_map, La.
    cbn [prod fold_right]. ring. }
  split; [reflexivity|].
  split; [|reflexivity].
  unfold well_shaped. cbn [data shape]. rewrite length_tabulate.
  cbn [prod fold_right]. ring.
Qed.

(** X1.  On a pupil of [n x n] subapertures of [sw x sw] points, with the
    module-level pupil and the phase map of the same shape, and a field of
    view [fovx] that is even or at least [2*sw]: [__init__] succeeds, and
    after [measure] the property [image_batched] returns an array of shape
    [(n*n, fovx, fovx)] and [image] one of shape [(n*fovx, n*fovx)], both
    holding as many values as their shape says. *)
Theorem measure_views_have_sensor_shapes :
  forall (T : Type) (S : Scalar T) (Tr : Trig T) (g : globals)
         (self : SHWFS.obj T) (gp : ndarray bool) (phi : ndarray T)
         (n sw : nat),
    0 < n -> 0 < sw ->
    SHWFS.nsubx self = n ->
    shape (SHWFS.pupil self) = [n * sw; n * sw] ->
    g_pupil g = Some gp -> shape gp = [n * sw; n * sw] ->
    shape phi = [n * sw; n * sw] ->
    Nat.even (SHWFS.fovx self) = true \/ sw * 2 <= SHWFS.fovx self ->
    exists s0 s1 subaps full,
      SHWFS.__init__ g self = Ok s0
      /\ SHWFS.measure g s0 phi = Ok s1
      /\ Views.image_batched s1 = Ok subaps
      /\ Views.image s1 = Ok full
      /\ shape subaps = [n * n; SHWFS.fovx self; SHWFS.fovx self]
      /\ well_shaped subaps
      /\ shape full = [n * SHWFS.fovx self; n * SHWFS.fovx self]
      /\ well_shaped full.
Proof.
  intros T S Tr g self gp phi n sw Hn Hsw En Ep Eg Sg Sphi Hf.
  destruct (init_then_measure_ok T S Tr g self gp phi n sw
              Hn Hsw En Ep Eg Sg Sphi Hf)
    as (s0 & s1 & subaps & full & E0 & E1 & Es & Ef & Ss & Ws & Sf & Wf
        & _).
  exists s0, s1, subaps, full.
  split; [exact E0|]. split; [exact E1|].
  unfold Views.image_batched, Views.image. rewrite Es, Ef.
  repeat split; assumption.
Qed.

Lemma measure_views_have_sensor_shapes_witness :
  exists s0 s1 subaps full,
    @SHWFS.__init__ Z exactZ (@DemoSensor.flat_trig Z exactZ)
       DemoSensor.sensor_globals (DemoSensor.sensor 2) = Ok s0
    /\ @SHWFS.measure Z exactZ (@DemoSensor.flat_trig Z exactZ)
          DemoSensor.sensor_globals s0 DemoSensor.phi4 = Ok s1
    /\ @Views.image_batched Z exactZ s1 = Ok subaps
    /\ @Views.image Z exactZ s1 = Ok full
    /\ shape subaps = [2 * 2; 2; 2] /\ well_shaped subaps
    /\ shape full = [2 * 2; 2 * 2] /\ well_shaped full.
Proof.
  apply (measure_views_have_sensor_shapes Z exactZ (@DemoSensor.flat_trig Z exactZ)
           DemoSensor.sensor_globals (DemoSensor.sensor 2)
           DemoSensor.pupil4 DemoSensor.phi4 2 2);
    try reflexivity; try lia.
  left. reflexivity.
Defined.

(** X2.  With an odd [fovx] below [2*sw] on the same sensor, [__init__]
    still succeeds, and every call of [measure] on a phase map of the
    pupil's shape raises [ValueError]. *)
Theorem measure_raises_for_every_odd_small_fovx :
  forall (T : Type) (S : Scalar T) (Tr : Trig T) (g : globals)
         (self : SHWFS.obj T) (gp : ndarray bool) (phi : ndarray T)
         (n sw : nat),
    0 < n -> 0 < sw ->
    SHWFS.nsubx self = n ->
    shape (SHWFS.pupil self) = [n * sw; n * sw] ->
    g_pupil g = Some gp -> shape gp = [n * sw; n * sw] ->
    shape phi = [n * sw; n * sw] ->
    Nat.odd (SHWFS.fovx self) = true -> SHWFS.fovx self < sw * 2 ->
    exists s0,
      SHWFS.__init__ g self = Ok s0
      /\ SHWFS.measure g s0 phi = Raise ValueError.
Proof.
  intros T S Tr g self gp phi n sw Hn Hsw En Ep Eg Sg Sphi Ho Hl.
  destruct (init_ok g self gp n sw Hn Hsw En Ep Eg Sg) as (d2 & Sd & E0).
  rewrite E0.
  match goal with
  | |- context [Ok ?s = Ok _] => set (s0 := s)
  end.
  destruct (measure_intensity g s0 gp d2 SHWFS.contract_pair phi n sw _
              Hn En Ep Eg Sg Sphi eq_refl eq_refl Sd)
    as (amp & Sa & La & Em).
  assert (K := kept_rows_odd sw _ Ho Hl).
  set (fov := SHWFS.fovx self) in *.
  set (r := kept_rows sw fov) in *.
  cbv zeta in Em. cbn [SHWFS.nsubx SHWFS.fovx s0] in Em.
  fold fov in Em. rewrite En in Em.
  rewrite reshape_raise in Em.
  - exists s0. split; [reflexivity|exact Em].
  - cbn [shape]. rewrite Sa. cbn [prod fold_right]. nia.
Qed.

Lemma measure_raises_for_every_odd_small_fovx_witness :
  exists s0,
    @SHWFS.__init__ Z exactZ (@DemoSensor.flat_trig Z exactZ)
       DemoSensor.sensor_globals (DemoSensor.sensor 3) = Ok s0
    /\ @SHWFS.measure Z exactZ (@DemoSensor.flat_trig Z exactZ)
          DemoSensor.sensor_globals s0 DemoSensor.phi4
       = Raise ValueError.
Proof.
  apply (measure_raises_for_every_odd_small_fovx Z exactZ
           (@DemoSensor.flat_trig Z exactZ) DemoSensor.sensor_globals
           (DemoSensor.sensor 3) DemoSensor.pupil4 DemoSensor.phi4 2 2);
    try reflexivity; try lia.
  cbn. lia.
Defined.

(** X3.  When the pupil width is not a multiple of [nsubx], [__init__]
    raises [ValueError]: the pupil cannot be cut into
    [nsubx x nsubx] subapertures of [width // nsubx] points (and with no
    point per subaperture and [fovx = 0] the DFT of no points is refused
    first). *)
Theorem init_raises_when_width_is_not_a_multiple :
  forall (T : Type) (S : Scalar T) (Tr : Trig T) (g : globals)
         (self : SHWFS.obj T) (gp : ndarray bool) (w : nat),
    0 < SHWFS.nsubx self ->
    shape (SHWFS.pupil self) = [w; w] ->
    g_pupil g = Some gp -> shape gp = [w; w] ->
    w mod SHWFS.nsubx self <> 0 ->
    SHWFS.__init__ g self = Raise ValueError.
Proof.
  intros T S Tr g self gp w Hn Ep Eg Sg Hm.
  set (n := SHWFS.nsubx self) in *.
  assert (Hlt : n * (w / n) < w).
  { pose proof (Nat.div_mod_eq w n). lia. }
  unfold SHWFS.__init__, SHWFS.subwidth. rewrite Ep. fold n.
  destruct (n =? 0) eqn:E0; [apply Nat.eqb_eq in E0; lia|].
  cbn [bind].
  destruct (Nat.eq_dec (Nat.max (w / n * 2) (SHWFS.fovx self)) 0)
    as [Z0|NZ].
  { now rewrite kernel_1d_no_points. }
  destruct (kernel_1d_shape (T := T) (w / n) (SHWFS.fovx self))
    as (k & Ek & Sk); [lia|].
  rewrite Ek. cbn [bind].
  destruct (kron_self_shape k _ _ Sk) as (d2 & Ed2 & Sd2).
  rewrite Ed2. cbn [bind]. rewrite Eg. cbn [require bind].
  rewrite batch_subapertures_raise; [reflexivity|].
  cbn [shape]. rewrite Sg. cbn [prod fold_right]. fold n. nia.
Qed.

Lemma init_raises_when_width_is_not_a_multiple_witness :
  @SHWFS.__init__ Z exactZ (@DemoSensor.flat_trig Z exactZ) DemoSensor.sensor_globals
     (@SHWFS.fields Z DemoSensor.pupil4 3 2 1%Z 8%Z)
  = Raise ValueError.
Proof.
  apply (init_raises_when_width_is_not_a_multiple Z exactZ
           (@DemoSensor.flat_trig Z exactZ) DemoSensor.sensor_globals
           (@SHWFS.fields Z DemoSensor.pupil4 3 2 1%Z 8%Z)
           DemoSensor.pupil4 4);
    try reflexivity; cbn; lia.
Defined.

(** X4.  [measure] keeps no memory of earlier frames: after a successful
    [measure(phi1)] the sensor's configuration (pupil, nsubx, fovx,
    wavelength, kernel, contraction path, diameter, padded width) is
    unchanged, and [measure(phi2)] gives what it would have given on the
    sensor before the first call. *)
Theorem measure_forgets_the_previous_frame :
  forall (T : Type) (S : Scalar T) (Tr : Trig T) (g : globals)
         (s s1 : SHWFS.obj T) (phi1 phi2 : ndarray T),
    SHWFS.measure g s phi1 = Ok s1 ->
    SHWFS.measure g s1 phi2 = SHWFS.measure g s phi2
    /\ SHWFS.pupil s1 = SHWFS.pupil s
    /\ SHWFS.nsubx s1 = SHWFS.nsubx s
    /\ SHWFS.fovx s1 = SHWFS.fovx s
    /\ SHWFS.wavelength s1 = SHWFS.wavelength s
    /\ SHWFS.dft2 s1 = SHWFS.dft2 s
    /\ SHWFS.es_path s1 = SHWFS.es_path s
    /\ SHWFS.diam s1 = SHWFS.diam s
    /\ SHWFS.padded_width s1 = SHWFS.padded_width s.
Proof.
  intros T S Tr g s s1 phi1 phi2 E.
  unfold SHWFS.measure in E.
  bind_split E as gp Egp. cbv zeta in E.
  bind_split E as camp Ecamp.
  bind_split E as sw Esw.
  bind_split E as camp' Ecamp'.
  bind_split E as pl Epl.
  bind_split E as d2 Ed2.
  bind_split E as amp Eamp. cbv zeta in E.
  bind_split E as subaps Esubaps.
  bind_split E as im4 Eim4.
  bind_split E as im4' Eim4'.
  bind_split E as full Efull.
  inversion E; subst s1; clear E.
  repeat split; reflexivity.
Qed.

Lemma measure_forgets_the_previous_frame_witness :
  exists s0 s1,
    @SHWFS.__init__ Z exactZ (@DemoSensor.flat_trig Z exactZ)
       DemoSensor.sensor_globals (DemoSensor.sensor 2) = Ok s0
    /\ @SHWFS.measure Z exactZ (@DemoSensor.flat_trig Z exactZ)
         DemoSensor.sensor_globals s0 DemoSensor.phi4 = Ok s1
    /\ @SHWFS.measure Z exactZ (@DemoSensor.flat_trig Z exactZ)
         DemoSensor.sensor_globals s1 DemoSensor.pupil_phase
       = @SHWFS.measure Z exactZ (@DemoSensor.flat_trig Z exactZ)
           DemoSensor.sensor_globals s0 DemoSensor.pupil_phase.
Proof.
  destruct (@SHWFS.__init__ Z exactZ (@DemoSensor.flat_trig Z exactZ)
              DemoSensor.sensor_globals (DemoSensor.sensor 2))
    as [s0|e] eqn:E0; [|vm_compute in E0; discriminate].
  destruct (@SHWFS.measure Z exactZ (@DemoSensor.flat_trig Z exactZ)
              DemoSensor.sensor_globals s0 DemoSensor.phi4)
    as [s1|e] eqn:E1.
  - exists s0, s1. split; [reflexivity|]. split; [exact E1|].
    exact (proj1 (measure_forgets_the_previous_frame Z exactZ
                    (@DemoSensor.flat_trig Z exactZ) DemoSensor.sensor_globals
                    s0 s1 DemoSensor.phi4 DemoSensor.pupil_phase E1)).
  - exfalso. vm_compute in E0. inversion E0; subst s0.
    vm_compute in E1. discriminate.
Defined.

(** X5.  A sensor that [__init__] has just built holds no frame: reading
    [image] or [image_batched] before the first [measure] raises
    [AttributeError]. *)
Theorem no_image_before_the_first_measure :
  forall (T : Type) (S : Scalar T) (Tr : Trig T) (g : globals)
         (p : ndarray bool) (n fov : nat) (wl d : T) (s0 : SHWFS.obj T),
    SHWFS.__init__ g (SHWFS.fields p n fov wl d) = Ok s0 ->
    Views.image s0 = Raise AttributeError
    /\ Views.image_batched s0 = Raise AttributeError.
Proof.
  intros T S Tr g p n fov wl d s0 E.
  unfold SHWFS.__init__ in E.
  bind_split E as sw Esw. cbv zeta in E.
  bind_split E as dft Edft.
  bind_split E as d2 Ed2.
  bind_split E as gp Egp. cbv zeta in E.
  bind_split E as camp Ecamp.
  bind_split E as r Er.
  inversion E; subst s0. split; reflexivity.
Qed.

Lemma no_image_before_the_first_measure_witness :
  exists s0,
    @SHWFS.__init__ Z exactZ (@DemoSensor.flat_trig Z exactZ)
       DemoSensor.sensor_globals (DemoSensor.sensor 2) = Ok s0
    /\ @Views.image Z exactZ s0 = Raise AttributeError
    /\ @Views.image_batched Z exactZ s0 = Raise AttributeError.
Proof.
  destruct (@SHWFS.__init__ Z exactZ (@DemoSensor.flat_trig Z exactZ)
              DemoSensor.sensor_globals (DemoSensor.sensor 2))
    as [s0|e] eqn:E0; [|vm_compute in E0; discriminate].
  exists s0. split; [reflexivity|].
  exact (no_image_before_the_first_measure Z exactZ (@DemoSensor.flat_trig Z exactZ)
           DemoSensor.sensor_globals DemoSensor.pupil4 2 2 1%Z 8%Z s0 E0).
Defined.

(** X18.  [SHWFS.__init__] on a pupil of [n x n] subapertures of
    [sw x sw] points returns for every [fovx]: it stores
    [padded_width = max(2*sw, fovx)], a contraction path, and a kernel
    [dft2] of shape [(r*r, sw*sw)], where the number [r] of rows kept per
    axis is [2*(fovx//2)] when [fovx < 2*sw] (the crop) and [fovx]
    otherwise; the fields given by the caller are unchanged. *)
Theorem init_stores_the_cropped_kernel :
  forall (T : Type) (S : Scalar T) (Tr : Trig T) (g : globals)
         (self : SHWFS.obj T) (gp : ndarray bool) (n sw : nat),
    0 < n -> 0 < sw ->
    SHWFS.nsubx self = n ->
    shape (SHWFS.pupil self) = [n * sw; n * sw] ->
    g_pupil g = Some gp -> shape gp = [n * sw; n * sw] ->
    exists s0 d2,
      SHWFS.__init__ g self = Ok s0
      /\ SHWFS.dft2 s0 = Some d2
      /\ shape d2
         = [kept_rows sw (SHWFS.fovx self) * kept_rows sw (SHWFS.fovx self);
            sw * sw]
      /\ SHWFS.padded_width s0
         = Some (Nat.max (sw * 2) (SHWFS.fovx self))
      /\ SHWFS.es_path s0 = Some SHWFS.contract_pair
      /\ SHWFS.pupil s0 = SHWFS.pupil self
      /\ SHWFS.nsubx s0 = SHWFS.nsubx self
      /\ SHWFS.fovx s0 = SHWFS.fovx self
      /\ SHWFS.wavelength s0 = SHWFS.wavelength self
      /\ SHWFS.diam s0 = SHWFS.diam self.
Proof.
  intros T S Tr g self gp n sw Hn Hsw En Ep Eg Sg.
  destruct (init_ok g self gp n sw Hn Hsw En Ep Eg Sg) as (d2 & Sd & E0).
  eexists. exists d2. split; [exact E0|].
  cbn [SHWFS.dft2 SHWFS.padded_width SHWFS.es_path SHWFS.pupil SHWFS.nsubx
       SHWFS.fovx SHWFS.wavelength SHWFS.diam].
  repeat split; try reflexivity. exact Sd.
Qed.

Lemma init_stores_the_cropped_kernel_witness :
  exists s0 d2,
    @SHWFS.__init__ Z exactZ (@DemoSensor.flat_trig Z exactZ)
       DemoSensor.sensor_globals (DemoSensor.sensor 3) = Ok s0
    /\ SHWFS.dft2 s0 = Some d2
    /\ shape d2 = [2 * 2; 2 * 2]
    /\ SHWFS.padded_width s0 = Some 4.
Proof.
  destruct (init_stores_the_cropped_kernel Z exactZ
              (@DemoSensor.flat_trig Z exactZ) DemoSensor.sensor_globals
              (DemoSensor.sensor 3) DemoSensor.pupil4 2 2
              ltac:(lia) ltac:(lia) eq_refl eq_refl eq_refl eq_refl)
    as (s0 & d2 & E & Ed & Sd & Ew & _).
  exists s0, d2. split; [exact E|]. split; [exact Ed|].
  split; [exact Sd|exact Ew].
Defined.

Lemma ravel_lt (sh idx : list nat) :
  Forall2 lt idx sh -> ravel sh idx < prod sh.
Proof.
  intros F. induction F as [|i d idx sh Hi F IH]; cbn [ravel prod fold_right].
  - lia.
  - fold (prod sh). nia.
Qed.

Lemma unravel_ravel (sh idx : list nat) :
  Forall2 lt idx sh -> unravel sh (ravel sh idx) = idx.
Proof.
  intros F. induction F as [|i d idx sh Hi F IH]; cbn [ravel unravel].
  - reflexivity.
  - pose proof (ravel_lt sh idx F) as L.
    rewrite flat_index_div, flat_index_mod by exact L.
    now rewrite IH.
Qed.

(** X20.  The full readout is the mosaic of the subaperture frames: under
    the conditions of X1, pixel [(a, b)] of the frame of subaperture
    [(i, j)] (frame [i*n + j] of [image_batched]) is pixel
    [(i*fovx + a, j*fovx + b)] of [image]. *)
Theorem image_is_the_mosaic_of_the_subaperture_frames :
  forall (T : Type) (S : Scalar T) (Tr : Trig T) (g : globals)
         (self : SHWFS.obj T) (gp : ndarray bool) (phi : ndarray T)
         (n sw : nat),
    0 < n -> 0 < sw ->
    SHWFS.nsubx self = n ->
    shape (SHWFS.pupil self) = [n * sw; n * sw] ->
    g_pupil g = Some gp -> shape gp = [n * sw; n * sw] ->
    shape phi = [n * sw; n * sw] ->
    Nat.even (SHWFS.fovx self) = true \/ sw * 2 <= SHWFS.fovx self ->
    exists s0 s1 subaps full,
      SHWFS.__init__ g self = Ok s0
      /\ SHWFS.measure g s0 phi = Ok s1
      /\ Views.image_batched s1 = Ok subaps
      /\ Views.image s1 = Ok full
      /\ forall i j a b,
           i < n -> j < n -> a < SHWFS.fovx self -> b < SHWFS.fovx self ->
           get_rc (n * SHWFS.fovx self) full
                  (i * SHWFS.fovx self + a) (j * SHWFS.fovx self + b)
           = get_flat subaps
               (((i * n + j) * SHWFS.fovx self + a) * SHWFS.fovx self + b).
Proof.
  intros T S Tr g self gp phi n sw Hn Hsw En Ep Eg Sg Sphi Hf.
  destruct (init_then_measure_ok T S Tr g self gp phi n sw
              Hn Hsw En Ep Eg Sg Sphi Hf)
    as (s0 & s1 & subaps & full & E0 & E1 & Es & Ef & _ & _ & _ & _ & Df).
  exists s0, s1, subaps, full.
  split; [exact E0|]. split; [exact E1|].
  unfold Views.image_batched, Views.image. rewrite Es, Ef.
  split; [reflexivity|]. split; [reflexivity|].
  set (fov := SHWFS.fovx self) in *.
  intros i j a b Hi Hj Ha Hb.
  assert (F : Forall2 lt [i; a; j; b] [n; fov; n; fov])
    by (repeat constructor; assumption).
  assert (K : (i * fov + a) * (n * fov) + (j * fov + b)
              = ravel [n; fov; n; fov] [i; a; j; b])
    by (cbn [ravel prod fold_right]; ring).
  unfold get_rc, get_flat. rewrite Df, K.
  rewrite nth_tabulate by (apply ravel_lt; exact F).
  rewrite (unravel_ravel _ _ F).
  cbn [SHWFS.swap12 ravel prod fold_right].
  f_equal. ring.
Qed.

Lemma image_is_the_mosaic_of_the_subaperture_frames_witness :
  exists s0 s1 subaps full,
    @SHWFS.__init__ Z exactZ (@DemoSensor.flat_trig Z exactZ)
       DemoSensor.sensor_globals (DemoSensor.sensor 2) = Ok s0
    /\ @SHWFS.measure Z exactZ (@DemoSensor.flat_trig Z exactZ)
          DemoSensor.sensor_globals s0 DemoSensor.phi4 = Ok s1
    /\ @Views.image_batched Z exactZ s1 = Ok subaps
    /\ @Views.image Z exactZ s1 = Ok full
    /\ @get_rc Z exactZ (2 * 2) full (1 * 2 + 0) (0 * 2 + 1)
       = @get_flat Z exactZ subaps (((1 * 2 + 0) * 2 + 0) * 2 + 1).
Proof.
  destruct (image_is_the_mosaic_of_the_subaperture_frames Z exactZ
              (@DemoSensor.flat_trig Z exactZ) DemoSensor.sensor_globals
              (DemoSensor.sensor 2) DemoSensor.pupil4 DemoSensor.phi4 2 2
              ltac:(lia) ltac:(lia) eq_refl eq_refl eq_refl eq_refl
              eq_refl (or_introl eq_refl))
    as (s0 & s1 & subaps & full & E0 & E1 & Es & Ef & Hm).
  exists s0, s1, subaps, full.
  split; [exact E0|]. split; [exact E1|].
  split; [exact Es|]. split; [exact Ef|].
  apply (Hm 1 0 0 1); cbn; lia.
Defined.

(* ===================================================================== *)
(** ** The centroider: calibration and its place in the main loop *)
(* ===================================================================== *)

Lemma calibrate_ok (n : Z) (kw : option (option spec_float)) :
  (0 <= n)%Z ->
  exists c, ClassicCog.calibrate (ClassicCog.new n kw) = Ok c.
Proof.
  intros Hn. unfold ClassicCog.calibrate, ClassicCog.optimize_einsum.
  cbn [ClassicCog.es_path ClassicCog.new ClassicCog.r_mat
       ClassicCog.xy_mat ClassicCog.npix ClassicCog.thresh require bind].
  unfold einsum_jk_ik_jk_ij. cbn [shape].
  rewrite Z2Nat.inj_mul by assumption.
  repeat (rewrite blabel_same; cbn [bind]).
  eexists. reflexivity.
Qed.

(** X6.  [calibrate()] on a freshly constructed centroider with
    [npix >= 0] succeeds: it stores an all-ones [r_mat] and a coordinate
    matrix [xy_mat], both of shape [(2, npix*npix)], records a contraction
    path and keeps the threshold; row 0 of [xy_mat] holds the column
    coordinate [k mod npix - npix/2 + 0.5] of pixel [k], row 1 its row
    coordinate [k // npix - npix/2 + 0.5]. *)
Theorem calibrate_fills_the_coordinate_matrices :
  forall (n : Z) (kw : option (option spec_float)),
    (0 <= n)%Z ->
    exists c r xy,
      ClassicCog.calibrate (ClassicCog.new n kw) = Ok c
      /\ ClassicCog.r_mat c = Some r /\ ClassicCog.xy_mat c = Some xy
      /\ shape r = [2; Z.to_nat n * Z.to_nat n]
      /\ shape xy = [2; Z.to_nat n * Z.to_nat n]
      /\ well_shaped r /\ well_shaped xy
      /\ ClassicCog.thresh c = ClassicCog.thresh (ClassicCog.new n kw)
      /\ ClassicCog.es_path c <> None
      /\ forall k, k < Z.to_nat n * Z.to_nat n ->
           get_rc (Z.to_nat n * Z.to_nat n) r 0 k = Float64.one
           /\ get_rc (Z.to_nat n * Z.to_nat n) r 1 k = Float64.one
           /\ get_rc (Z.to_nat n * Z.to_nat n) xy 0 k
              = ClassicCog.x_span n (k mod Z.to_nat n)
           /\ get_rc (Z.to_nat n * Z.to_nat n) xy 1 k
              = ClassicCog.x_span n (k / Z.to_nat n).
Proof.
  intros n kw Hn.
  destruct (calibrate_ok n kw Hn) as (c & Ec).
  pose proof (calibrate_new n kw c Ec) as E. cbv zeta in E.
  exists c. eexists. eexists.
  split; [exact Ec|].
  split; [rewrite E; reflexivity|].
  split; [rewrite E; reflexivity|].
  split; [reflexivity|]. split; [reflexivity|].
  split.
  { unfold well_shaped. cbn [data shape prod fold_right].
    rewrite length_tab2. lia. }
  split.
  { unfold well_shaped. cbn [data shape prod fold_right].
    rewrite length_tab2. lia. }
  split; [rewrite E; reflexivity|].
  split; [rewrite E; discriminate|].
  intros k Hk.
  repeat split; rewrite get_rc_tab2 by lia; reflexivity.
Qed.

Lemma calibrate_fills_the_coordinate_matrices_witness :
  exists c r xy,
    ClassicCog.calibrate (ClassicCog.new 2 None) = Ok c
    /\ ClassicCog.r_mat c = Some r /\ ClassicCog.xy_mat c = Some xy
    /\ shape r = [2; Z.to_nat 2 * Z.to_nat 2]
    /\ shape xy = [2; Z.to_nat 2 * Z.to_nat 2]
    /\ well_shaped r /\ well_shaped xy
    /\ ClassicCog.thresh c = ClassicCog.thresh (ClassicCog.new 2 None)
    /\ ClassicCog.es_path c <> None
    /\ forall k, k < Z.to_nat 2 * Z.to_nat 2 ->
         get_rc (Z.to_nat 2 * Z.to_nat 2) r 0 k = Float64.one
         /\ get_rc (Z.to_nat 2 * Z.to_nat 2) r 1 k = Float64.one
         /\ get_rc (Z.to_nat 2 * Z.to_nat 2) xy 0 k
            = ClassicCog.x_span 2 (k mod Z.to_nat 2)
         /\ get_rc (Z.to_nat 2 * Z.to_nat 2) xy 1 k
            = ClassicCog.x_span 2 (k / Z.to_nat 2).
Proof.
  apply (calibrate_fills_the_coordinate_matrices 2 None). lia.
Defined.

(** X7.  [cog] on a centroider that was never calibrated ([es_path] is
    still [None]) raises on every input: [TypeError], except for a 0-d
    input without threshold, where the batch extent is missing first
    ([IndexError]). *)
Theorem cog_before_calibrate_raises :
  forall (c : ClassicCog.obj) (a : ndarray spec_float),
    ClassicCog.es_path c = None ->
    ClassicCog.cog c a
    = Raise (match shape a, ClassicCog.thresh c with
             | [], None => IndexError
             | _, _ => TypeError
             end).
Proof.
  intros c [sh dat] E. unfold ClassicCog.cog, ClassicCog.promote.
  cbn [shape].
  destruct sh as [|d0 [|d1 [|d2 rest]]];
    cbn [length Nat.eqb shape data];
    unfold ClassicCog.threshold;
    destruct (ClassicCog.thresh c) as [t|];
    cbn [shape nd_map bind ClassicCog.flatten_images];
    rewrite ?E; reflexivity.
Qed.

Lemma cog_before_calibrate_raises_witness :
  ClassicCog.cog (ClassicCog.new 2 None) Demo.batch3 = Raise TypeError.
Proof.
  exact (cog_before_calibrate_raises (ClassicCog.new 2 None) Demo.batch3
           eq_refl).
Defined.

(** X8.  A centroider can be calibrated once: after a successful
    [calibrate()] a second call raises [TypeError], because
    [optimize_einsum] hands the stored path back to [np.einsum_path] as
    its [optimize] argument. *)
Theorem calibrate_twice_raises :
  forall (c c1 : ClassicCog.obj),
    ClassicCog.calibrate c = Ok c1 ->
    ClassicCog.calibrate c1 = Raise TypeError.
Proof.
  intros c c1 E. unfold ClassicCog.calibrate, ClassicCog.optimize_einsum in E.
  cbn [ClassicCog.es_path ClassicCog.r_mat ClassicCog.xy_mat
       ClassicCog.npix ClassicCog.thresh require bind] in E.
  destruct (ClassicCog.es_path c); [discriminate|].
  destruct (einsum_jk_ik_jk_ij _ _ _); [|discriminate].
  cbn [bind] in E. inversion E; subst c1. reflexivity.
Qed.

Lemma calibrate_twice_raises_witness :
  ClassicCog.calibrate (ClassicCog.new 2 None) = Ok Demo.cog2
  /\ ClassicCog.calibrate Demo.cog2 = Raise TypeError.
Proof.
  assert (E : ClassicCog.calibrate (ClassicCog.new 2 None) = Ok Demo.cog2)
    by (vm_compute; reflexivity).
  split; [exact E|].
  exact (calibrate_twice_raises (ClassicCog.new 2 None) Demo.cog2 E).
Defined.

(** X19.  A calibrated centroider rejects frames of another size: for a
    batch of shape [(N, h, w)] whose [h*w] pixels are neither the
    [npix*npix] of the calibration nor a single pixel (and
    [npix*npix <> 1]), [cog] raises [ValueError]. *)
Theorem cog_rejects_frames_of_another_size :
  forall (n : Z) (kw : option (option spec_float)) (c : ClassicCog.obj)
         (a : ndarray spec_float) (N h w : nat),
    ClassicCog.calibrate (ClassicCog.new n kw) = Ok c ->
    shape a = [N; h; w] ->
    h * w <> Z.to_nat n * Z.to_nat n -> h * w <> 1 ->
    Z.to_nat n * Z.to_nat n <> 1 ->
    ClassicCog.cog c a = Raise ValueError.
Proof.
  intros n kw c a N h w Ec Sa Hne H1 Hn1.
  apply calibrate_new in Ec. cbv zeta in Ec. subst c.
  unfold ClassicCog.cog, ClassicCog.promote. rewrite Sa.
  cbn [length Nat.eqb].
  destruct (threshold_ok
              {| ClassicCog.npix := n;
                 ClassicCog.r_mat :=
                   Some (mk_nd [2; Z.to_nat n * Z.to_nat n]
                           (tab2 2 (Z.to_nat n * Z.to_nat n)
                              (fun _ _ => Float64.one)));
                 ClassicCog.xy_mat :=
                   Some (mk_nd [2; Z.to_nat n * Z.to_nat n]
                           (tab2 2 (Z.to_nat n * Z.to_nat n)
                              (fun j k =>
                                 if j =? 0
                                 then ClassicCog.x_span n (k mod Z.to_nat n)
                                 else ClassicCog.x_span n (k / Z.to_nat n))));
                 ClassicCog.thresh := ClassicCog.thresh (ClassicCog.new n kw);
                 ClassicCog.es_path := Some ClassicCog.contract_all |} a)
    as (a' & Ea'); [now rewrite Sa|].
  assert (Sa' := threshold_shape _ a a' Ea'). rewrite Sa in Sa'.
  rewrite Ea'. cbn [bind].
  unfold ClassicCog.flatten_images. rewrite Sa'.
  cbn [bind prod fold_right ClassicCog.es_path ClassicCog.r_mat
       ClassicCog.xy_mat require].
  rewrite Nat.mul_1_r.
  unfold einsum_jk_ik_jk_ij. cbn [shape].
  rewrite blabel_same. cbn [bind].
  unfold blabel at 1.
  destruct (Nat.eqb_spec (Z.to_nat n * Z.to_nat n) (h * w)) as [E|_];
    [congruence|].
  destruct (Nat.eqb_spec (Z.to_nat n * Z.to_nat n) 1) as [E|_];
    [congruence|].
  destruct (Nat.eqb_spec (h * w) 1) as [E|_]; [congruence|].
  reflexivity.
Qed.

Lemma cog_rejects_frames_of_another_size_witness :
  ClassicCog.calibrate (ClassicCog.new 2 None) = Ok Demo.cog2
  /\ ClassicCog.cog Demo.cog2
       (mk_nd [1; 3; 3] (map Demo.fl [1; 2; 3; 4; 5; 6; 7; 8; 9]%Z))
     = Raise ValueError.
Proof.
  assert (E : ClassicCog.calibrate (ClassicCog.new 2 None) = Ok Demo.cog2)
    by (vm_compute; reflexivity).
  split; [exact E|].
  apply (cog_rejects_frames_of_another_size 2 None Demo.cog2
           (mk_nd [1; 3; 3] (map Demo.fl [1; 2; 3; 4; 5; 6; 7; 8; 9]%Z))
           1 3 3 E eq_refl); cbn; lia.
Defined.

(* ===================================================================== *)
(** ** From the sensor to the centroider *)
(* ===================================================================== *)

(** X9.  The frame that [measure] leaves in [image_batched] is what the
    centroider of the script expects: with the hypotheses of X1 in
    float64, a centroider constructed with [npix = fovx] calibrates, and
    [cog(image_batched)] returns a float32 array of shape [(n*n, 2)], one
    pair per subaperture. *)
Theorem cog_accepts_the_measured_frame :
  forall (Tr : Trig spec_float) (g : globals)
         (self : SHWFS.obj spec_float) (gp : ndarray bool)
         (phi : ndarray spec_float) (n sw : nat)
         (kw : option (option spec_float)),
    0 < n -> 0 < sw ->
    SHWFS.nsubx self = n ->
    shape (SHWFS.pupil self) = [n * sw; n * sw] ->
    g_pupil g = Some gp -> shape gp = [n * sw; n * sw] ->
    shape phi = [n * sw; n * sw] ->
    Nat.even (SHWFS.fovx self) = true \/ sw * 2 <= SHWFS.fovx self ->
    exists s0 s1 frames c slopes,
      SHWFS.__init__ g self = Ok s0
      /\ SHWFS.measure g s0 phi = Ok s1
      /\ Views.image_batched s1 = Ok frames
      /\ ClassicCog.calibrate
           (ClassicCog.new (Z.of_nat (SHWFS.fovx self)) kw) = Ok c
      /\ ClassicCog.cog c frames = Ok slopes
      /\ ClassicCog.dt slopes = ClassicCog.dt_float32
      /\ shape (ClassicCog.arr slopes) = [n * n; 2]
      /\ well_shaped (ClassicCog.arr slopes).
Proof.
  intros Tr g self gp phi n sw kw Hn Hsw En Ep Eg Sg Sphi Hf.
  destruct (init_then_measure_ok spec_float float64 Tr g self gp phi n sw
              Hn Hsw En Ep Eg Sg Sphi Hf)
    as (s0 & s1 & subaps & full & E0 & E1 & Es & Ef & Ss & Ws & _).
  destruct (calibrate_ok (Z.of_nat (SHWFS.fovx self)) kw) as (c & Ec);
    [lia|].
  assert (Ss' : shape subaps
                = [n * n; Z.to_nat (Z.of_nat (SHWFS.fovx self));
                   Z.to_nat (Z.of_nat (SHWFS.fovx self))])
    by now rewrite Nat2Z.id.
  destruct (calibrated_cog_batch _ kw c subaps (n * n) Ec Ss' Ws)
    as (r & xy & _ & _ & _ & Eg').
  exists s0, s1, subaps, c. eexists.
  split; [exact E0|]. split; [exact E1|].
  split; [unfold Views.image_batched; now rewrite Es|].
  split; [exact Ec|]. split; [exact Eg'|].
  split; [reflexivity|]. split; [reflexivity|].
  unfold well_shaped.
  cbn [ClassicCog.arr ClassicCog.astype_float32 nd_map data shape
       prod fold_right].
  rewrite length_map, length_tabulate. lia.
Qed.

Lemma cog_accepts_the_measured_frame_witness :
  exists s0 s1 frames c slopes,
    @SHWFS.__init__ spec_float float64 (@DemoSensor.flat_trig _ float64)
       DemoSensor.sensor_globals (DemoSensor.float_sensor 2) = Ok s0
    /\ @SHWFS.measure spec_float float64 (@DemoSensor.flat_trig _ float64)
         DemoSensor.sensor_globals s0 DemoSensor.float_phi4 = Ok s1
    /\ Views.image_batched s1 = Ok frames
    /\ ClassicCog.calibrate (ClassicCog.new (Z.of_nat 2) None) = Ok c
    /\ ClassicCog.cog c frames = Ok slopes
    /\ ClassicCog.dt slopes = ClassicCog.dt_float32
    /\ shape (ClassicCog.arr slopes) = [2 * 2; 2]
    /\ well_shaped (ClassicCog.arr slopes).
Proof.
  apply (cog_accepts_the_measured_frame (@DemoSensor.flat_trig _ float64)
           DemoSensor.sensor_globals (DemoSensor.float_sensor 2)
           DemoSensor.pupil4 DemoSensor.float_phi4 2 2 None);
    try reflexivity; try lia.
  left. reflexivity.
Defined.

(* ===================================================================== *)
(** ** The PhaseScreen: construction under the threshold policy, the
       state vector and the property [phase] *)
(* ===================================================================== *)

Section ScreenMore.
Context {T : Type} `{Scalar T} `{Externals T}.
Import PhaseScreen.

Lemma length_insert_by (vals : ndarray T) (i : nat) (l : list nat) :
  length (insert_by vals i l) = S (length l).
Proof.
  induction l as [|j l IH]; [reflexivity|].
  cbn [insert_by]. destruct (sort_lt _ _); cbn [length]; [reflexivity|].
  now rewrite IH.
Qed.

Lemma length_fold_insert_by (vals : ndarray T) (idx acc : list nat) :
  length (fold_left (fun acc i => insert_by vals i acc) idx acc)
  = length acc + length idx.
Proof.
  revert acc. induction idx as [|i idx IH]; intros acc; cbn [fold_left length].
  - lia.
  - rewrite IH, length_insert_by. lia.
Qed.

Lemma length_argsort (vals : ndarray T) :
  length (argsort vals) = prod (shape vals).
Proof.
  unfold argsort. rewrite length_fold_insert_by, length_seq. reflexivity.
Qed.

Lemma py_index_fits (r : nat) (n : Z) :
  mode_count_fits (Some n) r = true ->
  exists k, py_index r (- n) = Ok k.
Proof.
  unfold mode_count_fits, py_index. intros F.
  apply andb_true_iff in F as (F1 & F2).
  apply Z.ltb_lt in F1. apply Z.leb_le in F2.
  destruct (0 <=? - n)%Z eqn:E1.
  - apply Z.leb_le in E1.
    assert (L : (- n <? Z.of_nat r)%Z = true) by (apply Z.ltb_lt; lia).
    rewrite L. cbn [andb]. eexists. reflexivity.
  - apply Z.leb_gt in E1. cbn [andb].
    assert (L1 : (- n <? 0)%Z = true) by (apply Z.ltb_lt; lia).
    assert (L2 : (- Z.of_nat r <=? - n)%Z = true) by (apply Z.leb_le; lia).
    rewrite L1, L2. cbn [andb]. eexists. reflexivity.
Qed.

Lemma py_index_misfit (r : nat) (n : Z) :
  mode_count_fits (Some n) r = false ->
  py_index r (- n) = Raise IndexError.
Proof.
  unfold mode_count_fits, py_index. intros F.
  apply andb_false_iff in F.
  destruct (0 <=? - n)%Z eqn:E1; cbn [andb].
  - apply Z.leb_le in E1.
    assert (L : (- n <? Z.of_nat r)%Z = false).
    { apply Z.ltb_ge. destruct F as [F|F];
        [apply Z.ltb_ge in F | apply Z.leb_gt in F]; lia. }
    rewrite L.
    assert (L1 : (- n <? 0)%Z = false) by (apply Z.ltb_ge; lia).
    now rewrite L1.
  - apply Z.leb_gt in E1.
    assert (L1 : (- n <? 0)%Z = true) by (apply Z.ltb_lt; lia).
    assert (L2 : (- Z.of_nat r <=? - n)%Z = false).
    { apply Z.leb_gt. destruct F as [F|F];
        [apply Z.ltb_ge in F | apply Z.leb_gt in F]; lia. }
    now rewrite L1, L2.
Qed.

(** The factorization of a square matrix returns whenever the mode count
    fits the order of the matrix. *)
Lemma _factorh_returns (self : obj T) (m : ndarray T) (r : nat)
      (n_modes : option Z) :
  shape m = [r; r] -> mode_count_fits n_modes r = true ->
  exists f fi c,
    _factorh self m n_modes = Ok (f, fi)
    /\ shape f = [r; c] /\ shape fi = [r; c].
Proof.
  intros Sm F.
  destruct (eigh_ok m r Sm) as (vals & vecs & E).
  destruct (eigh_shapes _ _ _ E) as (r' & Sm' & Sw & Sv).
  rewrite Sm in Sm'. inversion Sm'; subst r'. clear Sm'.
  unfold _factorh. rewrite E. cbn [bind].
  assert (V : exists valid, valid_modes self vals n_modes = Ok valid
                            /\ shape valid = [r]).
  { unfold valid_modes. destruct n_modes as [n|].
    - rewrite length_argsort, Sw. cbn [prod fold_right].
      rewrite Nat.mul_1_r.
      destruct (py_index_fits r n F) as (k & Ek). rewrite Ek. cbn [bind].
      eexists. split; reflexivity.
    - eexists. split; [reflexivity|exact Sw]. }
  destruct V as (valid & Ev & Sva). rewrite Ev. cbn [bind].
  unfold select_cols. rewrite Sv, Sva.
  rewrite Nat.eqb_refl. cbn [bind].
  unfold mask_select. rewrite Sw, Sva.
  cbn [shape data length firstn skipn Nat.leb shape_eqb prod fold_right].
  rewrite Nat.eqb_refl. cbn [andb bind]. rewrite Nat.mul_1_r.
  unfold nd_mul, zip_with, row_vector, nd_map. cbn [shape data].
  rewrite broadcast_row. cbn [bind].
  eexists. eexists. eexists.
  split; [reflexivity|]. split; reflexivity.
Qed.

(** ... and raises [IndexError] when it does not. *)
Lemma _factorh_index_error (self : obj T) (m : ndarray T) (r : nat)
      (n_modes : option Z) :
  shape m = [r; r] -> mode_count_fits n_modes r = false ->
  _factorh self m n_modes = Raise IndexError.
Proof.
  intros Sm F.
  destruct n_modes as [n|]; [|discriminate].
  destruct (eigh_ok m r Sm) as (vals & vecs & E).
  destruct (eigh_shapes _ _ _ E) as (r' & Sm' & Sw & Sv).
  rewrite Sm in Sm'. inversion Sm'; subst r'. clear Sm'.
  unfold _factorh. rewrite E. cbn [bind].
  unfold valid_modes. rewrite length_argsort, Sw. cbn [prod fold_right].
  rewrite Nat.mul_1_r. now rewrite (py_index_misfit r n F).
Qed.

Lemma mask_select_grid_count {U : Type} (a : ndarray U)
      (mask : ndarray bool) (w : nat) :
  shape a = [w; w] -> shape mask = [w; w] ->
  exists r, mask_select a mask = Ok r
            /\ shape r = [length (active_points mask)].
Proof.
  intros Sa Sm. unfold mask_select, active_points. rewrite Sa, Sm.
  cbn [length Nat.leb firstn skipn shape_eqb].
  rewrite Nat.eqb_refl. cbn [andb].
  eexists. split; reflexivity.
Qed.

(** Construction on a square pupil of the script's width, with mode
    counts that fit the number of active points. *)
Lemma init_policy_ok (g : globals) (clk : clock T)
      (self : obj T) (w : nat) :
  mode_count_fits (xx_max self) (length (active_points (pupil self)))
  = true ->
  mode_count_fits (vv_max self) (length (active_points (pupil self)))
  = true ->
  shape (pupil self) = [w; w] -> 0 < w -> g_pup_width g = Some w ->
  2 <= prod (shape (wind self)) ->
  exists ps fxx fvv sm x0 c1 c2,
    __init__ g clk self = Ok ps
    /\ pupil ps = pupil self
    /\ factor_xx ps = Some fxx /\ factor_vv ps = Some fvv
    /\ state_matrix ps = Some sm /\ x ps = Some x0
    /\ shape fxx = [length (active_points (pupil self)); c1]
    /\ shape fvv = [length (active_points (pupil self)); c2]
    /\ shape (A sm) = [length (active_points (pupil self));
                       length (active_points (pupil self))]
    /\ shape x0 = [length (active_points (pupil self))].
Proof.
  intros Hxx Hvv Sp Hw Hg Hwind. unfold __init__.
  unfold shape_at at 1. rewrite Sp. cbn [nth_error bind].
  destruct (Nat.eqb_spec w 0) as [Hw0|_]; [lia|]. cbn [bind].
  rewrite Hg. cbn [require bind].
  unfold mgrid_scaled.
  match goal with
  | |- context [mask_select ?yy (pupil self)] =>
      destruct (mask_select_grid_count yy (pupil self) w eq_refl Sp)
        as (yy' & Eyy & Syy)
  end.
  rewrite Eyy. cbn [bind].
  match goal with
  | |- context [mask_select ?xx (pupil self)] =>
      destruct (mask_select_grid_count xx (pupil self) w eq_refl Sp)
        as (xx' & Exx & Sxx)
  end.
  rewrite Exx. cbn [bind].
  set (p := length (active_points (pupil self))) in *.
  set (sigma_xx := _covariance self xx' yy' xx' yy').
  assert (Ss : shape sigma_xx = [p; p]).
  { unfold sigma_xx. rewrite _covariance_shape, Sxx.
    cbn [prod fold_right]. now rewrite Nat.mul_1_r. }
  destruct (_factorh_returns self sigma_xx p (xx_max self) Ss Hxx)
    as (fxx & fi & c1 & Ef & Sf & Sfi).
  rewrite Ef. cbn [bind].
  destruct (Nat.ltb_spec 0 (prod (shape (wind self)))) as [_|Hc]; [|lia].
  destruct (Nat.ltb_spec 1 (prod (shape (wind self)))) as [_|Hc]; [|lia].
  cbn [bind].
  match goal with
  | |- context [StateMatrix_init ?cov fi clk] =>
      assert (Sc : shape cov = [p; p]);
      [ unfold scale, nd_map; cbn [shape];
        rewrite _covariance_shape; cbn [shape]; rewrite Sxx;
        cbn [prod fold_right]; now rewrite Nat.mul_1_r
      | destruct (StateMatrix_init_ok cov fi clk p c1 Sc Sfi)
          as (sm & Esm & C & Sa) ]
  end.
  rewrite Esm. cbn [bind].
  destruct (innovation_covariance_ok sm sigma_xx p C Sa Ss)
    as (sigma_vv & Ev & Sv).
  rewrite Ev. cbn [bind].
  destruct (_factorh_returns self sigma_vv p (vv_max self) Sv Hvv)
    as (fvv & fvi & c2 & Ef2 & Sf2 & _).
  rewrite Ef2. cbn [bind].
  unfold shape_at. rewrite Sf. cbn [nth_error bind].
  destruct (normal (default_rng (seed self)) [c1]) as [z rng1] eqn:En.
  assert (Sz : shape z = [c1]).
  { rewrite <- (normal_shape (default_rng (seed self)) [c1]).
    now rewrite En. }
  unfold matvec. rewrite Sf, Sz, Nat.eqb_refl. cbn [bind].
  eexists. exists fxx, fvv, sm. eexists. exists c1, c2.
  split; [reflexivity|]. cbn [pupil factor_xx factor_vv state_matrix x shape].
  repeat split; assumption || reflexivity.
Qed.

(** With a mode count that does not fit, construction raises
    [IndexError]. *)
Lemma init_policy_index_error (g : globals) (clk : clock T)
      (self : obj T) (w : nat) :
  mode_count_fits (xx_max self) (length (active_points (pupil self)))
  && mode_count_fits (vv_max self) (length (active_points (pupil self)))
  = false ->
  shape (pupil self) = [w; w] -> 0 < w -> g_pup_width g = Some w ->
  2 <= prod (shape (wind self)) ->
  __init__ g clk self = Raise IndexError.
Proof.
  intros Hfit Sp Hw Hg Hwind. unfold __init__.
  unfold shape_at at 1. rewrite Sp. cbn [nth_error bind].
  destruct (Nat.eqb_spec w 0) as [Hw0|_]; [lia|]. cbn [bind].
  rewrite Hg. cbn [require bind].
  unfold mgrid_scaled.
  match goal with
  | |- context [mask_select ?yy (pupil self)] =>
      destruct (mask_select_grid_count yy (pupil self) w eq_refl Sp)
        as (yy' & Eyy & Syy)
  end.
  rewrite Eyy. cbn [bind].
  match goal with
  | |- context [mask_select ?xx (pupil self)] =>
      destruct (mask_select_grid_count xx (pupil self) w eq_refl Sp)
        as (xx' & Exx & Sxx)
  end.
  rewrite Exx. cbn [bind].
  set (p := length (active_points (pupil self))) in *.
  set (sigma_xx := _covariance self xx' yy' xx' yy').
  assert (Ss : shape sigma_xx = [p; p]).
  { unfold sigma_xx. rewrite _covariance_shape, Sxx.
    cbn [prod fold_right]. now rewrite Nat.mul_1_r. }
  destruct (mode_count_fits (xx_max self) p) eqn:Hxx.
  2:{ now rewrite (_factorh_index_error self sigma_xx p _ Ss Hxx). }
  cbn [andb] in Hfit.
  destruct (_factorh_returns self sigma_xx p (xx_max self) Ss Hxx)
    as (fxx & fi & c1 & Ef & Sf & Sfi).
  rewrite Ef. cbn [bind].
  destruct (Nat.ltb_spec 0 (prod (shape (wind self)))) as [_|Hc]; [|lia].
  destruct (Nat.ltb_spec 1 (prod (shape (wind self)))) as [_|Hc]; [|lia].
  cbn [bind].
  match goal with
  | |- context [StateMatrix_init ?cov fi clk] =>
      assert (Sc : shape cov = [p; p]);
      [ unfold scale, nd_map; cbn [shape];
        rewrite _covariance_shape; cbn [shape]; rewrite Sxx;
        cbn [prod fold_right]; now rewrite Nat.mul_1_r
      | destruct (StateMatrix_init_ok cov fi clk p c1 Sc Sfi)
          as (sm & Esm & C & Sa) ]
  end.
  rewrite Esm. cbn [bind].
  destruct (innovation_covariance_ok sm sigma_xx p C Sa Ss)
    as (sigma_vv & Ev & Sv).
  rewrite Ev. cbn [bind].
  now rewrite (_factorh_index_error self sigma_vv p _ Sv Hfit).
Qed.

Lemma init_covers_pupil (g : globals) (clk : clock T) (self ps : obj T)
      (w : nat) :
  mode_count_fits (xx_max self) (length (active_points (pupil self)))
  = true ->
  mode_count_fits (vv_max self) (length (active_points (pupil self)))
  = true ->
  shape (pupil self) = [w; w] -> 0 < w -> g_pup_width g = Some w ->
  2 <= prod (shape (wind self)) ->
  __init__ g clk self = Ok ps ->
  covers_pupil ps /\ pupil ps = pupil self.
Proof.
  intros Hxx Hvv Sp Hw Hg Hwind E.
  destruct (init_policy_ok g clk self w Hxx Hvv Sp Hw Hg Hwind)
    as (ps' & fxx & fvv & sm & x0 & c1 & c2 & E' & Ep & _ & _ & _ & Ex
        & _ & _ & _ & Sx).
  rewrite E in E'. inversion E'; subst ps'.
  split; [|exact Ep]. split.
  - exact (init_well_formed g clk self ps E).
  - exists x0. split; [exact Ex|]. now rewrite Ep.
Qed.

Lemma step_covers_pupil (ps ps' : obj T) :
  covers_pupil ps -> step ps = Ok ps' ->
  covers_pupil ps' /\ pupil ps' = pupil ps.
Proof.
  intros (W & x0 & Ex & Sx) E.
  assert (W' := step_preserves_well_formed ps ps' W E).
  destruct (step_well_formed ps W)
    as (sm & fvv & x0' & g0 & n & m & v & g1 & ax & fv & x1 & Esm & Efvv
        & Ex' & Eg & Sf & Sx' & En & Sv & Eax & Efv & Ex1 & Sx1 & Es).
  rewrite Es in E. inversion E; subst ps'; clear E.
  rewrite Ex in Ex'. inversion Ex'; subst x0'.
  split; [|reflexivity]. split; [exact W'|].
  exists x1. split; [reflexivity|]. cbn [pupil].
  now rewrite Sx1, <- Sx', Sx.
Qed.

Lemma steps_covers_pupil (k : nat) (ps : obj T) :
  covers_pupil ps ->
  exists ps', steps k ps = Ok ps' /\ covers_pupil ps'
              /\ pupil ps' = pupil ps.
Proof.
  revert ps. induction k as [|k IH]; intros ps C; cbn [steps].
  - exists ps. auto.
  - destruct C as (W & C).
    destruct (step_well_formed ps W)
      as (sm & fvv & x0 & g0 & n & m & v & g1 & ax & fv & x1 & _ & _
          & _ & _ & _ & _ & _ & _ & _ & _ & _ & _ & Es).
    destruct (step_covers_pupil ps _ (conj W C) Es) as (C1 & P1).
    rewrite Es. cbn [bind].
    destruct (IH _ C1) as (ps' & E' & C' & P').
    exists ps'. split; [exact E'|]. split; [exact C'|].
    now rewrite P', P1.
Qed.

End ScreenMore.

(** X10.  On a square pupil of the script's width [pup_width > 0], with
    a wind vector of at least two entries, [PhaseScreen.__init__]
    completes exactly when the mode counts fit: each of [xx_max] and
    [vv_max] is [None] or a count [n] with [-p < n <= p], where [p] is the
    number of active pupil points; otherwise it raises [IndexError]
    ([np.linalg.eigh] and the covariance kernel being total).  When it
    completes, the state [x], [factor_xx] and [factor_vv] have one row per
    active point and the state matrix is square of that order. *)
Theorem construction_completes_when_mode_counts_fit :
  forall (T : Type) (S : Scalar T) (X : Externals T) (g : globals)
         (clk : clock T) (self : PhaseScreen.obj T) (w : nat),
    shape (PhaseScreen.pupil self) = [w; w] -> 0 < w ->
    g_pup_width g = Some w ->
    2 <= prod (shape (PhaseScreen.wind self)) ->
    if mode_count_fits (PhaseScreen.xx_max self)
         (length (active_points (PhaseScreen.pupil self)))
       && mode_count_fits (PhaseScreen.vv_max self)
            (length (active_points (PhaseScreen.pupil self)))
    then
      exists ps fxx fvv sm x0 c1 c2,
        PhaseScreen.__init__ g clk self = Ok ps
        /\ PhaseScreen.pupil ps = PhaseScreen.pupil self
        /\ PhaseScreen.factor_xx ps = Some fxx
        /\ PhaseScreen.factor_vv ps = Some fvv
        /\ PhaseScreen.state_matrix ps = Some sm
        /\ PhaseScreen.x ps = Some x0
        /\ shape fxx = [length (active_points (PhaseScreen.pupil self)); c1]
        /\ shape fvv = [length (active_points (PhaseScreen.pupil self)); c2]
        /\ shape (PhaseScreen.A sm)
           = [length (active_points (PhaseScreen.pupil self));
              length (active_points (PhaseScreen.pupil self))]
        /\ shape x0 = [length (active_points (PhaseScreen.pupil self))]
    else PhaseScreen.__init__ g clk self = Raise IndexError.
Proof.
  intros T S X g clk self w Sp Hw Hg Hwind.
  destruct (mode_count_fits (PhaseScreen.xx_max self) _
            && mode_count_fits (PhaseScreen.vv_max self) _) eqn:F.
  - apply andb_true_iff in F as (F1 & F2).
    exact (init_policy_ok g clk self w F1 F2 Sp Hw Hg Hwind).
  - exact (init_policy_index_error g clk self w F Sp Hw Hg Hwind).
Qed.

Lemma construction_completes_when_mode_counts_fit_witness :
  (exists ps x0,
     @PhaseScreen.__init__ Z exactZ Demo.int_externals Demo.script_globals
        (@Demo.clock_classic_slower Z exactZ) Demo.int_params = Ok ps
     /\ PhaseScreen.x ps = Some x0 /\ shape x0 = [4])
  /\ @PhaseScreen.__init__ Z exactZ Demo.int_externals Demo.script_globals
        (@Demo.clock_classic_slower Z exactZ)
        (DemoScreen.int_params_with_counts (Some 5%Z) None)
      = Raise IndexError.
Proof.
  split.
  - destruct (construction_completes_when_mode_counts_fit Z exactZ
                Demo.int_externals Demo.script_globals
                (@Demo.clock_classic_slower Z exactZ) Demo.int_params 2
                eq_refl ltac:(lia) eq_refl ltac:(cbn; lia))
      as (ps & fxx & fvv & sm & x0 & c1 & c2 & E & _ & _ & _ & _ & Ex
          & _ & _ & _ & Sx).
    exists ps, x0. split; [exact E|]. split; [exact Ex|exact Sx].
  - exact (construction_completes_when_mode_counts_fit Z exactZ
             Demo.int_externals Demo.script_globals
             (@Demo.clock_classic_slower Z exactZ)
             (DemoScreen.int_params_with_counts (Some 5%Z) None) 2
             eq_refl ltac:(lia) eq_refl ltac:(cbn; lia)).
Defined.

(** *** Positions selected by a mask *)

Lemma shape_eqb_refl (s : list nat) : shape_eqb s s = true.
Proof.
  induction s as [|d s IH]; [reflexivity|].
  cbn [shape_eqb]. now rewrite Nat.eqb_refl, IH.
Qed.

Lemma filter_seq_snoc (p : nat -> bool) (n : nat) :
  filter p (seq 0 (S n))
  = filter p (seq 0 n) ++ (if p n then [n] else []).
Proof.
  rewrite seq_S, filter_app. cbn [filter Nat.add].
  now destruct (p n).
Qed.

(** The [j]-th selected position is below the extent, is selected, and
    has exactly [j] selected positions before it. *)
Lemma rank_of_selected (p : nat -> bool) (n j : nat) :
  j < length (filter p (seq 0 n)) ->
  nth j (filter p (seq 0 n)) 0 < n
  /\ p (nth j (filter p (seq 0 n)) 0) = true
  /\ length (filter p (seq 0 (nth j (filter p (seq 0 n)) 0))) = j.
Proof.
  induction n as [|n IH]; intros Hj.
  - cbn in Hj. lia.
  - rewrite filter_seq_snoc in *. rewrite length_app in Hj.
    destruct (Nat.lt_ge_cases j (length (filter p (seq 0 n)))) as [L|G].
    + rewrite app_nth1 by exact L.
      destruct (IH L) as (A & B & C). repeat split; [lia|exact B|exact C].
    + destruct (p n) eqn:Pn; cbn [length] in Hj; [|lia].
      assert (Ej : j = length (filter p (seq 0 n))) by lia.
      rewrite app_nth2 by exact G.
      rewrite Ej, Nat.sub_diag. cbn [nth].
      repeat split; [lia|exact Pn].
Qed.

Section PhaseProperty.
Context {X : Externals spec_float}.

(** What [phase] returns when the state has one entry per active pupil
    point. *)
Lemma phase_value (ps : PhaseScreen.obj spec_float)
      (x0 : ndarray spec_float) :
  PhaseScreen.x ps = Some x0 ->
  shape x0 = [length (active_points (PhaseScreen.pupil ps))] ->
  Views.phase ps
  = Ok (ClassicCog.astype_float32
          (mk_nd (shape (PhaseScreen.pupil ps))
             (tabulate (prod (shape (PhaseScreen.pupil ps))) (fun k =>
                if nth k (data (PhaseScreen.pupil ps)) false
                then nth (if length (active_points (PhaseScreen.pupil ps))
                             =? 1
                          then 0
                          else count_true (PhaseScreen.pupil ps) k)
                         (data x0) Float64.zero
                else Float64.zero)))).
Proof.
  intros Ex Sx. unfold Views.phase. rewrite Ex. cbn [require bind].
  unfold mask_assign. cbn [shape data].
  rewrite shape_eqb_refl. cbn [negb]. rewrite Sx.
  cbn [prod fold_right]. rewrite Nat.mul_1_r.
  unfold count_true at 1. fold (active_points (PhaseScreen.pupil ps)).
  rewrite Nat.eqb_refl. cbn [negb]. rewrite andb_false_r. cbn [bind].
  f_equal. f_equal. f_equal.
  apply tabulate_ext. intros k Hk.
  destruct (nth k (data (PhaseScreen.pupil ps)) false); [reflexivity|].
  now rewrite nth_tabulate.
Qed.

End PhaseProperty.

(** X11.  On a PhaseScreen whose state has one entry per active pupil
    point, [phase] returns a float32 array of the pupil's shape: the
    [j]-th active point (in row-major order) holds the state entry [x[j]]
    rounded to float32, and every point outside the pupil holds [0]. *)
Theorem phase_scatters_the_state_over_the_pupil :
  forall (X : Externals spec_float) (ps : PhaseScreen.obj spec_float)
         (x0 : ndarray spec_float),
    PhaseScreen.x ps = Some x0 ->
    shape x0 = [length (active_points (PhaseScreen.pupil ps))] ->
    exists out : ndarray spec_float,
      Views.phase ps
      = Ok {| ClassicCog.dt := ClassicCog.dt_float32;
              ClassicCog.arr := out |}
      /\ shape out = shape (PhaseScreen.pupil ps)
      /\ well_shaped out
      /\ (forall j, j < length (active_points (PhaseScreen.pupil ps)) ->
            get_flat out (nth j (active_points (PhaseScreen.pupil ps)) 0)
            = Float64.to_float32 (get_flat x0 j))
      /\ (forall k, k < prod (shape (PhaseScreen.pupil ps)) ->
            nth k (data (PhaseScreen.pupil ps)) false = false ->
            get_flat out k = Float64.zero).
Proof.
  intros X ps x0 Ex Sx.
  eexists. split; [exact (phase_value ps x0 Ex Sx)|].
  split; [reflexivity|].
  split.
  { unfold well_shaped. cbn [nd_map data shape].
    now rewrite length_map, length_tabulate. }
  set (pup := PhaseScreen.pupil ps) in *.
  split.
  - intros j Hj.
    destruct (rank_of_selected (fun i => nth i (data pup) false)
                (prod (shape pup)) j Hj) as (Hk & Hp & Hc).
    fold (active_points pup) in Hk, Hp, Hc.
    unfold get_flat at 1. cbn [nd_map data].
    rewrite (nth_map_in _ _ _ Float64.zero)
      by (rewrite length_tabulate; exact Hk).
    rewrite nth_tabulate by exact Hk.
    rewrite Hp. unfold count_true. rewrite Hc.
    destruct (Nat.eqb_spec (length (active_points pup)) 1) as [E1|_];
      [replace j with 0 by lia|]; reflexivity.
  - intros k Hk Hp.
    unfold get_flat. cbn [nd_map data].
    rewrite (nth_map_in _ _ _ Float64.zero)
      by (rewrite length_tabulate; exact Hk).
    rewrite nth_tabulate by exact Hk.
    rewrite Hp. reflexivity.
Qed.

Lemma phase_scatters_the_state_over_the_pupil_witness :
  exists out : ndarray spec_float,
    @Views.phase toy_externals (DemoScreen.with_state DemoScreen.state4)
    = Ok {| ClassicCog.dt := ClassicCog.dt_float32;
            ClassicCog.arr := out |}
    /\ shape out = [2; 2]
    /\ get_flat out 2 = Float64.to_float32 (Demo.fl 3).
Proof.
  destruct (phase_scatters_the_state_over_the_pupil toy_externals
              (DemoScreen.with_state DemoScreen.state4) DemoScreen.state4
              eq_refl eq_refl)
    as (out & E & So & _ & Hin & _).
  exists out. split; [exact E|]. split; [exact So|].
  apply (Hin 2). cbn. lia.
Defined.

(** X12.  The state keeps covering the pupil: after a construction that
    completes (square pupil, fitting mode counts, as in X10) and any
    number [k] of calls of [step()],
    the pupil is the one given, [x] still has one entry per active pupil
    point, and [phase] returns a float32 array of the pupil's shape
    [(w, w)]. *)
Theorem phase_is_available_after_every_step :
  forall (X : Externals spec_float) (g : globals) (clk : clock spec_float)
         (self : PhaseScreen.obj spec_float) (w k : nat),
    mode_count_fits (PhaseScreen.xx_max self)
      (length (active_points (PhaseScreen.pupil self))) = true ->
    mode_count_fits (PhaseScreen.vv_max self)
      (length (active_points (PhaseScreen.pupil self))) = true ->
    shape (PhaseScreen.pupil self) = [w; w] -> 0 < w ->
    g_pup_width g = Some w ->
    2 <= prod (shape (PhaseScreen.wind self)) ->
    exists ps0 ps x0 out,
      PhaseScreen.__init__ g clk self = Ok ps0
      /\ PhaseScreen.steps k ps0 = Ok ps
      /\ PhaseScreen.pupil ps = PhaseScreen.pupil self
      /\ PhaseScreen.x ps = Some x0
      /\ shape x0 = [length (active_points (PhaseScreen.pupil self))]
      /\ Views.phase ps
         = Ok {| ClassicCog.dt := ClassicCog.dt_float32;
                 ClassicCog.arr := out |}
      /\ shape out = [w; w]
      /\ well_shaped out.
Proof.
  intros X g clk self w k Hxx Hvv Sp Hw Hg Hwind.
  destruct (init_policy_ok g clk self w Hxx Hvv Sp Hw Hg Hwind)
    as (ps0 & fxx & fvv & sm & x00 & c1 & c2 & E0 & _).
  destruct (init_covers_pupil g clk self ps0 w Hxx Hvv Sp Hw Hg Hwind E0)
    as (C0 & P0).
  destruct (steps_covers_pupil k ps0 C0) as (ps & Es & (W & x0 & Ex & Sx) & P).
  exists ps0, ps, x0. eexists.
  split; [exact E0|]. split; [exact Es|].
  split; [now rewrite P, P0|]. split; [exact Ex|].
  split; [now rewrite Sx, P, P0|].
  split; [exact (phase_value ps x0 Ex Sx)|].
  split; [cbn [nd_map shape]; now rewrite P, P0|].
  unfold well_shaped. cbn [nd_map data shape].
  now rewrite length_map, length_tabulate.
Qed.

Lemma phase_is_available_after_every_step_witness :
  exists ps0 ps x0 out,
    @PhaseScreen.__init__ spec_float float64 toy_externals
       Demo.script_globals Demo.clock_classic_slower Demo.float_params
    = Ok ps0
    /\ PhaseScreen.steps 3 ps0 = Ok ps
    /\ PhaseScreen.pupil ps = PhaseScreen.pupil Demo.float_params
    /\ PhaseScreen.x ps = Some x0
    /\ shape x0
       = [length (active_points (PhaseScreen.pupil Demo.float_params))]
    /\ Views.phase ps
       = Ok {| ClassicCog.dt := ClassicCog.dt_float32;
               ClassicCog.arr := out |}
    /\ shape out = [2; 2]
    /\ well_shaped out.
Proof.
  apply (phase_is_available_after_every_step toy_externals
           Demo.script_globals Demo.clock_classic_slower Demo.float_params
           2 3);
    try reflexivity; cbn; lia.
Defined.

(** X15.  [PhaseScreen.__init__] takes the grid from the module-level
    name [pup_width], not from the pupil it is given: for a 2-D pupil of
    shape [(a, b)] with [a > 0], construction raises [NameError] when
    [pup_width] is unbound (the module is imported rather than run), and
    [IndexError] when [(a, b)] is not [(pup_width, pup_width)]. *)
Theorem construction_depends_on_module_level_pup_width :
  forall (T : Type) (S : Scalar T) (X : Externals T) (g : globals)
         (clk : clock T) (self : PhaseScreen.obj T) (a b : nat),
    shape (PhaseScreen.pupil self) = [a; b] -> 0 < a ->
    match g_pup_width g with
    | None => PhaseScreen.__init__ g clk self = Raise NameError
    | Some w =>
        (a =? w) && (b =? w) = false ->
        PhaseScreen.__init__ g clk self = Raise IndexError
    end.
Proof.
  intros T S X g clk self a b Sp Ha.
  unfold PhaseScreen.__init__, PhaseScreen.shape_at.
  rewrite Sp. cbn [nth_error bind].
  destruct (Nat.eqb_spec a 0) as [Ha0|_]; [lia|]. cbn [bind].
  destruct (g_pup_width g) as [w|]; [|reflexivity].
  intros Hne. cbn [require bind]. unfold PhaseScreen.mgrid_scaled.
  unfold mask_select at 1. rewrite Sp.
  cbn [shape length Nat.leb firstn skipn shape_eqb andb].
  rewrite andb_true_r, (Nat.eqb_sym w a), (Nat.eqb_sym w b), Hne.
  reflexivity.
Qed.

Lemma construction_depends_on_module_level_pup_width_witness :
  @PhaseScreen.__init__ Z exactZ Demo.int_externals
     {| g_pup_width := None; g_pupil := None |}
     (@Demo.clock_classic_slower Z exactZ) Demo.int_params
  = Raise NameError
  /\ @PhaseScreen.__init__ Z exactZ Demo.int_externals
       {| g_pup_width := Some 3; g_pupil := None |}
       (@Demo.clock_classic_slower Z exactZ) Demo.int_params
     = Raise IndexError.
Proof.
  split.
  - exact (construction_depends_on_module_level_pup_width Z exactZ
             Demo.int_externals {| g_pup_width := None; g_pupil := None |}
             (@Demo.clock_classic_slower Z exactZ) Demo.int_params 2 2
             eq_refl ltac:(lia)).
  - exact (construction_depends_on_module_level_pup_width Z exactZ
             Demo.int_externals
             {| g_pup_width := Some 3; g_pupil := None |}
             (@Demo.clock_classic_slower Z exactZ) Demo.int_params 2 2
             eq_refl ltac:(lia) eq_refl).
Defined.

(* ===================================================================== *)
(** ** The slope vector of the main loop and the reconstructor's grid *)
(* ===================================================================== *)

Lemma length_flat_map_chunks {A B : Type} (f : A -> list B) (l : list A)
      (c : nat) :
  (forall a, In a l -> length (f a) = c) ->
  length (flat_map f l) = length l * c.
Proof.
  induction l as [|a l IH]; intros Hc; [reflexivity|].
  cbn [flat_map length]. rewrite length_app, (Hc a) by now left.
  rewrite IH by (intros a' Ha; apply Hc; now right). lia.
Qed.

Lemma nth_flat_map_chunks {A B : Type} (f : A -> list B) (l : list A)
      (c i j : nat) (da : A) (d : B) :
  (forall a, In a l -> length (f a) = c) ->
  i < length l -> j < c ->
  nth (i * c + j) (flat_map f l) d = nth j (f (nth i l da)) d.
Proof.
  revert i. induction l as [|a l IH]; intros i Hc Hi Hj.
  - cbn in Hi. lia.
  - cbn [flat_map]. destruct i as [|i].
    + cbn [Nat.mul Nat.add nth].
      apply app_nth1. rewrite (Hc a) by now left. exact Hj.
    + assert (La : length (f a) = c) by (apply Hc; now left).
      rewrite app_nth2 by (rewrite La; lia).
      replace (S i * c + j - length (f a)) with (i * c + j)
        by (rewrite La; lia).
      cbn [nth]. apply IH.
      * intros a' Ha. apply Hc. now right.
      * cbn [length] in Hi. lia.
      * exact Hj.
Qed.

Lemma length_chunk {B : Type} (l : list B) (i c : nat) :
  (i + 1) * c <= length l ->
  length (firstn c (skipn (i * c) l)) = c.
Proof.
  intros Hl. rewrite length_firstn, length_skipn. lia.
Qed.

Lemma nth_chunk {B : Type} (l : list B) (i c j : nat) (d : B) :
  j < c -> nth j (firstn c (skipn (i * c) l)) d = nth (i * c + j) l d.
Proof.
  intros Hj. rewrite nth_firstn.
  rewrite (proj2 (Nat.ltb_lt _ _) Hj). apply nth_skipn.
Qed.

Lemma active_points_lt (mask : ndarray bool) (i : nat) :
  In i (active_points mask) -> i < prod (shape mask).
Proof.
  unfold active_points. intros Hi. apply filter_In in Hi as (Hs & _).
  apply in_seq in Hs. lia.
Qed.

Lemma nth_active_points_lt (mask : ndarray bool) (k : nat) :
  k < length (active_points mask) ->
  nth k (active_points mask) 0 < prod (shape mask).
Proof.
  intros Hk. apply active_points_lt. now apply nth_In.
Qed.

(** The rows selected by a 1-D mask from a well-shaped 2-D array. *)
Lemma mask_select_rows {U : Type} (a : ndarray U) (mask : ndarray bool)
      (n c : nat) (d : U) :
  shape a = [n; c] -> well_shaped a -> shape mask = [n] ->
  exists rows,
    mask_select a mask = Ok rows
    /\ shape rows = [length (active_points mask); c]
    /\ length (data rows) = length (active_points mask) * c
    /\ forall k j, k < length (active_points mask) -> j < c ->
         nth (k * c + j) (data rows) d
         = nth (nth k (active_points mask) 0 * c + j) (data a) d.
Proof.
  intros Sa Wa Sm. unfold mask_select. rewrite Sa, Sm.
  cbn [length Nat.leb firstn skipn shape_eqb].
  rewrite Nat.eqb_refl. cbn [andb prod fold_right].
  rewrite !Nat.mul_1_r.
  unfold well_shaped in Wa. rewrite Sa in Wa.
  cbn [prod fold_right] in Wa. rewrite Nat.mul_1_r in Wa.
  assert (Ea : active_points mask
               = filter (fun i => nth i (data mask) false) (seq 0 n)).
  { unfold active_points. rewrite Sm. cbn [prod fold_right].
    now rewrite Nat.mul_1_r. }
  rewrite <- Ea.
  assert (Hlen : forall i, In i (active_points mask) ->
            length (firstn c (skipn (i * c) (data a))) = c).
  { intros i Hi. apply length_chunk.
    apply active_points_lt in Hi. rewrite Sm in Hi.
    cbn [prod fold_right] in Hi. nia. }
  eexists. split; [reflexivity|]. split; [reflexivity|].
  cbn [data]. split.
  - now apply length_flat_map_chunks.
  - intros k j Hk Hj.
    rewrite (nth_flat_map_chunks _ _ c k j 0 d Hlen Hk Hj).
    now apply nth_chunk.
Qed.

(** X13.  The slope vector the main loop publishes,
    [cog(...)[valid].T.flatten()], for slopes of shape [(N, 2)] and a
    validity mask of shape [(N,)]: it has [valid.sum()*2] entries, the
    extent of the buffer allocated before the loop; its first half lists
    the x slopes of the valid subapertures in ascending subaperture
    order, its second half their y slopes in the same order. *)
Theorem slope_vector_lists_x_then_y :
  forall (T : Type) (S : Scalar T) (slopes : ndarray T)
         (valid : ndarray bool) (N : nat),
    shape slopes = [N; 2] -> well_shaped slopes -> shape valid = [N] ->
    exists out,
      MainLoop.yao_slopes slopes valid = Ok out
      /\ shape out = [MainLoop.slope_buffer_extent valid]
      /\ well_shaped out
      /\ forall k, k < length (active_points valid) ->
           get_flat out k
           = get_rc 2 slopes (nth k (active_points valid) 0) 0
           /\ get_flat out (length (active_points valid) + k)
              = get_rc 2 slopes (nth k (active_points valid) 0) 1.
Proof.
  intros T S slopes valid N Ss Ws Sv.
  destruct (mask_select_rows slopes valid N 2 s_zero Ss Ws Sv)
    as (rows & Er & Sr & Lr & Hr).
  unfold MainLoop.yao_slopes. rewrite Er. cbn [bind].
  set (M := length (active_points valid)) in *.
  assert (Et : transpose rows
               = mk_nd [2; M] (tab2 2 M (fun j i => get_rc 2 rows i j))).
  { unfold transpose. now rewrite Sr. }
  rewrite Et. unfold MainLoop.flatten. cbn [shape data].
  eexists. split; [reflexivity|].
  split.
  { cbn [shape prod fold_right]. unfold MainLoop.slope_buffer_extent.
    unfold count_true. fold (active_points valid). fold M.
    f_equal. lia. }
  split.
  { unfold well_shaped. cbn [shape data prod fold_right].
    rewrite length_tab2. lia. }
  intros k Hk. unfold get_flat. cbn [data]. unfold tab2. split.
  - rewrite nth_tabulate by lia.
    rewrite Nat.div_small, Nat.mod_small by lia.
    unfold get_rc. exact (Hr k 0 Hk ltac:(lia)).
  - rewrite nth_tabulate by lia.
    replace (M + k) with (1 * M + k) by lia.
    rewrite flat_index_div, flat_index_mod by lia.
    unfold get_rc. exact (Hr k 1 Hk ltac:(lia)).
Qed.

Lemma slope_vector_lists_x_then_y_witness :
  exists out,
    @MainLoop.yao_slopes Z exactZ DemoLoop.slopes4 DemoLoop.valid4 = Ok out
    /\ shape out = [6]
    /\ data out = [10; 30; 40; 11; 31; 41]%Z.
Proof.
  destruct (slope_vector_lists_x_then_y Z exactZ DemoLoop.slopes4
              DemoLoop.valid4 4 eq_refl eq_refl eq_refl)
    as (out & E & So & _ & _).
  exists out. split; [exact E|]. split; [exact So|].
  vm_compute in E. inversion E. reflexivity.
Defined.

Lemma nth_uint8_round_trip (l : list bool) (i : nat) :
  nth i (map (fun v => v =? 1)
             (map (fun b : bool => if b then 1 else 0) l)) false
  = nth i l false.
Proof.
  revert i. induction l as [|b l IH]; intros [|i]; cbn [map nth];
    try reflexivity.
  - now destruct b.
  - apply IH.
Qed.

(** X14.  The reconstructor's coordinates are in the order of the
    simulator's slopes (the shared memory handing over the published mask
    as written).  For a validity mask of [n*n] subapertures and slopes of
    shape [(n*n, 2)]: the mask published as [(n, n)] uint8 and read back
    through [valid == 1] selects as many grid points as the slope vector
    has x (and y) entries, and entry [k] of [x_valid, y_valid] is the
    column and the row of the subaperture whose x slope is entry [k] and
    whose y slope is entry [M + k] of the slope vector. *)
Theorem reconstructor_coordinates_follow_slope_order :
  forall (T : Type) (S : Scalar T) (slopes : ndarray T)
         (valid : ndarray bool) (n : nat),
    0 < n ->
    shape slopes = [n * n; 2] -> well_shaped slopes ->
    shape valid = [n * n] ->
    exists pub x_valid y_valid out,
      MainLoop.published_valid valid n = Ok pub
      /\ Reconstructor.valid_coordinates n pub = Ok (x_valid, y_valid)
      /\ MainLoop.yao_slopes slopes valid = Ok out
      /\ shape x_valid = [length (active_points valid)]
      /\ shape y_valid = [length (active_points valid)]
      /\ shape out = [length (active_points valid) * 2]
      /\ forall k, k < length (active_points valid) ->
           let col := nth k (data x_valid) 0 in
           let row := nth k (data y_valid) 0 in
           col < n /\ row < n
           /\ nth k (active_points valid) 0 = row * n + col
           /\ get_flat out k = get_rc 2 slopes (row * n + col) 0
           /\ get_flat out (length (active_points valid) + k)
              = get_rc 2 slopes (row * n + col) 1.
Proof.
  intros T S slopes valid n Hn Ss Ws Sv.
  destruct (mask_select_rows slopes valid (n * n) 2 s_zero Ss Ws Sv)
    as (rows & Er & Sr & Lr & Hr).
  set (M := length (active_points valid)) in *.
  unfold MainLoop.published_valid.
  rewrite reshape_ok
    by (cbn [shape]; rewrite Sv; cbn [prod fold_right]; lia).
  cbn [data].
  set (pub := mk_nd [n; n]
                (map (fun b : bool => if b then 1 else 0) (data valid))).
  unfold Reconstructor.valid_coordinates, Reconstructor.meshgrid_xy.
  cbv beta iota zeta.
  assert (Ea : active_points (Reconstructor.equals_one pub)
               = active_points valid).
  { unfold active_points, Reconstructor.equals_one, pub.
    cbn [shape data]. rewrite Sv. cbn [prod fold_right].
    rewrite !Nat.mul_1_r. apply filter_ext. intros i.
    apply nth_uint8_round_trip. }
  assert (Hsel : forall (grid : list nat),
            length grid = n * n ->
            exists r,
              mask_select (mk_nd [n; n] grid) (Reconstructor.equals_one pub)
              = Ok r
              /\ shape r = [M]
              /\ forall k, k < M ->
                   nth k (data r) 0
                   = nth (nth k (active_points valid) 0) grid 0).
  { intros grid Lg. unfold mask_select.
    cbn [shape Reconstructor.equals_one pub length Nat.leb firstn skipn
         shape_eqb].
    rewrite Nat.eqb_refl. cbn [andb prod fold_right].
    fold pub.
    change (filter (fun i => nth i (data (Reconstructor.equals_one pub))
                                 false)
                   (seq 0 (n * (n * 1))))
      with (active_points (Reconstructor.equals_one pub)).
    rewrite Ea. fold M.
    assert (Hlen : forall i, In i (active_points valid) ->
              length (firstn 1 (skipn (i * 1) grid)) = 1).
    { intros i Hi. apply length_chunk.
      apply active_points_lt in Hi. rewrite Sv in Hi.
      cbn [prod fold_right] in Hi. lia. }
    eexists. split; [reflexivity|]. split; [reflexivity|].
    intros k Hk. cbn [data].
    pose proof (nth_flat_map_chunks
                  (fun i => firstn 1 (skipn (i * 1) grid))
                  (active_points valid) 1 k 0 0 0 Hlen Hk Nat.lt_0_1)
      as Hc.
    rewrite Nat.mul_1_r, Nat.add_0_r in Hc. rewrite Hc.
    rewrite nth_chunk by lia.
    now rewrite Nat.mul_1_r, Nat.add_0_r. }
  destruct (Hsel (tab2 n n (fun _ j => j)) (length_tab2 _ _ _))
    as (xv & Exv & Sxv & Hxv).
  destruct (Hsel (tab2 n n (fun i _ => i)) (length_tab2 _ _ _))
    as (yv & Eyv & Syv & Hyv).
  assert (Et : transpose rows
               = mk_nd [2; M] (tab2 2 M (fun j i => get_rc 2 rows i j))).
  { unfold transpose. now rewrite Sr. }
  exists pub, xv, yv.
  exists (MainLoop.flatten (transpose rows)).
  split; [reflexivity|].
  split; [rewrite Exv; cbn [bind]; rewrite Eyv; reflexivity|].
  split; [unfold MainLoop.yao_slopes; rewrite Er; reflexivity|].
  rewrite Et. unfold MainLoop.flatten. cbn [shape data].
  split; [exact Sxv|]. split; [exact Syv|].
  split; [cbn [shape prod fold_right]; f_equal; lia|].
  intros k Hk. cbv zeta.
  assert (Hs : nth k (active_points valid) 0 < n * n).
  { pose proof (nth_active_points_lt valid k Hk) as L.
    rewrite Sv in L. cbn [prod fold_right] in L. lia. }
  set (s := nth k (active_points valid) 0) in *.
  rewrite (Hxv k Hk), (Hyv k Hk). unfold tab2.
  rewrite !nth_tabulate by exact Hs. cbv beta. fold s.
  assert (Hdm : s = s / n * n + s mod n).
  { pose proof (Nat.div_mod_eq s n). lia. }
  split; [apply Nat.mod_upper_bound; lia|].
  split; [apply Nat.Div0.div_lt_upper_bound; lia|].
  split; [exact Hdm|].
  rewrite <- Hdm.
  unfold get_flat. cbn [data]. split.
  - rewrite nth_tabulate by lia.
    rewrite Nat.div_small, Nat.mod_small by lia.
    unfold get_rc. exact (Hr k 0 Hk ltac:(lia)).
  - rewrite nth_tabulate by lia.
    replace (M + k) with (1 * M + k) by lia.
    rewrite flat_index_div, flat_index_mod by lia.
    unfold get_rc. exact (Hr k 1 Hk ltac:(lia)).
Qed.

Lemma reconstructor_coordinates_follow_slope_order_witness :
  exists pub x_valid y_valid out,
    MainLoop.published_valid DemoLoop.valid4 2 = Ok pub
    /\ Reconstructor.valid_coordinates 2 pub = Ok (x_valid, y_valid)
    /\ @MainLoop.yao_slopes Z exactZ DemoLoop.slopes4 DemoLoop.valid4
       = Ok out
    /\ data x_valid = [0; 0; 1]
    /\ data y_valid = [0; 1; 1]
    /\ data out = [10; 30; 40; 11; 31; 41]%Z.
Proof.
  destruct (reconstructor_coordinates_follow_slope_order Z exactZ
              DemoLoop.slopes4 DemoLoop.valid4 2
              ltac:(lia) eq_refl eq_refl eq_refl)
    as (pub & xv & yv & out & Ep & Ec & Eo & _).
  exists pub, xv, yv, out.
  split; [exact Ep|]. split; [exact Ec|]. split; [exact Eo|].
  vm_compute in Ep. inversion Ep; subst pub.
  vm_compute in Ec. inversion Ec; subst xv yv.
  vm_compute in Eo. inversion Eo; subst out.
  repeat split; reflexivity.
Defined.

(* ===================================================================== *)
(** ** The mode-count policy of [_factorh] *)
(* ===================================================================== *)

Section ModeCount.
Context {T : Type} `{Scalar T} `{Externals T}.
Import PhaseScreen.

Variable vals : ndarray T.
Hypothesis C : comparable_keys vals.

Let R (i j : nat) : Prop :=
  s_leb (get_flat vals i) (get_flat vals j) = true.

Lemma keys_refl (i : nat) : R i i.
Proof.
  destruct C as (C1 & C2 & _). unfold R.
  destruct (s_ltb (get_flat vals i) (get_flat vals i)) eqn:E;
    [now apply C2 | now apply C1].
Qed.

(** On comparable keys the sorting order is the order [<]. *)
Lemma sort_lt_comparable (i j : nat) :
  sort_lt (get_flat vals i) (get_flat vals j)
  = s_ltb (get_flat vals i) (get_flat vals j).
Proof.
  unfold sort_lt. pose proof (keys_refl j) as Rj. unfold R in Rj.
  rewrite Rj. cbn [negb andb]. apply orb_false_r.
Qed.

Lemma insert_by_perm (i : nat) (l : list nat) :
  Permutation (insert_by vals i l) (i :: l).
Proof.
  induction l as [|j l IH]; cbn [insert_by]; [reflexivity|].
  destruct (sort_lt _ _); [reflexivity|].
  rewrite IH. apply perm_swap.
Qed.

Lemma insert_by_sorted (i : nat) (l : list nat) :
  StronglySorted R l -> StronglySorted R (insert_by vals i l).
Proof.
  destruct C as (C1 & C2 & C3).
  induction l as [|j l IH]; intros SS; cbn [insert_by].
  - constructor; constructor.
  - inversion SS as [|? ? SS' Fj]; subst.
    rewrite sort_lt_comparable.
    destruct (s_ltb (get_flat vals i) (get_flat vals j)) eqn:E.
    + constructor; [exact SS|].
      constructor; [now apply C2|].
      eapply Forall_impl; [|exact Fj].
      intros x Rx. unfold R in *. eapply C3; [apply C2; exact E|exact Rx].
    + constructor; [now apply IH|].
      eapply Permutation_Forall;
        [apply Permutation_sym, insert_by_perm|].
      constructor; [now apply C1|exact Fj].
Qed.

Lemma fold_insert_by_perm (idx acc : list nat) :
  Permutation (fold_left (fun acc i => insert_by vals i acc) idx acc)
              (acc ++ idx).
Proof.
  revert acc. induction idx as [|i idx IH]; intros acc; cbn [fold_left].
  - now rewrite app_nil_r.
  - rewrite IH, insert_by_perm. apply Permutation_middle.
Qed.

Lemma fold_insert_by_sorted (idx acc : list nat) :
  StronglySorted R acc ->
  StronglySorted R (fold_left (fun acc i => insert_by vals i acc) idx acc).
Proof.
  revert acc. induction idx as [|i idx IH]; intros acc SS; cbn [fold_left].
  - exact SS.
  - apply IH. now apply insert_by_sorted.
Qed.

Lemma argsort_perm :
  Permutation (argsort vals) (seq 0 (prod (shape vals))).
Proof. unfold argsort. apply (fold_insert_by_perm _ []). Qed.

Lemma argsort_sorted : StronglySorted R (argsort vals).
Proof. unfold argsort. apply fold_insert_by_sorted. constructor. Qed.

Lemma skipn_sorted (k : nat) (l : list nat) :
  StronglySorted R l -> StronglySorted R (skipn k l).
Proof.
  revert l. induction k as [|k IH]; intros l SS; [exact SS|].
  destruct l as [|a l]; [exact SS|].
  cbn [skipn]. apply IH. now inversion SS.
Qed.

Lemma skipn_cons_nth (k : nat) (l : list nat) :
  k < length l -> skipn k l = nth k l 0 :: skipn (S k) l.
Proof.
  revert l. induction k as [|k IH]; intros [|a l] Hk; cbn [length] in Hk;
    try lia.
  - reflexivity.
  - cbn [skipn nth]. rewrite IH by lia. reflexivity.
Qed.

Lemma NoDup_skipn (k : nat) (l : list nat) : NoDup l -> NoDup (skipn k l).
Proof.
  intros N. rewrite <- (firstn_skipn k l) in N.
  now apply NoDup_app_remove_l in N.
Qed.

(** At least [r - k] entries are not below the entry of rank [k]. *)
Lemma at_least_the_top (k : nat) :
  well_shaped vals ->
  k < prod (shape vals) ->
  prod (shape vals) - k
  <= length
       (filter
          (fun j =>
             nth j (map (fun v =>
                           s_leb (get_flat vals (nth k (argsort vals) 0)) v)
                        (data vals)) false)
          (seq 0 (prod (shape vals)))).
Proof.
  intros W Hk.
  set (r := prod (shape vals)) in *.
  assert (Lo : length (argsort vals) = r) by apply length_argsort.
  assert (Nd : NoDup (skipn k (argsort vals))).
  { apply NoDup_skipn.
    eapply Permutation_NoDup;
      [apply Permutation_sym, argsort_perm|apply seq_NoDup]. }
  assert (Lj : length (skipn k (argsort vals)) = r - k)
    by now rewrite length_skipn, Lo.
  rewrite <- Lj. apply NoDup_incl_length; [exact Nd|].
  intros j Hj.
  assert (Hin : In j (seq 0 r)).
  { eapply Permutation_in; [apply argsort_perm|].
    rewrite <- (firstn_skipn k (argsort vals)). apply in_or_app. now right. }
  apply filter_In. split; [exact Hin|].
  apply in_seq in Hin.
  rewrite (nth_map_in _ _ _ s_zero) by (rewrite W; fold r; lia).
  assert (SS := skipn_sorted k (argsort vals) argsort_sorted).
  rewrite (skipn_cons_nth k (argsort vals)) in SS, Hj by lia.
  destruct Hj as [<-|Hj]; [apply keys_refl|].
  inversion SS as [|? ? _ F]; subst.
  rewrite Forall_forall in F. exact (F j Hj).
Qed.

End ModeCount.

Section ModeCountFactor.
Context {T : Type} `{Scalar T} `{Externals T}.
Import PhaseScreen.

(** The column count of the factor is the number of modes the mask
    keeps. *)
Lemma _factorh_columns (self : obj T) (m : ndarray T) (n_modes : option Z)
      (f fi vals vecs : ndarray T) :
  eigh m = Ok (vals, vecs) ->
  _factorh self m n_modes = Ok (f, fi) ->
  exists r valid,
    shape m = [r; r] /\ shape vals = [r]
    /\ valid_modes self vals n_modes = Ok valid
    /\ shape f
       = [r; length (filter (fun j => nth j (data valid) false) (seq 0 r))]
    /\ shape fi = shape f.
Proof.
  intros Ee E.
  destruct (eigh_shapes _ _ _ Ee) as (r & Sm & Sw & Sv).
  unfold _factorh in E. rewrite Ee in E. cbn [bind] in E.
  bind_split E as valid Ev.
  assert (Sva : shape valid = [r]).
  { unfold valid_modes in Ev. destruct n_modes as [n|].
    - bind_split Ev as k Ek. inversion Ev; subst. exact Sw.
    - inversion Ev; subst. exact Sw. }
  bind_split E as vecs' Evs. bind_split E as vals' Evl.
  bind_split E as f' Ef. bind_split E as fi' Efi.
  inversion E; subst f' fi'; clear E.
  unfold select_cols in Evs. rewrite Sv, Sva, Nat.eqb_refl in Evs.
  inversion Evs; subst vecs'; clear Evs.
  unfold mask_select in Evl. rewrite Sw, Sva in Evl.
  cbn [length firstn skipn Nat.leb shape_eqb prod fold_right] in Evl.
  rewrite Nat.eqb_refl in Evl. cbn [andb] in Evl.
  rewrite Nat.mul_1_r in Evl.
  inversion Evl; subst vals'; clear Evl.
  apply zip_with_shape in Ef, Efi.
  cbn [shape row_vector nd_map] in Ef, Efi.
  rewrite broadcast_row in Ef, Efi.
  inversion Ef as [Sf]. inversion Efi as [Sfi].
  exists r, valid. split; [exact Sm|]. split; [exact Sw|].
  split; [exact Ev|]. split; reflexivity.
Qed.

End ModeCountFactor.

(** X16.  The mode-count policy keeps at least the modes it is asked for.
    When the eigenvalues returned by [eigh] (one per row of the matrix)
    compare as a total preorder, that is none of them is NaN, and
    [_factorh(m, n_modes)] returns, the factor and the inverse factor
    have at least [n_modes] columns when [n_modes] is positive (all but
    the [-n_modes] smallest when it is not), and at most as many as the
    matrix has rows.  Ties at the pivot eigenvalue keep more than asked. *)
Theorem mode_count_keeps_at_least_the_modes_asked :
  forall (T : Type) (S : Scalar T) (X : Externals T)
         (self : PhaseScreen.obj T) (m vals vecs f fi : ndarray T) (n : Z),
    eigh m = Ok (vals, vecs) -> well_shaped vals ->
    comparable_keys vals ->
    PhaseScreen._factorh self m (Some n) = Ok (f, fi) ->
    exists r c,
      shape m = [r; r] /\ shape f = [r; c] /\ shape fi = [r; c]
      /\ modes_asked n r <= c /\ c <= r.
Proof.
  intros T S X self m vals vecs f fi n Ee W C E.
  destruct (_factorh_columns self m (Some n) f fi vals vecs Ee E)
    as (r & valid & Sm & Sw & Ev & Sf & Sfi).
  exists r. eexists. split; [exact Sm|]. split; [exact Sf|].
  split; [now rewrite Sfi|].
  assert (Pr : prod (shape vals) = r)
    by (rewrite Sw; cbn [prod fold_right]; lia).
  split.
  - unfold PhaseScreen.valid_modes in Ev.
    bind_split Ev as k Ek. inversion Ev; subst valid; clear Ev.
    cbn [data].
    rewrite length_argsort, Pr in Ek.
    assert (Hk : k < r /\ modes_asked n r = r - k).
    { unfold py_index in Ek. unfold modes_asked.
      destruct ((0 <=? - n)%Z && (- n <? Z.of_nat r)%Z) eqn:B1.
      - apply andb_true_iff in B1 as (B1 & B2).
        apply Z.leb_le in B1. apply Z.ltb_lt in B2.
        inversion Ek; subst k.
        assert (L : (0 <? n)%Z = false) by (apply Z.ltb_ge; lia).
        rewrite L. split; lia.
      - destruct ((- n <? 0)%Z && (- Z.of_nat r <=? - n)%Z) eqn:B2;
          [|discriminate].
        apply andb_true_iff in B2 as (B2 & B3).
        apply Z.ltb_lt in B2. apply Z.leb_le in B3.
        inversion Ek; subst k.
        assert (L : (0 <? n)%Z = true) by (apply Z.ltb_lt; lia).
        rewrite L. split; lia. }
    destruct Hk as (Hk & ->).
    pose proof (at_least_the_top vals C k W) as A.
    rewrite Pr in A. apply A. exact Hk.
  - etransitivity; [apply filter_length_le|]. now rewrite length_seq.
Qed.

Lemma comparable_keys_Z (vals : ndarray Z) : @comparable_keys Z exactZ vals.
Proof.
  repeat split; cbn [s_ltb s_leb exactZ]; intros.
  - apply Z.leb_le. apply Z.ltb_ge in H. lia.
  - apply Z.leb_le. apply Z.ltb_lt in H. lia.
  - apply Z.leb_le. apply Z.leb_le in H, H0. lia.
Qed.

Lemma mode_count_keeps_at_least_the_modes_asked_witness :
  exists f fi,
    @PhaseScreen._factorh Z exactZ Demo.int_externals Demo.int_params
       DemoModes.diag355 (Some 1%Z) = Ok (f, fi)
    /\ exists r c,
         shape DemoModes.diag355 = [r; r] /\ shape f = [r; c]
         /\ shape fi = [r; c] /\ modes_asked 1 r <= c /\ c <= r.
Proof.
  destruct (@PhaseScreen._factorh Z exactZ Demo.int_externals
              Demo.int_params DemoModes.diag355 (Some 1%Z))
    as [[f fi]|e] eqn:E; [|vm_compute in E; discriminate].
  exists f, fi. split; [reflexivity|].
  exact (mode_count_keeps_at_least_the_modes_asked Z exactZ
           Demo.int_externals Demo.int_params DemoModes.diag355
           (mk_nd [3] [3; 5; 5]%Z)
           (mk_nd [3; 3] [1; 0; 0;  0; 1; 0;  0; 0; 1]%Z)
           f fi 1%Z eq_refl eq_refl (comparable_keys_Z _) E).
Defined.

(* ===================================================================== *)
(** ** One pass of the main loop *)
(* ===================================================================== *)

(** X17.  One pass of the simulator's main loop completes, whatever the
    values in the arrays are.  In float64, with the script's globals
    ([pup_width = n*sw] and a pupil of shape [(n*sw, n*sw)] shared by the
    PhaseScreen and the sensor), mode counts that fit, a wind vector of at
    least two entries, a field of view that is even or at least [2*sw],
    a centroider of [npix = fovx] and a validity mask of shape [(n*n,)]:
    after construction and any number [k] of steps, [phase], then
    [measure], then [cog(image_batched)], then [[valid].T.flatten()] all
    return, and the slope vector has the extent [valid.sum()*2] of the
    buffer it is written to. *)
Theorem main_loop_pass_completes :
  forall (X : Externals spec_float) (Tr : Trig spec_float) (g : globals)
         (clk : clock spec_float) (screen : PhaseScreen.obj spec_float)
         (sensor : SHWFS.obj spec_float) (pup valid : ndarray bool)
         (kw : option (option spec_float)) (n sw k : nat),
    0 < n -> 0 < sw ->
    g_pup_width g = Some (n * sw) -> g_pupil g = Some pup ->
    shape pup = [n * sw; n * sw] ->
    PhaseScreen.pupil screen = pup -> SHWFS.pupil sensor = pup ->
    mode_count_fits (PhaseScreen.xx_max screen)
      (length (active_points pup)) = true ->
    mode_count_fits (PhaseScreen.vv_max screen)
      (length (active_points pup)) = true ->
    2 <= prod (shape (PhaseScreen.wind screen)) ->
    SHWFS.nsubx sensor = n ->
    Nat.even (SHWFS.fovx sensor) = true \/ sw * 2 <= SHWFS.fovx sensor ->
    shape valid = [n * n] ->
    exists ps0 ps phi s0 s1 frames c slopes out,
      PhaseScreen.__init__ g clk screen = Ok ps0
      /\ PhaseScreen.steps k ps0 = Ok ps
      /\ Views.phase ps = Ok phi
      /\ SHWFS.__init__ g sensor = Ok s0
      /\ SHWFS.measure g s0 (ClassicCog.arr phi) = Ok s1
      /\ Views.image_batched s1 = Ok frames
      /\ ClassicCog.calibrate
           (ClassicCog.new (Z.of_nat (SHWFS.fovx sensor)) kw) = Ok c
      /\ ClassicCog.cog c frames = Ok slopes
      /\ MainLoop.yao_slopes (ClassicCog.arr slopes) valid = Ok out
      /\ shape out = [MainLoop.slope_buffer_extent valid].
Proof.
  intros X Tr g clk screen sensor pup valid kw n sw k Hn Hsw Hgw Hgp Sp
         Eps Esp Fxx Fvv Hwind En Hf Sv.
  assert (Hw : 0 < n * sw) by nia.
  rewrite <- Eps in Fxx, Fvv.
  assert (Sps : shape (PhaseScreen.pupil screen) = [n * sw; n * sw])
    by now rewrite Eps.
  destruct (init_policy_ok g clk screen (n * sw) Fxx Fvv Sps Hw Hgw Hwind)
    as (ps0 & fxx & fvv & sm & x00 & c1 & c2 & E0 & _).
  destruct (init_covers_pupil g clk screen ps0 (n * sw) Fxx Fvv Sps Hw Hgw
              Hwind E0) as (C0 & P0).
  destruct (steps_covers_pupil k ps0 C0)
    as (ps & Es & (W & x0 & Ex & Sx) & P).
  pose proof (phase_value ps x0 Ex Sx) as Ephi.
  match type of Ephi with _ = Ok ?v => set (phi := v) in * end.
  assert (Sphi : shape (ClassicCog.arr phi) = [n * sw; n * sw]).
  { unfold phi. cbn [ClassicCog.arr ClassicCog.astype_float32 nd_map shape].
    now rewrite P, P0. }
  assert (Sss : shape (SHWFS.pupil sensor) = [n * sw; n * sw])
    by now rewrite Esp.
  destruct (init_then_measure_ok spec_float float64 Tr g sensor pup
              (ClassicCog.arr phi) n sw Hn Hsw En Sss Hgp Sp Sphi Hf)
    as (s0 & s1 & subaps & full & Ei & Em & Esub & Efull & Ss & Ws & _).
  destruct (calibrate_ok (Z.of_nat (SHWFS.fovx sensor)) kw) as (c & Ec);
    [lia|].
  assert (Ss' : shape subaps
                = [n * n; Z.to_nat (Z.of_nat (SHWFS.fovx sensor));
                   Z.to_nat (Z.of_nat (SHWFS.fovx sensor))])
    by now rewrite Nat2Z.id.
  destruct (calibrated_cog_batch _ kw c subaps (n * n) Ec Ss' Ws)
    as (r & xy & _ & _ & _ & Ecog).
  match type of Ecog with _ = Ok ?v => set (slopes := v) in * end.
  assert (Ssl : shape (ClassicCog.arr slopes) = [n * n; 2]) by reflexivity.
  assert (Wsl : well_shaped (ClassicCog.arr slopes)).
  { unfold well_shaped, slopes.
    cbn [ClassicCog.arr ClassicCog.astype_float32 nd_map data shape
         prod fold_right].
    rewrite length_map, length_tabulate. lia. }
  destruct (mask_select_rows (ClassicCog.arr slopes) valid (n * n) 2
              Float64.zero Ssl Wsl Sv)
    as (rows & Er & Sr & _).
  exists ps0, ps, phi, s0, s1, subaps, c, slopes.
  exists (MainLoop.flatten (transpose rows)).
  split; [exact E0|]. split; [exact Es|]. split; [exact Ephi|].
  split; [exact Ei|]. split; [exact Em|].
  split; [unfold Views.image_batched; now rewrite Esub|].
  split; [exact Ec|]. split; [exact Ecog|].
  split; [unfold MainLoop.yao_slopes; now rewrite Er|].
  unfold MainLoop.flatten, transpose. rewrite Sr.
  cbn [shape prod fold_right]. unfold MainLoop.slope_buffer_extent.
  unfold count_true. fold (active_points valid).
  f_equal. lia.
Qed.

Lemma main_loop_pass_completes_witness :
  exists ps0 ps phi s0 s1 frames c slopes out,
    @PhaseScreen.__init__ spec_float float64 toy_externals
       DemoSensor.sensor_globals Demo.clock_classic_slower
       DemoSensor.float_screen_params = Ok ps0
    /\ PhaseScreen.steps 2 ps0 = Ok ps
    /\ Views.phase ps = Ok phi
    /\ @SHWFS.__init__ spec_float float64 (@DemoSensor.flat_trig _ float64)
         DemoSensor.sensor_globals (DemoSensor.float_sensor 2) = Ok s0
    /\ @SHWFS.measure spec_float float64 (@DemoSensor.flat_trig _ float64)
         DemoSensor.sensor_globals s0 (ClassicCog.arr phi) = Ok s1
    /\ Views.image_batched s1 = Ok frames
    /\ ClassicCog.calibrate (ClassicCog.new (Z.of_nat 2) None) = Ok c
    /\ ClassicCog.cog c frames = Ok slopes
    /\ MainLoop.yao_slopes (ClassicCog.arr slopes) DemoLoop.valid4 = Ok out
    /\ shape out = [MainLoop.slope_buffer_extent DemoLoop.valid4].
Proof.
  apply (main_loop_pass_completes toy_externals
           (@DemoSensor.flat_trig _ float64) DemoSensor.sensor_globals
           Demo.clock_classic_slower DemoSensor.float_screen_params
           (DemoSensor.float_sensor 2) DemoSensor.pupil4 DemoLoop.valid4
           None 2 2 2);
    try reflexivity; try lia; try (cbn; lia).
Defined.

(* ===================================================================== *)
(** ** Subapertures outside the pupil *)
(* ===================================================================== *)

Section DarkFacts.
Context {Tr : Trig spec_float}.
Import SHWFS DarkFrames.

Lemma mul_zero_finite (x y : spec_float) :
  Float64.is_zero x = true -> Float64.is_finite y = true ->
  Float64.is_zero (s_mul x y) = true.
Proof.
  destruct x as [sx| | |], y as [sy| | |sy my ey]; simpl; intros;
    try discriminate; reflexivity.
Qed.

Lemma sub_zero_zero (x y : spec_float) :
  Float64.is_zero x = true -> Float64.is_zero y = true ->
  Float64.is_zero (s_sub x y) = true.
Proof.
  destruct x as [[|]| | |], y as [[|]| | |]; simpl; intros; try discriminate;
    reflexivity.
Qed.

Lemma sqrt_zero (x : spec_float) :
  Float64.is_zero x = true -> Float64.is_zero (s_sqrt x) = true.
Proof. destruct x; simpl; intros; try discriminate; reflexivity. Qed.

Lemma zero_is_finite (x : spec_float) :
  Float64.is_zero x = true -> Float64.is_finite x = true.
Proof. destruct x; simpl; intros; try discriminate; reflexivity. Qed.

Lemma c_mul_zero_l (z k : complex spec_float) :
  c_is_zero z = true -> c_finite k = true -> c_is_zero (c_mul z k) = true.
Proof.
  unfold c_is_zero, c_finite. intros Hz Hk.
  apply andb_true_iff in Hz as (Z1 & Z2).
  apply andb_true_iff in Hk as (K1 & K2).
  cbn [c_mul re im]. apply andb_true_iff. split.
  - apply sub_zero_zero; now apply mul_zero_finite.
  - apply add_zero_zero; now apply mul_zero_finite.
Qed.

Lemma c_add_zero (x y : complex spec_float) :
  c_is_zero x = true -> c_is_zero y = true -> c_is_zero (c_add x y) = true.
Proof.
  unfold c_is_zero. intros Hx Hy.
  apply andb_true_iff in Hx as (X1 & X2).
  apply andb_true_iff in Hy as (Y1 & Y2).
  cbn [c_add re im]. apply andb_true_iff. split; now apply add_zero_zero.
Qed.

Lemma c_sum_upto_zero (n : nat) (f : nat -> complex spec_float) :
  (forall q, q < n -> c_is_zero (f q) = true) ->
  c_is_zero (c_sum_upto n f) = true.
Proof.
  induction n as [|n IH]; intros Hf; cbn [c_sum_upto]; [reflexivity|].
  apply c_add_zero; [apply IH; intros; apply Hf; lia | apply Hf; lia].
Qed.

Lemma abs2_zero (z : complex spec_float) :
  c_is_zero z = true -> Float64.is_zero (abs2 z) = true.
Proof.
  unfold c_is_zero. intros Hz. apply andb_true_iff in Hz as (Z1 & Z2).
  unfold abs2. cbv zeta.
  assert (A : Float64.is_zero
                (s_sqrt (s_add (s_mul (re z) (re z)) (s_mul (im z) (im z))))
              = true).
  { apply sqrt_zero. apply add_zero_zero;
      apply mul_zero_finite; auto using zero_is_finite. }
  apply mul_zero_finite; [exact A | now apply zero_is_finite].
Qed.

Lemma nth_forallb {A : Type} (p : A -> bool) (l : list A) (k : nat) (d : A) :
  forallb p l = true -> p d = true -> p (nth k l d) = true.
Proof.
  intros Hl Hd. destruct (Nat.lt_ge_cases k (length l)) as [L|G].
  - rewrite forallb_forall in Hl. apply Hl. now apply nth_In.
  - now rewrite nth_overflow.
Qed.



Lemma c_times_entry (x y r : ndarray (complex spec_float))
      (sh : list nat) (k : nat) :
  shape x = sh -> shape y = sh -> c_times x y = Ok r -> k < prod sh ->
  shape r = sh
  /\ nth k (data r) c_zero
     = c_mul (nth k (data x) c_zero) (nth k (data y) c_zero).
Proof.
  intros Sx Sy E Hk. unfold c_times in E.
  rewrite Sx, Sy, broadcast_shapes_same in E. cbn [bind] in E.
  inversion E; subst r; clear E. split; [reflexivity|].
  cbn [data]. rewrite nth_tabulate by exact Hk. cbv zeta.
  now rewrite bcast_offset_full by exact Hk.
Qed.

Lemma swapaxes_1_2_entry {U : Type} (d : U) (x y : ndarray U)
      (A B C D i j k l : nat) :
  shape x = [A; B; C; D] -> swapaxes_1_2 d x = Ok y ->
  i < A -> j < B -> k < C -> l < D ->
  shape y = [A; C; B; D]
  /\ nth (ravel [A; C; B; D] [i; k; j; l]) (data y) d
     = nth (ravel [A; B; C; D] [i; j; k; l]) (data x) d.
Proof.
  intros Sx E Hi Hj Hk Hl.
  assert (Ey : y = mk_nd [A; C; B; D]
                     (tabulate (prod [A; C; B; D]) (fun q =>
                        nth (ravel [A; B; C; D]
                               (swap12 (unravel [A; C; B; D] q)))
                            (data x) d))).
  { assert (E' : swapaxes_1_2 d x
                 = Ok (mk_nd [A; C; B; D]
                         (tabulate (prod [A; C; B; D]) (fun q =>
                            nth (ravel [A; B; C; D]
                                   (swap12 (unravel [A; C; B; D] q)))
                                (data x) d))))
      by (unfold swapaxes_1_2; rewrite Sx; reflexivity).
    congruence. }
  rewrite Ey. split; [reflexivity|].
  change (data (mk_nd ?sh ?dat)) with dat.
  assert (F : Forall2 lt [i; k; j; l] [A; C; B; D])
    by (repeat constructor; assumption).
  rewrite nth_tabulate by (apply ravel_lt; exact F).
  now rewrite (unravel_ravel _ _ F).
Qed.

(** Entry [q] of the batch of subaperture [(i, j)] is the pupil point
    [(i*sw + q // sw, j*sw + q mod sw)]. *)
Lemma batch_subapertures_entry (s : obj spec_float) (sw : nat)
      (camp cb : ndarray (complex spec_float)) (i j q : nat) :
  0 < sw ->
  prod (shape camp) = nsubx s * sw * (nsubx s * sw) ->
  batch_subapertures s sw camp = Ok cb ->
  i < nsubx s -> j < nsubx s -> q < sw * sw ->
  shape cb = [nsubx s; nsubx s; sw * sw]
  /\ nth ((i * nsubx s + j) * (sw * sw) + q) (data cb) c_zero
     = nth ((i * sw + q / sw) * (nsubx s * sw) + (j * sw + q mod sw))
           (data camp) c_zero.
Proof.
  intros Hsw Hp E Hi Hj Hq. set (n := nsubx s) in *.
  unfold batch_subapertures in E. fold n in E.
  rewrite reshape_ok in E by (cbn [prod fold_right]; rewrite Hp; ring).
  cbn [bind] in E.
  bind_split E as c4 E4.
  assert (Hq1 : q / sw < sw) by (apply Nat.Div0.div_lt_upper_bound; lia).
  assert (Hq2 : q mod sw < sw) by (apply Nat.mod_upper_bound; lia).
  destruct (swapaxes_1_2_entry c_zero
              (mk_nd [n; sw; n; sw] (data camp)) c4 n sw n sw
              i (q / sw) j (q mod sw) eq_refl E4 Hi Hq1 Hj Hq2)
    as (S4 & N4).
  unfold reshape in E. destruct (_ =? _) in E; [|discriminate].
  inversion E; subst cb; clear E. split; [reflexivity|].
  cbn [data] in *.
  assert (Hdm : q = q / sw * sw + q mod sw).
  { pose proof (Nat.div_mod_eq q sw). lia. }
  replace ((i * n + j) * (sw * sw) + q)
    with (ravel [n; n; sw; sw] [i; j; q / sw; q mod sw]).
  2:{ cbn [ravel prod fold_right]. rewrite Hdm at 3. ring. }
  rewrite N4. f_equal. cbn [ravel prod fold_right]. ring.
Qed.

Lemma c_sum_upto_ext (n : nat) (f h : nat -> complex spec_float) :
  (forall q, q < n -> f q = h q) -> c_sum_upto n f = c_sum_upto n h.
Proof.
  induction n as [|n IH]; intros Hf; cbn [c_sum_upto]; [reflexivity|].
  rewrite IH by (intros; apply Hf; lia). now rewrite Hf by lia.
Qed.

Lemma einsum_ijq_pq_ijp_entry (x y r : ndarray (complex spec_float))
      (n1 n2 P Q ij p : nat) :
  shape x = [n1; n2; Q] -> shape y = [P; Q] ->
  einsum_ijq_pq_ijp x y = Ok r -> ij < n1 * n2 -> p < P ->
  shape r = [n1; n2; P]
  /\ length (data r) = n1 * n2 * P
  /\ nth (ij * P + p) (data r) c_zero
     = c_sum_upto Q (fun q =>
         c_mul (nth (ij * Q + q) (data x) c_zero)
               (nth (p * Q + q) (data y) c_zero)).
Proof.
  intros Sx Sy E Hij Hp. unfold einsum_ijq_pq_ijp in E.
  rewrite Sx, Sy, blabel_same in E. cbn [bind] in E.
  inversion E; subst r; clear E. split; [reflexivity|].
  cbn [data]. split; [apply length_tabulate|].
  rewrite nth_tabulate by (apply flat_index_lt; assumption).
  cbv zeta. rewrite flat_index_div, flat_index_mod by exact Hp.
  apply c_sum_upto_ext. intros q Hq. now rewrite !bidx_lt by exact Hq.
Qed.

(** When the module-level pupil is dark over subaperture [(i, j)], every
    amplitude of its batch is a complex zero, and so every intensity of
    its frame is a zero. *)
Lemma dark_frame_is_zero (g : globals) (s s1 : obj spec_float)
      (gp : ndarray bool) (d2 : ndarray (complex spec_float))
      (phi subaps : ndarray spec_float) (n sw i j : nat) :
  0 < n -> 0 < sw ->
  nsubx s = n -> shape (pupil s) = [n * sw; n * sw] ->
  g_pupil g = Some gp -> shape gp = [n * sw; n * sw] ->
  shape phi = [n * sw; n * sw] -> well_shaped phi ->
  dft2 s = Some d2 -> shape d2 = [fovx s * fovx s; sw * sw] ->
  forallb c_finite (data d2) = true ->
  i < n -> j < n ->
  (forall r c, r < sw -> c < sw ->
     nth ((i * sw + r) * (n * sw) + (j * sw + c)) (data gp) false = false
     /\ c_finite (wave_at s phi ((i * sw + r) * (n * sw) + (j * sw + c)))
        = true) ->
  measure g s phi = Ok s1 ->
  _im_subaps s1 = Some subaps ->
  shape subaps = [n * n; fovx s; fovx s]
  /\ well_shaped subaps
  /\ forall a b, a < fovx s -> b < fovx s ->
       Float64.is_zero
         (get_flat subaps (((i * n + j) * fovx s + a) * fovx s + b)) = true.
Proof.
  intros Hn Hsw En Ep Eg Sg Sphi Wphi Ed Sd Fd Hi Hj Hdark E Es.
  set (fov := fovx s) in *.
  unfold measure in E. rewrite Eg in E. cbn [require bind] in E.
  bind_split E as camp Ecamp.
  rewrite (subwidth_ok s n sw [n * sw] Hn En Ep) in E. cbn [bind] in E.
  bind_split E as cb Ecb.
  bind_split E as pl Epl. rewrite Ed in E. cbn [require bind] in E.
  bind_split E as amp Eamp.
  bind_split E as subaps' Esub.
  bind_split E as im4 Eim4. bind_split E as im4' Eim4'.
  bind_split E as full Efull.
  inversion E; subst s1; clear E. cbn [_im_subaps] in Es.
  inversion Es; subst subaps'; clear Es.
  unfold reshape in Esub. destruct (_ =? _) in Esub; [|discriminate].
  inversion Esub; subst subaps; clear Esub.
  assert (P0 : 0 < prod [n * sw; n * sw]) by (cbn [prod fold_right]; nia).
  match type of Ecamp with
  | c_times ?x ?y = _ =>
      destruct (c_times_entry x y camp [n * sw; n * sw] 0 Sg Sphi Ecamp P0)
        as (Scamp & _)
  end.
  assert (Hprod : prod (shape camp) = nsubx s * sw * (nsubx s * sw))
    by (rewrite Scamp, En; cbn [prod fold_right]; ring).
  assert (Hij : i * n + j < n * n) by (apply flat_index_lt; assumption).
  assert (Scb : shape cb = [n; n; sw * sw]).
  { assert (Q0 : 0 < sw * sw) by nia.
    rewrite <- En in Hi, Hj.
    destruct (batch_subapertures_entry s sw camp cb i j 0 Hsw Hprod Ecb
                Hi Hj Q0) as (Scb & _).
    now rewrite En in Scb. }
  assert (Lamp : length (data amp) = n * n * (fov * fov)).
  { destruct (einsum_ijq_pq_ijp_ok cb d2 n n (sw * sw) (fov * fov) Scb Sd)
      as (amp' & Eamp' & _ & L').
    rewrite Eamp in Eamp'. now injection Eamp' as <-. }
  split; [now rewrite En|].
  split.
  { unfold well_shaped. cbn [shape data prod fold_right].
    rewrite length_map, Lamp, En. fold fov. ring. }
  intros a b Ha Hb.
  unfold get_flat. cbn [data].
  assert (Hab : a * fov + b < fov * fov)
    by (apply flat_index_lt; assumption).
  destruct (einsum_ijq_pq_ijp_entry cb d2 amp n n (fov * fov) (sw * sw)
              (i * n + j) (a * fov + b) Scb Sd Eamp Hij Hab)
    as (Samp & _ & Namp).
  replace (((i * n + j) * fov + a) * fov + b)
    with ((i * n + j) * (fov * fov) + (a * fov + b)) by ring.
  rewrite (nth_map_in abs2 _ _ c_zero)
    by (rewrite Lamp; apply flat_index_lt; assumption).
  rewrite Namp. apply abs2_zero. apply c_sum_upto_zero. intros q Hq.
  apply c_mul_zero_l.
  - assert (Hi' : i < nsubx s) by now rewrite En.
    assert (Hj' : j < nsubx s) by now rewrite En.
    destruct (batch_subapertures_entry s sw camp cb i j q Hsw Hprod Ecb
                Hi' Hj' Hq) as (_ & Nb).
    rewrite En in Nb. rewrite Nb.
    assert (Hq1 : q / sw < sw) by (apply Nat.Div0.div_lt_upper_bound; lia).
    assert (Hq2 : q mod sw < sw) by (apply Nat.mod_upper_bound; lia).
    set (k := (i * sw + q / sw) * (n * sw) + (j * sw + q mod sw)).
    assert (Hk : k < prod [n * sw; n * sw]).
    { cbn [prod fold_right]. rewrite Nat.mul_1_r.
      apply flat_index_lt; nia. }
    match type of Ecamp with
    | c_times ?x ?y = _ =>
        destruct (c_times_entry x y camp [n * sw; n * sw] k Sg Sphi Ecamp
                    Hk) as (_ & Nc)
    end.
    rewrite Nc. cbn [data].
    destruct (Hdark (q / sw) (q mod sw) Hq1 Hq2) as (Dm & Dw). fold k in Dm, Dw.
    apply c_mul_zero_l.
    + change (@c_zero spec_float float64) with (@c_of_bool spec_float float64 false).
      rewrite map_nth, Dm. reflexivity.
    + rewrite (nth_map_in _ _ _ s_zero).
      * exact Dw.
      * unfold well_shaped in Wphi. rewrite Wphi, Sphi. exact Hk.
  - apply nth_forallb; [exact Fd|reflexivity].
Qed.

Lemma clamp_dark (t v : spec_float) :
  SFleb Float64.zero t = true -> Float64.is_zero v = true ->
  Float64.is_zero (ClassicCog.clamp t v) = true.
Proof.
  unfold ClassicCog.clamp.
  destruct v as [sv| | |]; try discriminate. intros Ht _.
  destruct t as [[|]|[|]| |[|] mt et], sv; try discriminate; reflexivity.
Qed.

End DarkFacts.

(** X21.  A subaperture over which the module-level pupil is dark gets an
    all-zero frame.  In float64, for a sensor of [n x n] subapertures of
    [sw x sw] points whose kernel [dft2] has shape [(fovx*fovx, sw*sw)]
    and finite entries: if the pupil is [False] at every point of
    subaperture [(i, j)] and the complex exponential of the phase is
    finite there (the phase is finite), then after [measure(phi)] every
    pixel of frame [i*n + j] of [image_batched] is a zero. *)
Theorem dark_subaperture_has_a_zero_frame :
  forall (Tr : Trig spec_float) (g : globals)
         (s s1 : SHWFS.obj spec_float) (gp : ndarray bool)
         (d2 : ndarray (SHWFS.complex spec_float))
         (phi subaps : ndarray spec_float) (n sw i j : nat),
    0 < n -> 0 < sw ->
    SHWFS.nsubx s = n -> shape (SHWFS.pupil s) = [n * sw; n * sw] ->
    g_pupil g = Some gp -> shape gp = [n * sw; n * sw] ->
    shape phi = [n * sw; n * sw] -> well_shaped phi ->
    SHWFS.dft2 s = Some d2 ->
    shape d2 = [SHWFS.fovx s * SHWFS.fovx s; sw * sw] ->
    forallb DarkFrames.c_finite (data d2) = true ->
    i < n -> j < n ->
    (forall r c, r < sw -> c < sw ->
       nth ((i * sw + r) * (n * sw) + (j * sw + c)) (data gp) false = false
       /\ DarkFrames.c_finite
            (DarkFrames.wave_at s phi
               ((i * sw + r) * (n * sw) + (j * sw + c))) = true) ->
    SHWFS.measure g s phi = Ok s1 ->
    Views.image_batched s1 = Ok subaps ->
    forall a b, a < SHWFS.fovx s -> b < SHWFS.fovx s ->
      Float64.is_zero
        (get_flat subaps
           (((i * n + j) * SHWFS.fovx s + a) * SHWFS.fovx s + b)) = true.
Proof.
  intros Tr g s s1 gp d2 phi subaps n sw i j Hn Hsw En Ep Eg Sg Sphi Wphi
         Ed Sd Fd Hi Hj Hdark E Es.
  unfold Views.image_batched in Es.
  destruct (SHWFS._im_subaps s1) as [sub|] eqn:Esub; [|discriminate].
  cbn [require] in Es. injection Es as <-.
  exact (proj2 (proj2 (dark_frame_is_zero g s s1 gp d2 phi sub n sw i j
                         Hn Hsw En Ep Eg Sg Sphi Wphi Ed Sd Fd Hi Hj Hdark
                         E Esub))).
Qed.

Lemma dark_subaperture_has_a_zero_frame_witness :
  exists s0 s1 subaps,
    @SHWFS.__init__ spec_float float64 (@DemoSensor.flat_trig _ float64)
       DarkFrames.dark_globals DarkFrames.dark_sensor = Ok s0
    /\ @SHWFS.measure spec_float float64 (@DemoSensor.flat_trig _ float64)
         DarkFrames.dark_globals s0 DemoSensor.float_phi4 = Ok s1
    /\ Views.image_batched s1 = Ok subaps
    /\ Float64.is_zero (get_flat subaps 3) = true.
Proof.
  destruct (@SHWFS.__init__ spec_float float64
              (@DemoSensor.flat_trig _ float64)
              DarkFrames.dark_globals DarkFrames.dark_sensor)
    as [s0|e] eqn:E0; [|vm_compute in E0; discriminate].
  destruct (@SHWFS.measure spec_float float64
              (@DemoSensor.flat_trig _ float64)
              DarkFrames.dark_globals s0 DemoSensor.float_phi4)
    as [s1|e] eqn:E1;
    [|vm_compute in E0; injection E0 as <-; vm_compute in E1; discriminate].
  destruct (Views.image_batched s1) as [subaps|e] eqn:E2;
    [|vm_compute in E0; injection E0 as <-; vm_compute in E1;
      injection E1 as <-; vm_compute in E2; discriminate].
  exists s0, s1, subaps.
  split; [reflexivity|]. split; [exact E1|]. split; [exact E2|].
  assert (F0 := E0). vm_compute in F0. injection F0 as F0.
  match type of F0 with
  | {| SHWFS.pupil := _; SHWFS.dft2 := Some ?d |} = _ => set (d2 := d) in *
  end.
  assert (En : SHWFS.nsubx s0 = 2) by (rewrite <- F0; reflexivity).
  assert (Ef : SHWFS.fovx s0 = 2) by (rewrite <- F0; reflexivity).
  assert (Ep : shape (SHWFS.pupil s0) = [2 * 2; 2 * 2])
    by (rewrite <- F0; reflexivity).
  assert (Ed : SHWFS.dft2 s0 = Some d2) by (rewrite <- F0; reflexivity).
  assert (Sd : shape d2 = [SHWFS.fovx s0 * SHWFS.fovx s0; 2 * 2])
    by (rewrite Ef; reflexivity).
  assert (Fd : forallb DarkFrames.c_finite (data d2) = true)
    by (vm_compute; reflexivity).
  assert (Hd : forall r c, r < 2 -> c < 2 ->
            nth ((0 * 2 + r) * (2 * 2) + (0 * 2 + c))
                (data DarkFrames.pupil_dark) false = false
            /\ DarkFrames.c_finite
                 (@DarkFrames.wave_at (@DemoSensor.flat_trig _ float64) s0
                    DemoSensor.float_phi4
                    ((0 * 2 + r) * (2 * 2) + (0 * 2 + c))) = true).
  { intros r c Hr Hc.
    destruct r as [|[|r]]; [| |lia];
      (destruct c as [|[|c]]; [| |lia]); split; reflexivity. }
  pose proof (dark_subaperture_has_a_zero_frame
                (@DemoSensor.flat_trig _ float64) DarkFrames.dark_globals
                s0 s1 DarkFrames.pupil_dark d2 DemoSensor.float_phi4 subaps
                2 2 0 0 ltac:(lia) ltac:(lia) En Ep eq_refl eq_refl
                eq_refl eq_refl Ed Sd Fd ltac:(lia) ltac:(lia) Hd E1 E2
                1 1) as Hz.
  rewrite Ef in Hz. apply Hz; lia.
Defined.

(** X22.  The centroid of a dark subaperture is NaN.  Under the
    conditions of X21, for a centroider calibrated with [npix = fovx]
    whose threshold is [None] or not below zero, [cog(image_batched)]
    returns, and both coordinates of subaperture [(i, j)], row [i*n + j]
    of the result, are NaN: the slopes of subapertures outside the pupil
    carry no value, which is what the validity mask of the script has to
    remove. *)
Theorem dark_subaperture_has_a_nan_centroid :
  forall (Tr : Trig spec_float) (g : globals)
         (s s1 : SHWFS.obj spec_float) (gp : ndarray bool)
         (d2 : ndarray (SHWFS.complex spec_float))
         (phi subaps : ndarray spec_float) (n sw i j : nat)
         (kw : option (option spec_float)) (c : ClassicCog.obj),
    0 < n -> 0 < sw ->
    SHWFS.nsubx s = n -> shape (SHWFS.pupil s) = [n * sw; n * sw] ->
    g_pupil g = Some gp -> shape gp = [n * sw; n * sw] ->
    shape phi = [n * sw; n * sw] -> well_shaped phi ->
    SHWFS.dft2 s = Some d2 ->
    shape d2 = [SHWFS.fovx s * SHWFS.fovx s; sw * sw] ->
    forallb DarkFrames.c_finite (data d2) = true ->
    i < n -> j < n ->
    (forall r c, r < sw -> c < sw ->
       nth ((i * sw + r) * (n * sw) + (j * sw + c)) (data gp) false = false
       /\ DarkFrames.c_finite
            (DarkFrames.wave_at s phi
               ((i * sw + r) * (n * sw) + (j * sw + c))) = true) ->
    SHWFS.measure g s phi = Ok s1 ->
    Views.image_batched s1 = Ok subaps ->
    ClassicCog.calibrate (ClassicCog.new (Z.of_nat (SHWFS.fovx s)) kw)
    = Ok c ->
    match ClassicCog.thresh c with
    | None => True
    | Some t => SFleb Float64.zero t = true
    end ->
    exists out : ndarray spec_float,
      ClassicCog.cog c subaps
      = Ok {| ClassicCog.dt := ClassicCog.dt_float32;
              ClassicCog.arr := out |}
      /\ shape out = [n * n; 2]
      /\ get_flat out ((i * n + j) * 2 + 0) = Float64.nan
      /\ get_flat out ((i * n + j) * 2 + 1) = Float64.nan.
Proof.
  intros Tr g s s1 gp d2 phi subaps n sw i j kw c Hn Hsw En Ep Eg Sg Sphi
         Wphi Ed Sd Fd Hi Hj Hdark E Es Ec Ht.
  unfold Views.image_batched in Es.
  destruct (SHWFS._im_subaps s1) as [sub|] eqn:Esub; [|discriminate].
  cbn [require] in Es. injection Es as <-.
  destruct (dark_frame_is_zero g s s1 gp d2 phi sub n sw i j Hn Hsw En Ep
              Eg Sg Sphi Wphi Ed Sd Fd Hi Hj Hdark E Esub)
    as (Ss & Ws & Hz).
  set (fov := SHWFS.fovx s) in *.
  assert (Ss' : shape sub
                = [n * n; Z.to_nat (Z.of_nat fov); Z.to_nat (Z.of_nat fov)])
    by now rewrite Nat2Z.id.
  destruct (calibrated_cog_batch _ kw c sub (n * n) Ec Ss' Ws)
    as (r & xy & Er & Exy & Hr & Ecog).
  rewrite Nat2Z.id in Hr, Ecog.
  set (K := fov * fov) in *.
  assert (Hij : i * n + j < n * n) by (apply flat_index_lt; assumption).
  assert (Hw : forall k, k < K ->
            Float64.is_zero
              (CogSpec.weight (ClassicCog.thresh c) sub K (i * n + j) k)
            = true).
  { intros k Hk.
    assert (Hf : 0 < fov) by (destruct fov; [unfold K in Hk; lia|lia]).
    assert (Hp : Float64.is_zero (CogSpec.pixel sub K (i * n + j) k) = true).
    { unfold CogSpec.pixel.
      replace ((i * n + j) * K + k)
        with (((i * n + j) * fov + k / fov) * fov + k mod fov).
      - apply Hz.
        + apply Nat.Div0.div_lt_upper_bound. exact Hk.
        + apply Nat.mod_upper_bound. lia.
      - pose proof (Nat.div_mod_eq k fov). unfold K. nia. }
    unfold CogSpec.weight.
    destruct (ClassicCog.thresh c) as [t|]; [|exact Hp].
    now apply clamp_dark. }
  eexists. split; [exact Ecog|]. split; [reflexivity|].
  assert (Hnan : forall ax, ax < 2 ->
            get_flat
              (ClassicCog.arr
                 (ClassicCog.astype_float32
                    (mk_nd [n * n; 2]
                       (tabulate (n * n * 2) (fun q =>
                          s_div
                            (CogSpec.weighted_sum r xy (ClassicCog.thresh c)
                               sub K (q / 2) (q mod 2))
                            (CogSpec.total_weight (ClassicCog.thresh c)
                               sub K (q / 2)))))))
              ((i * n + j) * 2 + ax)
            = Float64.nan).
  { intros ax Hax.
    rewrite (out_entry (n * n) _ (i * n + j) ax Hij Hax).
    rewrite flat_index_div, flat_index_mod by exact Hax.
    rewrite zero_or_nan_div_zero; [reflexivity| |].
    - unfold CogSpec.weighted_sum. apply sum_upto_zero_or_nan.
      intros k Hk. apply mul_zero_l_zero_or_nan.
      rewrite (Hr ax k Hax Hk). apply one_mul_zero. now apply Hw.
    - unfold CogSpec.total_weight. now apply np_sum_all_zero. }
  split; [exact (Hnan 0 ltac:(lia)) | exact (Hnan 1 ltac:(lia))].
Qed.

Lemma dark_subaperture_has_a_nan_centroid_witness :
  exists s0 s1 subaps out,
    @SHWFS.__init__ spec_float float64 (@DemoSensor.flat_trig _ float64)
       DarkFrames.dark_globals DarkFrames.dark_sensor = Ok s0
    /\ @SHWFS.measure spec_float float64 (@DemoSensor.flat_trig _ float64)
         DarkFrames.dark_globals s0 DemoSensor.float_phi4 = Ok s1
    /\ Views.image_batched s1 = Ok subaps
    /\ ClassicCog.cog Demo.cog2 subaps
       = Ok {| ClassicCog.dt := ClassicCog.dt_float32;
               ClassicCog.arr := out |}
    /\ get_flat out 0 = Float64.nan
    /\ get_flat out 1 = Float64.nan.
Proof.
  destruct (@SHWFS.__init__ spec_float float64
              (@DemoSensor.flat_trig _ float64)
              DarkFrames.dark_globals DarkFrames.dark_sensor)
    as [s0|e] eqn:E0; [|vm_compute in E0; discriminate].
  destruct (@SHWFS.measure spec_float float64
              (@DemoSensor.flat_trig _ float64)
              DarkFrames.dark_globals s0 DemoSensor.float_phi4)
    as [s1|e] eqn:E1;
    [|vm_compute in E0; injection E0 as <-; vm_compute in E1; discriminate].
  destruct (Views.image_batched s1) as [subaps|e] eqn:E2;
    [|vm_compute in E0; injection E0 as <-; vm_compute in E1;
      injection E1 as <-; vm_compute in E2; discriminate].
  assert (F0 := E0). vm_compute in F0. injection F0 as F0.
  match type of F0 with
  | {| SHWFS.pupil := _; SHWFS.dft2 := Some ?d |} = _ => set (d2 := d) in *
  end.
  assert (En : SHWFS.nsubx s0 = 2) by (rewrite <- F0; reflexivity).
  assert (Ef : SHWFS.fovx s0 = 2) by (rewrite <- F0; reflexivity).
  assert (Ep : shape (SHWFS.pupil s0) = [2 * 2; 2 * 2])
    by (rewrite <- F0; reflexivity).
  assert (Ed : SHWFS.dft2 s0 = Some d2) by (rewrite <- F0; reflexivity).
  assert (Sd : shape d2 = [SHWFS.fovx s0 * SHWFS.fovx s0; 2 * 2])
    by (rewrite Ef; reflexivity).
  assert (Fd : forallb DarkFrames.c_finite (data d2) = true)
    by (vm_compute; reflexivity).
  assert (Hd : forall r c, r < 2 -> c < 2 ->
            nth ((0 * 2 + r) * (2 * 2) + (0 * 2 + c))
                (data DarkFrames.pupil_dark) false = false
            /\ DarkFrames.c_finite
                 (@DarkFrames.wave_at (@DemoSensor.flat_trig _ float64) s0
                    DemoSensor.float_phi4
                    ((0 * 2 + r) * (2 * 2) + (0 * 2 + c))) = true).
  { intros r c Hr Hc.
    destruct r as [|[|r]]; [| |lia];
      (destruct c as [|[|c]]; [| |lia]); split; reflexivity. }
  assert (Ec : ClassicCog.calibrate
                 (ClassicCog.new (Z.of_nat (SHWFS.fovx s0)) None)
               = Ok Demo.cog2)
    by (rewrite Ef; vm_compute; reflexivity).
  destruct (dark_subaperture_has_a_nan_centroid
              (@DemoSensor.flat_trig _ float64) DarkFrames.dark_globals
              s0 s1 DarkFrames.pupil_dark d2 DemoSensor.float_phi4 subaps
              2 2 0 0 None Demo.cog2 ltac:(lia) ltac:(lia) En Ep eq_refl
              eq_refl eq_refl eq_refl Ed Sd Fd ltac:(lia) ltac:(lia) Hd E1
              E2 Ec eq_refl)
    as (out & Eo & _ & N0 & N1).
  exists s0, s1, subaps, out.
  split; [reflexivity|]. split; [exact E1|]. split; [exact E2|].
  split; [exact Eo|]. split; [exact N0|exact N1].
Defined.
